(** * polytop: polymer extension over a store of shared objects

    [Polymer.DFS], [Polymer.extend], [Polymer.__init__], [Polymer.has_junction],
    [Polymer.to_dict] and [Polymer.from_dict] are embedded from
    [polytop/polymer.py].  Python objects are mutable and shared by reference,
    so the embedding keeps an explicit store: every Atom, Bond, Topology,
    Junction and Junctions object lives at a location of its own class, and the
    methods are computations in a state-and-exception monad over that store.
    An exception leaves the store as it was when it was raised. *)

From stdpp Require Import gmap strings list fin_maps.
From Stdlib Require Import ZArith Lia QArith.

Local Open Scope Z_scope.
Local Open Scope list_scope.
Set Warnings "-clear-no-such-hyp,-register-all".

(** Identity of an object: its address in the store. *)
Definition loc := positive.

(** Python floats (partial charges, masses, bond lengths).  Their arithmetic
    is an interface: no statement below depends on how it rounds. *)
Class PyFloat := {
  float : Type;
  fzero : float;
  fadd : float → float → float;
  fsub : float → float → float;
  fmul : float → float → float;
  fdiv : float → float → float;
  fabs : float → float;
  fis_zero : float → bool
}.

(** Exact rational arithmetic as one instance of the interface, used to run
    the embedding on concrete molecules. *)
Definition QFloat : PyFloat := {|
  float := Q;
  fzero := 0%Q;
  fadd := Qplus;
  fsub := Qminus;
  fmul := Qmult;
  fdiv := Qdiv;
  fabs := fun x => if Qle_bool 0 x then x else Qopp x;
  fis_zero := fun x => Qeq_bool x 0
|}.

(** Dynamically typed scalars, as passed for bond parameters. *)
Inductive pyval `{PyFloat} :=
| PyNone
| PyInt (z : Z)
| PyStr (s : string)
| PyFlt (x : float).

(** The nested key-value documents of [to_dict] and [from_dict], as [json]
    reads and writes them. *)
Inductive doc `{PyFloat} :=
| DNone
| DInt (z : Z)
| DFlt (x : float)
| DStr (s : string)
| DList (items : list doc)
| DDict (items : list (string * doc)).

(** Exceptions raised by the embedded code. *)
Inductive exn :=
| ValueError (msg : string)
| IndexError (msg : string)
| KeyError (key : string)
| TypeError (msg : string)
| AttributeError (msg : string)
| RecursionError
| ZeroDivisionError.

Inductive result (A : Type) :=
| Ok (a : A)
| Raise (e : exn).
Arguments Ok {A} a.
Arguments Raise {A} e.

(** ** The classes polymer.py works on *)

Module Atom.
Section defs.
Context `{PyFloat}.

(** Modelled from the spec: the Atom of section 3 (polytop/atoms.py is not
    among the sources); [bonds] are the back-references to the bonds that
    mention the atom. *)
Record t := mk {
  atom_id : Z;
  atom_type : string;
  atom_index : Z;
  residue_id : Z;
  residue_name : string;
  atom_name : string;
  charge_group_num : Z;
  partial_charge : float;
  mass : float;
  bonds : list loc
}.

Definition set_atom_id (v : Z) (a : t) : t :=
  mk v (atom_type a) (atom_index a) (residue_id a) (residue_name a)
     (atom_name a) (charge_group_num a) (partial_charge a) (mass a) (bonds a).

Definition set_atom_index (v : Z) (a : t) : t :=
  mk (atom_id a) (atom_type a) v (residue_id a) (residue_name a)
     (atom_name a) (charge_group_num a) (partial_charge a) (mass a) (bonds a).

Definition set_partial_charge (v : float) (a : t) : t :=
  mk (atom_id a) (atom_type a) (atom_index a) (residue_id a) (residue_name a)
     (atom_name a) (charge_group_num a) v (mass a) (bonds a).

Definition set_bonds (v : list loc) (a : t) : t :=
  mk (atom_id a) (atom_type a) (atom_index a) (residue_id a) (residue_name a)
     (atom_name a) (charge_group_num a) (partial_charge a) (mass a) v.

End defs.
End Atom.

Module Bond.
Section defs.
Context `{PyFloat}.

(** Modelled from the spec: the Bond of section 3 (polytop/bonds.py is not
    among the sources); the parameters are kept as the caller passed them. *)
Record t := mk {
  atom_a : loc;
  atom_b : loc;
  bond_type : pyval;
  bond_length : pyval;
  force_constant : pyval;
  order : pyval
}.

(** Modelled from the spec: [bond.other_atom(atom)], the endpoint that is not
    [atom]. *)
Definition other_atom (b : t) (atom : loc) : loc :=
  if decide (atom_a b = atom) then atom_b b else atom_a b.

Definition contains_atom (b : t) (atom : loc) : bool :=
  bool_decide (atom_a b = atom) || bool_decide (atom_b b = atom).

End defs.
End Bond.

Module Junction.
(** Modelled from the spec: a named marker on a bond (polytop/junction.py is
    not among the sources); [location] is [None] when the bond lookup that
    produced it found nothing. *)
Record t := mk {
  name : string;
  location : option loc
}.
End Junction.

Module Topology.
(** Modelled from the spec: the part of a Topology that polymer.py reads and
    writes, its atom list and its bond list (polytop/topology.py is not among
    the sources). *)
Record t := mk {
  atoms : list loc;
  bonds : list loc
}.
End Topology.

Module Monomer.
(** Modelled from the spec: a Monomer as polymer.py uses it, a topology and a
    collection of junctions (polytop/monomer.py is not among the sources).
    The two attributes are never rebound, so the object is the pair of
    references. *)
Record t := mk {
  topology : loc;
  junctions : loc
}.
End Monomer.

(** ** The store *)

Section store.
Context `{PyFloat}.

Record heap := Heap {
  atom_objs : gmap loc Atom.t;
  bond_objs : gmap loc Bond.t;
  topology_objs : gmap loc Topology.t;
  junction_objs : gmap loc Junction.t;
  junctions_objs : gmap loc (list loc)
}.

Definition with_atoms (f : gmap loc Atom.t → gmap loc Atom.t) (h : heap) : heap :=
  Heap (f (atom_objs h)) (bond_objs h) (topology_objs h) (junction_objs h) (junctions_objs h).
Definition with_bonds (f : gmap loc Bond.t → gmap loc Bond.t) (h : heap) : heap :=
  Heap (atom_objs h) (f (bond_objs h)) (topology_objs h) (junction_objs h) (junctions_objs h).
Definition with_topologies (f : gmap loc Topology.t → gmap loc Topology.t) (h : heap) : heap :=
  Heap (atom_objs h) (bond_objs h) (f (topology_objs h)) (junction_objs h) (junctions_objs h).
Definition with_junction (f : gmap loc Junction.t → gmap loc Junction.t) (h : heap) : heap :=
  Heap (atom_objs h) (bond_objs h) (topology_objs h) (f (junction_objs h)) (junctions_objs h).
Definition with_junctions (f : gmap loc (list loc) → gmap loc (list loc)) (h : heap) : heap :=
  Heap (atom_objs h) (bond_objs h) (topology_objs h) (junction_objs h) (f (junctions_objs h)).

(** State and exceptions: a computation maps the store to a result and the
    store it leaves behind. *)
Definition M (A : Type) : Type := heap → result A * heap.

Definition ret {A} (a : A) : M A := fun h => (Ok a, h).
Definition raise {A} (e : exn) : M A := fun h => (Raise e, h).
Definition bind {A B} (k : A → M B) (m : M A) : M B :=
  fun h => match m h with
           | (Ok a, h') => k a h'
           | (Raise e, h') => (Raise e, h')
           end.

#[export] Instance M_ret : MRet M := @ret.
#[export] Instance M_bind : MBind M := @bind.

(** A computation that only reads the store. *)
Definition R (A : Type) : Type := heap → result A.
Definition read {A} (r : R A) : M A := fun h => (r h, h).

Definition rret {A} (a : A) : R A := fun _ => Ok a.
Definition rraise {A} (e : exn) : R A := fun _ => Raise e.
Definition rbind {A B} (k : A → R B) (m : R A) : R B :=
  fun h => match m h with
           | Ok a => k a h
           | Raise e => Raise e
           end.

#[export] Instance R_ret : MRet R := @rret.
#[export] Instance R_bind : MBind R := @rbind.

End store.


(** ** Reading and writing objects *)

Section access.
Context `{PyFloat}.

Definition load_atom (l : loc) : R Atom.t :=
  fun h => match atom_objs h !! l with
           | Some a => Ok a
           | None => Raise (AttributeError "Atom")
           end.

Definition load_bond (l : loc) : R Bond.t :=
  fun h => match bond_objs h !! l with
           | Some b => Ok b
           | None => Raise (AttributeError "Bond")
           end.

Definition load_topology (l : loc) : R Topology.t :=
  fun h => match topology_objs h !! l with
           | Some t => Ok t
           | None => Raise (AttributeError "Topology")
           end.

Definition load_junction (l : loc) : R Junction.t :=
  fun h => match junction_objs h !! l with
           | Some j => Ok j
           | None => Raise (AttributeError "Junction")
           end.

Definition load_junctions (l : loc) : R (list loc) :=
  fun h => match junctions_objs h !! l with
           | Some js => Ok js
           | None => Raise (AttributeError "Junctions")
           end.

Definition update (f : heap → heap) : M unit :=
  fun h => (Ok tt, f h).

Definition store_atom (l : loc) (a : Atom.t) : M unit :=
  update (with_atoms (insert l a)).

Definition store_topology (l : loc) (t : Topology.t) : M unit :=
  update (with_topologies (insert l t)).

Definition store_junctions (l : loc) (js : list loc) : M unit :=
  update (with_junctions (insert l js)).

(** A new object gets an address that no object of its class has. *)
Definition alloc_bond (b : Bond.t) : M loc :=
  fun h => let l := fresh (dom (bond_objs h)) in
           (Ok l, with_bonds (insert l b) h).

Definition alloc_junction (j : Junction.t) : M loc :=
  fun h => let l := fresh (dom (junction_objs h)) in
           (Ok l, with_junction (insert l j) h).

(** [for x in l: body(x)] *)
Fixpoint for_ {A} (l : list A) (body : A → M unit) : M unit :=
  match l with
  | [] => mret tt
  | x :: l' => body x;; for_ l' body
  end.

(** [[f(x) for x in l]] for a function that only reads. *)
Fixpoint rmap {A B} (f : A → R B) (l : list A) : R (list B) :=
  match l with
  | [] => mret []
  | x :: l' => y ← f x; ys ← rmap f l'; mret (y :: ys)
  end.

(** [[x for x in l if p(x)]] for a test that only reads. *)
Fixpoint rfilter {A} (p : A → R bool) (l : list A) : R (list A) :=
  match l with
  | [] => mret []
  | x :: l' => b ← p x; ys ← rfilter p l'; mret (if b : bool then x :: ys else ys)
  end.

(** A loop that threads an accumulator and only reads the store. *)
Fixpoint rfold {A B} (f : B → A → R B) (acc : B) (l : list A) : R B :=
  match l with
  | [] => mret acc
  | x :: l' => acc' ← f acc x; rfold f acc' l'
  end.

(** Modelled from the spec: [atom.bond_neighbours()], the neighbour query
    through the back-references of section 3: the other endpoint of every
    bond the atom is registered on. *)
Definition bond_neighbours (atom : loc) : R (list loc) :=
  a ← load_atom atom;
  bs ← rmap load_bond (Atom.bonds a);
  mret ((fun b => Bond.other_atom b atom) <$> bs).

End access.

(** ** The collaborators of Polymer *)

Section collaborators.
Context `{PyFloat}.

(** *** Junctions *)

(** Modelled from the spec: [junctions.add(junction)] appends to the
    collection (polytop/junction.py is not among the sources). *)
Definition junctions_add (js : loc) (junction : loc) : M unit :=
  l ← read (load_junctions js);
  store_junctions js (l ++ [junction]).

(** Modelled from the spec: [junctions.remove(junction)] takes the junction
    object out of the collection; the comparison is by identity. *)
Definition junctions_remove (js : loc) (junction : loc) : M unit :=
  l ← read (load_junctions js);
  if decide (junction ∈ l)
  then store_junctions js (filter (fun j => j ≠ junction) l)
  else raise (ValueError "list.remove(x): x not in list").

(** [[junction for junction in js if junction.name == name]] *)
Definition named (name : string) (js : list loc) : R (list loc) :=
  rfilter (fun junction =>
             j ← load_junction junction;
             mret (bool_decide (Junction.name j = name))) js.

(** Modelled from the spec: lookup by name in a collection of junctions,
    [any(junction.name == name for junction in js)]. *)
Definition any_named (js : loc) (name : string) : R bool :=
  l ← load_junctions js;
  found ← named name l;
  mret (bool_decide (found ≠ [])).

(** [junction.location], dereferenced: the attribute access that follows it
    fails on [None]. *)
Definition junction_location (junction : loc) : R Bond.t :=
  j ← load_junction junction;
  match Junction.location j with
  | Some b => load_bond b
  | None => rraise (AttributeError "'NoneType' object has no attribute 'atom_a'")
  end.

(** Modelled from the spec: [Junction(name, location)] makes a new marker. *)
Definition new_Junction (name : string) (location : option loc) : M loc :=
  alloc_junction (Junction.mk name location).

(** *** Bond *)

Definition register_bond (b : loc) (a : Atom.t) : Atom.t :=
  Atom.set_bonds (Atom.bonds a ++ [b]) a.

(** Modelled from the spec: [Bond(atom_a, atom_b, bond_type, bond_length,
    force_constant)] makes a new bond, with no [order], and records the
    back-reference on both atoms (section 3; test_deduplicate_topology builds
    a bond this way). *)
Definition new_Bond (atom_a atom_b : loc)
    (bond_type bond_length force_constant : pyval) : M loc :=
  b ← alloc_bond (Bond.mk atom_a atom_b bond_type bond_length force_constant PyNone);
  a ← read (load_atom atom_a);
  store_atom atom_a (register_bond b a);;
  a' ← read (load_atom atom_b);
  store_atom atom_b (register_bond b a');;
  mret b.

(** *** Topology *)

(** [[atom.atom_id for atom in t.atoms]] *)
Definition atom_ids (t : loc) : R (list Z) :=
  T ← load_topology t;
  rmap (fun a => A ← load_atom a; mret (Atom.atom_id A)) (Topology.atoms T).

(** [max(xs)] of Python: an empty argument is a ValueError. *)
Definition py_max (xs : list Z) : M Z :=
  match xs with
  | [] => raise (ValueError "max() arg is an empty sequence")
  | x :: xs' => mret (foldl Z.max x xs')
  end.

Fixpoint renumber_from (start : Z) (atoms : list loc) : M unit :=
  match atoms with
  | [] => mret tt
  | a :: rest =>
      A ← read (load_atom a);
      store_atom a (Atom.set_atom_id start A);;
      renumber_from (start + 1) rest
  end.

(** Modelled from the spec: [renumber_atoms(start_id)] reassigns atom_id
    sequentially starting at start_id, preserving relative order (4.1). *)
Definition renumber_atoms (t : loc) (start_id : Z) : M unit :=
  T ← read (load_topology t);
  renumber_from start_id (Topology.atoms T).

(** A Python dict with string keys, in insertion order. *)
Definition dict := list (string * Z).

Fixpoint dict_get (k : string) (d : dict) : option Z :=
  match d with
  | [] => None
  | (k', v) :: d' => if decide (k' = k) then Some v else dict_get k d'
  end.

Fixpoint dict_set (k : string) (v : Z) (d : dict) : dict :=
  match d with
  | [] => [(k, v)]
  | (k', v') :: d' =>
      if decide (k' = k) then (k', v) :: d' else (k', v') :: dict_set k v d'
  end.

(** [d[k]] *)
Definition dict_item (d : dict) (k : string) : M Z :=
  match dict_get k d with
  | Some v => mret v
  | None => raise (KeyError k)
  end.

Definition max_index_step (d : dict) (a : Atom.t) : dict :=
  match dict_get (Atom.atom_type a) d with
  | None => dict_set (Atom.atom_type a) (Atom.atom_index a) d
  | Some m =>
      if m <? Atom.atom_index a
      then dict_set (Atom.atom_type a) (Atom.atom_index a) d
      else d
  end.

(** Modelled from the spec: [max_atom_index()] maps each atom type to the
    largest atom_index among the atoms of that type (4.1). *)
Definition max_atom_index (t : loc) : R dict :=
  T ← load_topology t;
  As ← rmap load_atom (Topology.atoms T);
  mret (foldl max_index_step [] As).

Fixpoint renumber_indexes_from (gap : Z) (d : dict) (atoms : list loc)
    : M unit :=
  match atoms with
  | [] => mret tt
  | a :: rest =>
      A ← read (load_atom a);
      match dict_get (Atom.atom_type A) d with
      | Some i =>
          store_atom a (Atom.set_atom_index (i + gap) A);;
          renumber_indexes_from gap (dict_set (Atom.atom_type A) (i + 1) d) rest
      | None => renumber_indexes_from gap d rest
      end
  end.

(** Modelled from the spec: [renumber_atom_indexes(mapping)] reassigns
    atom_index per atom type in the mapping, counting up in atom order from
    the given base and leaving other types alone (4.1).  The first index
    handed out is the base plus [gap]: the words of 4.1, starting above the
    given base, read as a gap of 1; its sibling reorder_atom_indexes starts
    at the number it is given in test_topology_reorder_atom_indexes, a gap
    of 0. *)
Definition renumber_atom_indexes (gap : Z) (t : loc) (d : dict) : M unit :=
  T ← read (load_topology t);
  renumber_indexes_from gap d (Topology.atoms T).

(** Modelled from the spec: [add(other)] appends all of other's atoms and
    bonds, the same objects, without renumbering (4.1). *)
Definition topology_add (t other : loc) : M unit :=
  T ← read (load_topology t);
  O ← read (load_topology other);
  store_topology t
    (Topology.mk (Topology.atoms T ++ Topology.atoms O)
                 (Topology.bonds T ++ Topology.bonds O)).

(** [t.bonds.append(bond)] *)
Definition bonds_append (t : loc) (bond : loc) : M unit :=
  T ← read (load_topology t);
  store_topology t (Topology.mk (Topology.atoms T) (Topology.bonds T ++ [bond])).

Definition bond_has_ids (a_id b_id : Z) (bond : loc) : R bool :=
  b ← load_bond bond;
  a1 ← load_atom (Bond.atom_a b);
  a2 ← load_atom (Bond.atom_b b);
  mret (bool_decide
          ((Atom.atom_id a1 = a_id ∧ Atom.atom_id a2 = b_id) ∨
           (Atom.atom_id a1 = b_id ∧ Atom.atom_id a2 = a_id))).

(** Modelled from the spec: [get_bond(a_id, b_id)] is the first bond on that
    unordered pair of atom ids, or None (4.1). *)
Definition get_bond (t : loc) (a_id b_id : Z) : R (option loc) :=
  T ← load_topology t;
  found ← rfilter (bond_has_ids a_id b_id) (Topology.bonds T);
  mret (head found).

Definition unregister_bond (b : loc) (a : Atom.t) : Atom.t :=
  Atom.set_bonds (filter (fun b' => b' ≠ b) (Atom.bonds a)) a.

(** Removing a bond: it leaves the topology's bond list and the
    back-references of both of its atoms. *)
Definition remove_bond (t : loc) (bond : loc) : M unit :=
  b ← read (load_bond bond);
  a ← read (load_atom (Bond.atom_a b));
  store_atom (Bond.atom_a b) (unregister_bond bond a);;
  a' ← read (load_atom (Bond.atom_b b));
  store_atom (Bond.atom_b b) (unregister_bond bond a');;
  T ← read (load_topology t);
  store_topology t
    (Topology.mk (Topology.atoms T)
                 (filter (fun b' => b' ≠ bond) (Topology.bonds T))).

(** Modelled from the spec: [remove_atom(atom)] removes the atom and every
    bond that mentions it, found through the atom's back-references (4.1,
    section 3).  The spec leaves the policy for an atom that is not in the
    topology open, no-op or error: [strict] chooses the error. *)
Definition remove_atom (strict : bool) (t : loc) (atom : loc) : M unit :=
  T ← read (load_topology t);
  if decide (atom ∈ Topology.atoms T) then
    a ← read (load_atom atom);
    for_ (Atom.bonds a) (remove_bond t);;
    T' ← read (load_topology t);
    store_topology t
      (Topology.mk (filter (fun a' => a' ≠ atom) (Topology.atoms T'))
                   (Topology.bonds T'))
  else if strict then raise (ValueError "atom not in topology")
  else mret tt.

(** Modelled from the spec: the net-charge read accessor, the sum of all atom
    partial charges (section 3); polymer.py reads it as [topology.charge]. *)
Definition charge (t : loc) : R float :=
  T ← load_topology t;
  As ← rmap load_atom (Topology.atoms T);
  mret (foldl (fun s a => fadd s (Atom.partial_charge a)) fzero As).

(** Modelled from the spec: [proportional_charge_change(delta)] spreads delta
    over the atoms in proportion to the size of their partial charges. *)
Definition proportional_charge_change (t : loc) (delta : float) : M unit :=
  T ← read (load_topology t);
  As ← read (rmap load_atom (Topology.atoms T));
  let total := foldl (fun s a => fadd s (fabs (Atom.partial_charge a))) fzero As in
  if fis_zero total then raise ZeroDivisionError
  else
    for_ (Topology.atoms T) (fun atom =>
      a ← read (load_atom atom);
      let q := Atom.partial_charge a in
      store_atom atom
        (Atom.set_partial_charge (fadd q (fdiv (fmul delta (fabs q)) total)) a)).

(** Modelled from the spec: the net-charge write accessor, which calls
    proportional_charge_change(target - current) (4.1); polymer.py writes it
    as [topology.charge]. *)
Definition set_charge (t : loc) (target : float) : M unit :=
  current ← read (charge t);
  proportional_charge_change t (fsub target current).

End collaborators.

(** *** Deep copies *)

Section copying.
Context `{PyFloat}.

(** The largest address in use in one class of objects. *)
Definition top {V} (m : gmap loc V) : positive :=
  foldr Pos.max 1%positive (elements (dom m)).

(** The copy of the object at [l] is put at [l + off], where [off] is the
    largest address in use: an address that no existing object has. *)
Definition moved (off : positive) (l : loc) : loc := (l + off)%positive.

Record offsets := Offsets {
  off_atom : positive;
  off_bond : positive;
  off_topology : positive;
  off_junction : positive;
  off_junctions : positive
}.

Definition current_offsets : R offsets :=
  fun h => Ok (Offsets (top (atom_objs h)) (top (bond_objs h))
                       (top (topology_objs h)) (top (junction_objs h))
                       (top (junctions_objs h))).

(** The copy of an object refers to the copies of what the object refers to. *)
Definition copy_atom (o : offsets) (a : Atom.t) : Atom.t :=
  Atom.set_bonds (moved (off_bond o) <$> Atom.bonds a) a.

Definition copy_bond (o : offsets) (b : Bond.t) : Bond.t :=
  Bond.mk (moved (off_atom o) (Bond.atom_a b)) (moved (off_atom o) (Bond.atom_b b))
          (Bond.bond_type b) (Bond.bond_length b) (Bond.force_constant b)
          (Bond.order b).

Definition copy_topology (o : offsets) (t : Topology.t) : Topology.t :=
  Topology.mk (moved (off_atom o) <$> Topology.atoms t)
              (moved (off_bond o) <$> Topology.bonds t).

Definition copy_junction (o : offsets) (j : Junction.t) : Junction.t :=
  Junction.mk (Junction.name j) (moved (off_bond o) <$> Junction.location j).

Definition copy_junctions (o : offsets) (js : list loc) : list loc :=
  moved (off_junction o) <$> js.

Definition clone_objs {V} (cp : V → V) (off : positive) (ls : list loc)
    (m : gmap loc V) : gmap loc V :=
  foldr (fun l acc => match m !! l with
                      | Some v => <[moved off l := cp v]> acc
                      | None => acc
                      end) m ls.

(** Modelled from the spec: [monomer.copy()] is a deep, independent clone
    (4.1 copy(), 4.2 Prepare; polytop/monomer.py is not among the sources):
    new atoms, bonds, topology, junctions and junction collection, with the
    values of the originals and linked among themselves as the originals
    are. *)
Definition monomer_copy (m : Monomer.t) : M Monomer.t :=
  T ← read (load_topology (Monomer.topology m));
  J ← read (load_junctions (Monomer.junctions m));
  o ← read current_offsets;
  update (fun h =>
    Heap (clone_objs (copy_atom o) (off_atom o) (Topology.atoms T) (atom_objs h))
         (clone_objs (copy_bond o) (off_bond o) (Topology.bonds T) (bond_objs h))
         (clone_objs (copy_topology o) (off_topology o) [Monomer.topology m]
                     (topology_objs h))
         (clone_objs (copy_junction o) (off_junction o) J (junction_objs h))
         (clone_objs (copy_junctions o) (off_junctions o) [Monomer.junctions m]
                     (junctions_objs h)));;
  mret (Monomer.mk (moved (off_topology o) (Monomer.topology m))
                   (moved (off_junctions o) (Monomer.junctions m))).

End copying.

(** ** polytop/polymer.py *)

(** What a run depends on besides its arguments: the draw of the random
    source, the depth of recursion the interpreter allows, the policy of
    remove_atom for an atom that is not there, and the gap between the base
    given to renumber_atom_indexes and the first index it hands out. *)
Record env := Env {
  rnd : nat;
  recursion_limit : nat;
  strict_remove : bool;
  index_gap : Z
}.

Module Polymer.
Section defs.
Context `{PyFloat}.

(** [self.topology] and [self.junctions] are bound once, in [__init__]. *)
Record t := mk {
  topology : loc;
  junctions : loc
}.

(** [def __init__(self, monomer)] *)
Definition __init__ (monomer : Monomer.t) : M t :=
  new_monomer ← monomer_copy monomer;
  mret (mk (Monomer.topology new_monomer) (Monomer.junctions new_monomer)).

(** [def has_junction(self, name)] *)
Definition has_junction (self : t) (name : string) : R bool :=
  any_named (junctions self) name.

(** [def DFS(self, atom, visited, exclude=None)]: [visited] is a set that the
    calls share and update; here each call returns the updated set.  [depth]
    is the number of nested calls still allowed. *)
Fixpoint DFS (depth : nat) (atom : loc) (visited : gset loc)
    (exclude : option loc) : R (gset loc) :=
  match depth with
  | O => rraise RecursionError
  | S depth' =>
      let visited := visited ∪ {[atom]} in
      neighbours ← bond_neighbours atom;
      rfold (fun visited neighbor =>
               if decide (Some neighbor ≠ exclude ∧ neighbor ∉ visited)
               then DFS depth' neighbor visited exclude
               else mret visited)
            visited neighbours
  end.

(** [random.choice(seq)]: IndexError on an empty sequence, else the element
    at a drawn position below its length. *)
Definition random_choice {A} (draw : nat) (seq : list A) : M A :=
  match seq !! (draw `mod` length seq)%nat with
  | Some x => mret x
  | None => raise (IndexError "Cannot choose from an empty sequence")
  end.

(** [def extend(self, monomer, from_junction_name, to_junction_name,
    keep_charge=False)] *)
Definition extend (e : env) (self : t) (monomer : Monomer.t)
    (from_junction_name to_junction_name : string) (keep_charge : bool) : M unit :=
  charges ← (if keep_charge then
               monomer_charge ← read (charge (Monomer.topology monomer));
               polymer_charge ← read (charge (topology self));
               mret (Some (monomer_charge, polymer_charge))
             else mret None);
  (* take a copy of the topology of the monomer *)
  new_monomer ← monomer_copy monomer;
  (* renumber all atoms above the max atom id of the polymer *)
  ids ← read (atom_ids (topology self));
  max_id ← py_max ids;
  renumber_atoms (Monomer.topology new_monomer) (max_id + 1);;
  atom_index_dict ← read (max_atom_index (topology self));
  (* renumber all atom indexes for each atom type above the max atom index
     for that atom type in the polymer *)
  for_ (atom_index_dict.*1) (fun atom_type =>
    v ← dict_item atom_index_dict atom_type;
    renumber_atom_indexes (index_gap e) (Monomer.topology new_monomer)
                          [(atom_type, v + 1)]);;
  (* choose the first polymerization junction of the monomer named
     to_junction_name *)
  mjs ← read (load_junctions (Monomer.junctions new_monomer));
  to_named ← read (named to_junction_name mjs);
  match head to_named with
  | None =>
      raise (ValueError ("No junction named " +:+ to_junction_name +:+
                         " found in the monomer"))
  | Some to_junction =>
      junctions_remove (Monomer.junctions new_monomer) to_junction;;
      (* depth first search of the monomer from the first atom of the junction *)
      to_bond ← read (junction_location to_junction);
      discard_from_monomer ←
        read (DFS (recursion_limit e) (Bond.atom_a to_bond) ∅
                  (Some (Bond.atom_b to_bond)));
      (* choose a random polymerization junction of the polymer with
         from_junction_name; random.choice never returns None, so the
         ValueError of the source is out of reach *)
      pjs ← read (load_junctions (junctions self));
      from_named ← read (named from_junction_name pjs);
      from_junction ← random_choice (rnd e) from_named;
      junctions_remove (junctions self) from_junction;;
      (* depth first search of the polymer from the second atom of the junction *)
      from_bond ← read (junction_location from_junction);
      discard_from_polymer ←
        read (DFS (recursion_limit e) (Bond.atom_b from_bond) ∅
                  (Some (Bond.atom_a from_bond)));
      (* add the monomer's topology to the polymer *)
      topology_add (topology self) (Monomer.topology new_monomer);;
      njs ← read (load_junctions (Monomer.junctions new_monomer));
      for_ njs (fun junction =>
        j ← read (load_junction junction);
        jb ← read (junction_location junction);
        a ← read (load_atom (Bond.atom_a jb));
        b ← read (load_atom (Bond.atom_b jb));
        bond ← read (get_bond (topology self) (Atom.atom_id a) (Atom.atom_id b));
        new_junction ← new_Junction (Junction.name j) bond;
        junctions_add (junctions self) new_junction);;
      (* bond the two outer atoms at the junctions *)
      from_bond' ← read (junction_location from_junction);
      to_bond' ← read (junction_location to_junction);
      new_bond ← new_Bond (Bond.atom_a from_bond') (Bond.atom_b to_bond')
                          (PyInt 1) (PyInt 1) (PyInt 1);
      bonds_append (topology self) new_bond;;
      (* remove the redundant atoms and bonds *)
      for_ (elements discard_from_monomer)
           (remove_atom (strict_remove e) (topology self));;
      for_ (elements discard_from_polymer)
           (remove_atom (strict_remove e) (topology self));;
      match charges with
      | Some (monomer_charge, polymer_charge) =>
          set_charge (topology self) (fadd monomer_charge polymer_charge)
      | None => mret tt
      end
  end.

(** *** Structured form *)

Section structured_form.
(** The four conversions of Topology and Junctions are not among the
    sources; the two methods of Polymer are embedded over any. *)
Variable Topology_to_dict : loc → R doc.
Variable Junctions_to_dict : loc → R doc.
Variable Topology_from_dict : doc → M loc.
Variable Junctions_from_dict : doc → list loc → M loc.

(** [def to_dict(self)] *)
Definition to_dict (self : t) : R doc :=
  topology_doc ← Topology_to_dict (topology self);
  junctions_doc ← Junctions_to_dict (junctions self);
  mret (DDict [("topology", topology_doc); ("junctions", junctions_doc)]).

(** [data[key]] *)
Definition doc_item (data : doc) (key : string) : M doc :=
  match data with
  | DDict items =>
      match list_find (fun kv => kv.1 = key) items with
      | Some (_, (_, v)) => mret v
      | None => raise (KeyError key)
      end
  | _ => raise (TypeError "object is not subscriptable")
  end.

(** An argument of a call: a monomer, or a reference to another object. *)
Inductive arg :=
| ArgMonomer (m : Monomer.t)
| ArgObject (l : loc).

(** A call [cls(...)] with positional and keyword arguments: the arguments
    are bound to the parameters of
    [__init__(self, monomer)] as Python binds them, and a keyword that names
    no parameter is a TypeError. *)
Definition new (args : list arg) (kwargs : list (string * arg)) : M t :=
  match list_find (fun kv => kv.1 ≠ "monomer") kwargs with
  | Some (_, (k, _)) =>
      raise (TypeError ("Polymer.__init__() got an unexpected keyword argument '"
                        +:+ k +:+ "'"))
  | None =>
      match args, kwargs with
      | [ArgMonomer m], [] => __init__ m
      | [], [(_, ArgMonomer m)] => __init__ m
      | [ArgObject _], [] | [], [(_, ArgObject _)] =>
          raise (AttributeError "object has no attribute 'copy'")
      | [], [] =>
          raise (TypeError
            "Polymer.__init__() missing 1 required positional argument: 'monomer'")
      | [], _ :: _ :: _ | [_], _ :: _ =>
          raise (TypeError
            "Polymer.__init__() got multiple values for argument 'monomer'")
      | _ :: _ :: _, _ =>
          raise (TypeError
            "Polymer.__init__() takes 2 positional arguments but more were given")
      end
  end.

(** [def from_dict(cls, data)] *)
Definition from_dict (data : doc) : M t :=
  topology_doc ← doc_item data "topology";
  new_topology ← Topology_from_dict topology_doc;
  junctions_doc ← doc_item data "junctions";
  new_topology_obj ← read (load_topology new_topology);
  new_junctions ← Junctions_from_dict junctions_doc
                                      (Topology.atoms new_topology_obj);
  new [] [("topology", ArgObject new_topology);
          ("junctions", ArgObject new_junctions)].

End structured_form.

End defs.
End Polymer.

(** * Verification *)

(** ** Running computations *)

Section monad_facts.
Context `{PyFloat}.

Lemma bind_unfold {A B} (m : M A) (k : A → M B) h :
  (m ≫= k) h = match m h with
               | (Ok a, h') => k a h'
               | (Raise e, h') => (Raise e, h')
               end.
Proof. reflexivity. Qed.

Lemma bind_Ok {A B} (m : M A) (k : A → M B) h b h' :
  (m ≫= k) h = (Ok b, h') →
  ∃ a h1, m h = (Ok a, h1) ∧ k a h1 = (Ok b, h').
Proof.
  rewrite bind_unfold. destruct (m h) as [[a|e] h1]; [eauto | discriminate].
Qed.

Lemma bind_run {A B} (m : M A) (k : A → M B) h a h1 :
  m h = (Ok a, h1) → (m ≫= k) h = k a h1.
Proof. intros E. rewrite bind_unfold, E. reflexivity. Qed.

Lemma bind_fail {A B} (m : M A) (k : A → M B) h e h1 :
  m h = (Raise e, h1) → (m ≫= k) h = (Raise e, h1).
Proof. intros E. rewrite bind_unfold, E. reflexivity. Qed.

Lemma read_unfold {A} (r : R A) h : read r h = (r h, h).
Proof. reflexivity. Qed.

Lemma read_Ok {A} (r : R A) h a h' :
  read r h = (Ok a, h') → r h = Ok a ∧ h' = h.
Proof. unfold read. intros [= -> ->]. done. Qed.

Lemma rbind_unfold {A B} (m : R A) (k : A → R B) h :
  (m ≫= k) h = match m h with
               | Ok a => k a h
               | Raise e => Raise e
               end.
Proof. reflexivity. Qed.

Lemma rbind_Ok {A B} (m : R A) (k : A → R B) h b :
  (m ≫= k) h = Ok b → ∃ a, m h = Ok a ∧ k a h = Ok b.
Proof.
  rewrite rbind_unfold. destruct (m h) as [a|e]; [eauto | discriminate].
Qed.

Lemma rbind_run {A B} (m : R A) (k : A → R B) h a :
  m h = Ok a → (m ≫= k) h = k a h.
Proof. intros E. rewrite rbind_unfold, E. reflexivity. Qed.

Lemma rret_unfold {A} (a : A) h : (mret a : R A) h = Ok a.
Proof. reflexivity. Qed.

Lemma ret_unfold {A} (a : A) h : (mret a : M A) h = (Ok a, h).
Proof. reflexivity. Qed.

(** Two stores on which a reader sees the same objects give the same
    result: the congruence principle for the loops over readers. *)
Lemma rmap_ext {A B} (f : A → R B) l h h' :
  (∀ x, x ∈ l → f x h = f x h') → rmap f l h = rmap f l h'.
Proof.
  induction l as [|x l IH]; intros Hf; [reflexivity|].
  cbn [rmap]. rewrite !rbind_unfold, (Hf x) by left.
  destruct (f x h') as [y|e]; [|reflexivity].
  rewrite !rbind_unfold, IH by (intros; apply Hf; by right).
  reflexivity.
Qed.

Lemma rfilter_ext {A} (p : A → R bool) l h h' :
  (∀ x, x ∈ l → p x h = p x h') → rfilter p l h = rfilter p l h'.
Proof.
  induction l as [|x l IH]; intros Hf; [reflexivity|].
  cbn [rfilter]. rewrite !rbind_unfold, (Hf x) by left.
  destruct (p x h') as [y|e]; [|reflexivity].
  rewrite !rbind_unfold, IH by (intros; apply Hf; by right).
  reflexivity.
Qed.

Lemma rmap_Ok {A B} (f : A → R B) l h ys :
  rmap f l h = Ok ys ↔ Forall2 (fun x y => f x h = Ok y) l ys.
Proof.
  revert ys. induction l as [|x l IH]; intros ys; cbn [rmap].
  - rewrite rret_unfold. split.
    + intros [= <-]. constructor.
    + intros Hys. inversion Hys. reflexivity.
  - rewrite rbind_unfold. split.
    + destruct (f x h) as [y|e] eqn:E; [|discriminate].
      rewrite rbind_unfold.
      destruct (rmap f l h) as [ys'|e] eqn:E'; [|discriminate].
      rewrite rret_unfold. intros [= <-]. constructor; [done|]. by apply IH.
    + intros Hys. inversion Hys as [|? y ? ys' Hy Hys']; subst.
      rewrite Hy, rbind_unfold. apply IH in Hys'. rewrite Hys'. reflexivity.
Qed.

Lemma rmap_length {A B} (f : A → R B) l h ys :
  rmap f l h = Ok ys → length ys = length l.
Proof. intros E%rmap_Ok. symmetry. by eapply Forall2_length. Qed.

Lemma rfilter_Ok_elem {A} (p : A → R bool) l h ys x :
  rfilter p l h = Ok ys → x ∈ ys ↔ x ∈ l ∧ p x h = Ok true.
Proof.
  revert ys. induction l as [|y l IH]; intros ys; cbn [rfilter].
  - rewrite rret_unfold. intros [= <-]. split; [by intros ?%elem_of_nil|].
    by intros [?%elem_of_nil _].
  - rewrite rbind_unfold. destruct (p y h) as [b|e] eqn:E; [|discriminate].
    rewrite rbind_unfold.
    destruct (rfilter p l h) as [ys'|e] eqn:E'; [|discriminate].
    rewrite rret_unfold. intros [= <-]. specialize (IH ys' eq_refl).
    destruct b.
    + rewrite !elem_of_cons, IH. split.
      * intros [->|[? ?]]; eauto.
      * intros [[->|?] ?]; eauto.
    + rewrite elem_of_cons, IH. split.
      * intros [? ?]; eauto.
      * intros [[->|?] ?]; [congruence | eauto].
Qed.

Lemma rfilter_Ok_all {A} (p : A → R bool) l h ys x :
  rfilter p l h = Ok ys → x ∈ l → ∃ b, p x h = Ok b.
Proof.
  revert ys. induction l as [|y l IH]; intros ys; cbn [rfilter].
  - intros _ Hx. inversion Hx.
  - rewrite rbind_unfold. destruct (p y h) as [b|e] eqn:E; [|discriminate].
    rewrite rbind_unfold.
    destruct (rfilter p l h) as [ys'|e] eqn:E'; [|discriminate].
    intros _ [->|Hx]%elem_of_cons; eauto.
Qed.

Lemma rfilter_sublist {A} (p : A → R bool) l h ys :
  rfilter p l h = Ok ys → sublist ys l.
Proof.
  revert ys. induction l as [|y l IH]; intros ys; cbn [rfilter].
  - rewrite rret_unfold. by intros [= <-].
  - rewrite rbind_unfold. destruct (p y h) as [b|e] eqn:E; [|discriminate].
    rewrite rbind_unfold.
    destruct (rfilter p l h) as [ys'|e] eqn:E'; [|discriminate].
    rewrite rret_unfold. intros [= <-]. specialize (IH ys' eq_refl).
    destruct b; by constructor.
Qed.

End monad_facts.

(** ** The search *)

Section search.
Context `{PyFloat}.
Variable h : heap.

(** The bond graph of a store: [b] is a neighbour of [a]. *)
Definition edge (a b : loc) : Prop :=
  ∃ ns, bond_neighbours a h = Ok ns ∧ b ∈ ns.

(** Atoms that a search may not enter: those already visited and the
    barrier. *)
Definition blocked (visited : gset loc) (exclude : option loc) (y : loc) : Prop :=
  y ∈ visited ∨ Some y = exclude.

(** [reach avoid a c]: a path of bonds leads from [a] to [c], and no atom on
    it, ends included, is to be avoided. *)
Inductive reach (avoid : loc → Prop) : loc → loc → Prop :=
| reach_here a : ¬ avoid a → reach avoid a a
| reach_step a b c : ¬ avoid a → edge a b → reach avoid b c → reach avoid a c.

(** A set of atoms that the neighbour query does not lead out of. *)
Definition closed_at (U : gset loc) (a : loc) : Prop :=
  match bond_neighbours a h with
  | Ok ns => Forall (fun n => n ∈ U) ns
  | Raise _ => False
  end.

Definition closed (U : gset loc) : Prop := set_Forall (closed_at U) U.

#[export] Instance closed_at_dec U a : Decision (closed_at U a).
Proof. unfold closed_at. destruct (bond_neighbours a h); apply _. Defined.

#[export] Instance closed_dec U : Decision (closed U).
Proof. unfold closed. apply _. Defined.

Lemma closed_neighbours U a :
  closed U → a ∈ U → ∃ ns, bond_neighbours a h = Ok ns ∧ ∀ n, n ∈ ns → n ∈ U.
Proof.
  intros HU Ha. specialize (HU a Ha). unfold closed_at in HU.
  destruct (bond_neighbours a h) as [ns|]; [|done].
  exists ns. split; [done|]. by apply Forall_forall.
Qed.

Lemma reach_start avoid a c : reach avoid a c → ¬ avoid a.
Proof. by destruct 1. Qed.

Lemma reach_end avoid a c : reach avoid a c → ¬ avoid c.
Proof. induction 1; auto. Qed.

Lemma reach_mono (avoid avoid' : loc → Prop) a c :
  (∀ y, avoid' y → avoid y) → reach avoid a c → reach avoid' a c.
Proof.
  intros Hsub. induction 1 as [a Ha|a b c Ha Hab _ IH].
  - apply reach_here. auto.
  - eapply reach_step; eauto.
Qed.

Lemma reach_snoc avoid a b c :
  reach avoid a b → edge b c → ¬ avoid c → reach avoid a c.
Proof.
  intros Hab Hbc Hc. induction Hab as [a Ha|a b' b Ha Hab' _ IH].
  - eapply reach_step; eauto. by apply reach_here.
  - eapply reach_step; eauto.
Qed.

Lemma reach_in_closed avoid U a c :
  closed U → a ∈ U → reach avoid a c → c ∈ U.
Proof.
  intros HU Ha Hr. induction Hr as [|a b c _ [ns [Hns Hb]] _ IH]; [done|].
  apply IH. destruct (closed_neighbours U a HU Ha) as [ns' [Hns' Hin]].
  rewrite Hns in Hns'. injection Hns' as ->. auto.
Qed.

(** A path from [a] either stops at [a] or leaves [a] for the last time by
    some bond, and from there on avoids [a] too. *)
Lemma reach_last_visit avoid x c a :
  reach avoid x c →
  reach (fun y => avoid y ∨ y = a) x c ∨ c = a ∨
  ∃ n, edge a n ∧ reach (fun y => avoid y ∨ y = a) n c.
Proof.
  induction 1 as [x Hx|x b c Hx Hxb _ IH].
  - destruct (decide (x = a)) as [->|Hne]; [by right; left|].
    left. apply reach_here. tauto.
  - destruct IH as [IH|[IH|IH]]; [|by right; left|by right; right].
    destruct (decide (x = a)) as [->|Hne].
    + right; right. eauto.
    + left. eapply reach_step; eauto. tauto.
Qed.

(** [W] is saturated over [V0] when the search has finished with every atom
    of [W] outside [V0]: all their neighbours that could be entered are in. *)
Definition saturated (V0 : gset loc) (ex : option loc) (W : gset loc) : Prop :=
  ∀ y z, y ∈ W → y ∉ V0 → edge y z → ¬ blocked V0 ex z → z ∈ W.

Lemma saturated_absorbs V0 ex W x c :
  V0 ⊆ W → saturated V0 ex W →
  reach (blocked V0 ex) x c → x ∈ W → c ∈ W.
Proof.
  intros Hsub Hsat Hr. induction Hr as [|x b c Hx Hxb Hbc IH]; [done|].
  intros HxW. apply IH. eapply Hsat; eauto.
  - intros Hx0. apply Hx. by left.
  - by eapply reach_start.
Qed.

Lemma saturated_reach V0 ex W x c :
  V0 ⊆ W → saturated V0 ex W →
  reach (blocked V0 ex) x c → reach (blocked W ex) x c ∨ c ∈ W.
Proof.
  intros Hsub Hsat Hr.
  destruct (decide (x ∈ W)) as [HxW|HxW].
  { right. eapply saturated_absorbs; eauto. }
  induction Hr as [x Hx|x b c Hx Hxb Hbc IH].
  - left. apply reach_here. intros [?|?]; [done|]. apply Hx. by right.
  - destruct (decide (b ∈ W)) as [HbW|HbW].
    { right. eapply saturated_absorbs; eauto. }
    destruct (IH HbW) as [IH'|IH']; [|by right].
    left. eapply reach_step; eauto.
    intros [?|?]; [done|]. apply Hx. by right.
Qed.

Lemma saturated_extend V0 ex W W' n :
  V0 ⊆ W → saturated V0 ex W →
  (∀ x, x ∈ W' ↔ x ∈ W ∨ reach (blocked V0 ex) n x) →
  saturated V0 ex W'.
Proof.
  intros Hsub Hsat HW' y z Hy Hy0 Hyz Hz. apply HW'.
  apply HW' in Hy as [Hy|Hy].
  - left. eapply Hsat; eauto.
  - right. eapply reach_snoc; eauto.
Qed.

Definition DFS_step (depth : nat) (exclude : option loc)
    (visited : gset loc) (neighbor : loc) : R (gset loc) :=
  if decide (Some neighbor ≠ exclude ∧ neighbor ∉ visited)
  then Polymer.DFS depth neighbor visited exclude
  else mret visited.

Lemma DFS_unfold depth atom visited exclude :
  Polymer.DFS (S depth) atom visited exclude h =
  match bond_neighbours atom h with
  | Ok ns => rfold (DFS_step depth exclude) (visited ∪ {[atom]}) ns h
  | Raise e => Raise e
  end.
Proof. reflexivity. Qed.

Section one_level.
Variables (U V0 : gset loc) (ex : option loc) (depth : nat).
Hypothesis IH : ∀ n W,
  n ∈ U → n ∉ W → Some n ≠ ex → (size (U ∖ W) ≤ depth)%nat →
  ∃ W', Polymer.DFS depth n W ex h = Ok W' ∧
        ∀ x, x ∈ W' ↔ x ∈ W ∨ reach (blocked W ex) n x.

(** The loop over the neighbours: searching them one after the other, each
    with what the earlier ones found already marked, finds what searching
    each of them on its own would find. *)
Lemma DFS_loop ns W :
  (∀ n, n ∈ ns → n ∈ U) → V0 ⊆ W → saturated V0 ex W →
  (size (U ∖ W) ≤ depth)%nat →
  ∃ W', rfold (DFS_step depth ex) W ns h = Ok W' ∧
        (∀ x, x ∈ W' ↔ x ∈ W ∨ ∃ n, n ∈ ns ∧ reach (blocked V0 ex) n x) ∧
        saturated V0 ex W'.
Proof.
  revert W. induction ns as [|n ns IHns]; intros W Hns Hsub Hsat Hsize.
  - exists W. split; [reflexivity|]. split; [|done].
    intros x. split; [auto|]. intros [?|[n [Hn _]]]; [done|].
    by apply elem_of_nil in Hn.
  - cbn [rfold]. rewrite rbind_unfold. unfold DFS_step at 1.
    destruct (decide (Some n ≠ ex ∧ n ∉ W)) as [[Hne HnW]|Hskip].
    + destruct (IH n W) as [W1 [E1 HW1]]; auto.
      { apply Hns. by left. }
      rewrite E1.
      assert (HW1' : ∀ x, x ∈ W1 ↔ x ∈ W ∨ reach (blocked V0 ex) n x).
      { intros x. rewrite HW1. split.
        - intros [?|Hr]; [by left|]. right.
          eapply reach_mono; [|exact Hr]. intros y [?|?]; [left|right]; auto.
        - intros [?|Hr]; [by left|].
          destruct (saturated_reach V0 ex W n x Hsub Hsat Hr); auto. }
      assert (Hsub1 : W ⊆ W1) by (intros x Hx; apply HW1'; by left).
      destruct (IHns W1) as [W' [E' [HW' Hsat']]].
      * intros; apply Hns; by right.
      * set_solver.
      * eapply saturated_extend; eauto.
      * etrans; [|exact Hsize]. apply subseteq_size. set_solver.
      * exists W'. split; [done|]. split; [|done].
        intros x. rewrite HW', HW1'. split.
        -- intros [[?|?]|[n' [? ?]]]; [by left| |].
           ++ right. exists n. split; [by left|done].
           ++ right. exists n'. split; [by right|done].
        -- intros [?|[n' [[Heq|Hn']%elem_of_cons Hr]]]; [by left; left| |].
           ++ subst n'. by left; right.
           ++ right. eauto.
    + rewrite rret_unfold.
      destruct (IHns W) as [W' [E' [HW' Hsat']]]; auto.
      { intros; apply Hns; by right. }
      exists W'. split; [done|]. split; [|done].
      intros x. rewrite HW'. split.
      * intros [?|[n' [? ?]]]; [by left|]. right. exists n'. split; [by right|done].
      * intros [?|[n' [[Heq|Hn']%elem_of_cons Hr]]]; [by left| |by right; eauto].
        subst n'. destruct (decide (n ∈ W)) as [HnW|HnW].
        -- left. eapply saturated_absorbs; eauto.
        -- exfalso. apply (reach_start _ _ _ Hr). right.
           destruct (decide (Some n = ex)); [done|]. exfalso. by apply Hskip.
Qed.

End one_level.

(** The search from [atom] adds to [visited] exactly the atoms that a path
    from [atom] reaches without entering a visited atom or the barrier, and
    it needs no more nested calls than there are unvisited atoms. *)
Lemma DFS_spec U depth atom visited exclude :
  closed U → atom ∈ U → atom ∉ visited → Some atom ≠ exclude →
  (size (U ∖ visited) ≤ depth)%nat →
  ∃ found, Polymer.DFS depth atom visited exclude h = Ok found ∧
           ∀ x, x ∈ found ↔ x ∈ visited ∨ reach (blocked visited exclude) atom x.
Proof.
  intros HU. revert atom visited.
  induction depth as [|depth IHd]; intros a V Ha HaV Hne Hsize.
  { exfalso. assert (a ∈ U ∖ V) as Hin by set_solver.
    assert (U ∖ V ≡ ∅) as Hempty by (apply size_empty_iff; lia).
    rewrite Hempty in Hin. by apply not_elem_of_empty in Hin. }
  rewrite DFS_unfold. destruct (closed_neighbours U a HU Ha) as [ns [Hns HnsU]].
  rewrite Hns.
  destruct (DFS_loop U (V ∪ {[a]}) exclude depth) with (ns := ns) (W := V ∪ {[a]})
    as [W' [E' [HW' _]]]; auto.
  - intros y z Hy Hy0. done.
  - assert (size (U ∖ V) = S (size (U ∖ (V ∪ {[a]})))) as Hs; [|lia].
    assert (U ∖ V ≡ {[a]} ∪ U ∖ (V ∪ {[a]})) as ->.
    { intros x. destruct (decide (x = a)) as [->|?]; set_solver. }
    rewrite size_union by set_solver. by rewrite size_singleton.
  - exists W'. split; [done|]. intros x. rewrite HW'. split.
    + intros [[?|Hx%elem_of_singleton]%elem_of_union|[n [Hn Hr]]].
      * by left.
      * subst x. right. apply reach_here. intros [?|?]; done.
      * right. eapply reach_step.
        -- intros [?|?]; done.
        -- exists ns. eauto.
        -- eapply reach_mono; [|exact Hr]. intros y [?|?]; [left|right]; set_solver.
    + intros [?|Hr]; [left; set_solver|].
      destruct (reach_last_visit _ _ _ a Hr) as [Hr'|[->|[n [[ns' [Hns' Hn]] Hr']]]].
      * exfalso. apply (reach_start _ _ _ Hr'). by right.
      * left. set_solver.
      * right. exists n. rewrite Hns in Hns'. injection Hns' as <-.
        split; [done|]. eapply reach_mono; [|exact Hr'].
        intros y [[?|Hy%elem_of_singleton]%elem_of_union|?].
        -- by left; left.
        -- by right.
        -- by left; right.
Qed.

End search.

(** ** Which objects a computation leaves alone *)

Section frames.
Context `{PyFloat}.

(** A region of the store: for each class, the addresses it covers. *)
Record region := Region {
  in_atom : loc → Prop;
  in_bond : loc → Prop;
  in_topology : loc → Prop;
  in_junction : loc → Prop;
  in_junctions : loc → Prop
}.

(** [keeps P h h']: every address of the region holds in [h'] what it holds
    in [h]. *)
Definition keeps (P : region) (h h' : heap) : Prop :=
  (∀ l, in_atom P l → atom_objs h' !! l = atom_objs h !! l) ∧
  (∀ l, in_bond P l → bond_objs h' !! l = bond_objs h !! l) ∧
  (∀ l, in_topology P l → topology_objs h' !! l = topology_objs h !! l) ∧
  (∀ l, in_junction P l → junction_objs h' !! l = junction_objs h !! l) ∧
  (∀ l, in_junctions P l → junctions_objs h' !! l = junctions_objs h !! l).

(** The region covers only objects that exist in [h]. *)
Definition within (P : region) (h : heap) : Prop :=
  (∀ l, in_atom P l → is_Some (atom_objs h !! l)) ∧
  (∀ l, in_bond P l → is_Some (bond_objs h !! l)) ∧
  (∀ l, in_topology P l → is_Some (topology_objs h !! l)) ∧
  (∀ l, in_junction P l → is_Some (junction_objs h !! l)) ∧
  (∀ l, in_junctions P l → is_Some (junctions_objs h !! l)).

(** All the objects of a store. *)
Definition all_of (h : heap) : region :=
  Region (fun l => is_Some (atom_objs h !! l))
         (fun l => is_Some (bond_objs h !! l))
         (fun l => is_Some (topology_objs h !! l))
         (fun l => is_Some (junction_objs h !! l))
         (fun l => is_Some (junctions_objs h !! l)).

Definition subregion (P Q : region) : Prop :=
  (∀ l, in_atom P l → in_atom Q l) ∧
  (∀ l, in_bond P l → in_bond Q l) ∧
  (∀ l, in_topology P l → in_topology Q l) ∧
  (∀ l, in_junction P l → in_junction Q l) ∧
  (∀ l, in_junctions P l → in_junctions Q l).

Lemma keeps_refl P h : keeps P h h.
Proof. by repeat split. Qed.

Lemma keeps_trans P h1 h2 h3 : keeps P h1 h2 → keeps P h2 h3 → keeps P h1 h3.
Proof.
  intros (A1 & B1 & C1 & D1 & E1) (A2 & B2 & C2 & D2 & E2).
  repeat split; intros l Hl.
  - by rewrite A2, A1.
  - by rewrite B2, B1.
  - by rewrite C2, C1.
  - by rewrite D2, D1.
  - by rewrite E2, E1.
Qed.

Lemma keeps_mono P Q h h' : subregion P Q → keeps Q h h' → keeps P h h'.
Proof.
  intros (A1 & B1 & C1 & D1 & E1) (A2 & B2 & C2 & D2 & E2).
  repeat split; auto.
Qed.

Lemma within_all_of h : within (all_of h) h.
Proof. by repeat split. Qed.

Lemma within_mono P Q h : subregion P Q → within Q h → within P h.
Proof.
  intros (A1 & B1 & C1 & D1 & E1) (A2 & B2 & C2 & D2 & E2).
  repeat split; auto.
Qed.

(** [preserves P h0 m h]: run from [h], a store that still holds the region
    as [h0] did, [m] ends, whatever its result, in such a store. *)
Definition preserves (P : region) (h0 : heap) {A} (m : M A) (h : heap) : Prop :=
  ∀ r h', m h = (r, h') → keeps P h0 h → keeps P h0 h'.

Lemma preserves_ret P h0 {A} (a : A) h : preserves P h0 (mret a) h.
Proof. intros r h' [= <- <-]. done. Qed.

Lemma preserves_raise P h0 {A} e h : preserves P h0 (raise e : M A) h.
Proof. intros r h' [= <- <-]. done. Qed.

Lemma preserves_read P h0 {A} (r : R A) h : preserves P h0 (read r) h.
Proof. intros r' h' [= <- <-]. done. Qed.

Lemma preserves_bind P h0 {A B} (m : M A) (k : A → M B) h :
  preserves P h0 m h →
  (∀ a h1, m h = (Ok a, h1) → keeps P h0 h1 → preserves P h0 (k a) h1) →
  preserves P h0 (m ≫= k) h.
Proof.
  intros Hm Hk r h'. rewrite bind_unfold.
  destruct (m h) as [[a|e] h1] eqn:E.
  - intros Ek K. eapply Hk; eauto.
  - intros [= <- <-] K. eauto.
Qed.

Lemma preserves_read_bind P h0 {A B} (r : R A) (k : A → M B) h :
  (∀ a, r h = Ok a → preserves P h0 (k a) h) →
  preserves P h0 (read r ≫= k) h.
Proof.
  intros Hk. apply preserves_bind; [apply preserves_read|].
  intros a h1 [E ->]%read_Ok _. auto.
Qed.

Lemma preserves_store_atom P h0 l a h :
  ¬ in_atom P l → preserves P h0 (store_atom l a) h.
Proof.
  intros Hl r h' [= <- <-] (A1 & B1 & C1 & D1 & E1). repeat split; auto.
  intros l' Hl'. cbn. rewrite lookup_insert_ne by congruence. auto.
Qed.

Lemma preserves_store_topology P h0 l t h :
  ¬ in_topology P l → preserves P h0 (store_topology l t) h.
Proof.
  intros Hl r h' [= <- <-] (A1 & B1 & C1 & D1 & E1). repeat split; auto.
  intros l' Hl'. cbn. rewrite lookup_insert_ne by congruence. auto.
Qed.

Lemma preserves_store_junctions P h0 l js h :
  ¬ in_junctions P l → preserves P h0 (store_junctions l js) h.
Proof.
  intros Hl r h' [= <- <-] (A1 & B1 & C1 & D1 & E1). repeat split; auto.
  intros l' Hl'. cbn. rewrite lookup_insert_ne by congruence. auto.
Qed.

(** A new object never lands on an address of a region of older objects. *)
Lemma preserves_alloc_bond P h0 b h :
  within P h0 → preserves P h0 (alloc_bond b) h.
Proof.
  intros (_ & W & _) r h' [= <- <-] (A1 & B1 & C1 & D1 & E1). repeat split; auto.
  intros l' Hl'. cbn. rewrite lookup_insert_ne; [auto|].
  intros <-. specialize (B1 _ Hl'). destruct (W _ Hl') as [x Hx].
  rewrite Hx in B1. apply (is_fresh (dom (bond_objs h))).
  apply elem_of_dom. eauto.
Qed.

Lemma preserves_alloc_junction P h0 j h :
  within P h0 → preserves P h0 (alloc_junction j) h.
Proof.
  intros (_ & _ & _ & W & _) r h' [= <- <-] (A1 & B1 & C1 & D1 & E1).
  repeat split; auto.
  intros l' Hl'. cbn. rewrite lookup_insert_ne; [auto|].
  intros <-. specialize (D1 _ Hl'). destruct (W _ Hl') as [x Hx].
  rewrite Hx in D1. apply (is_fresh (dom (junction_objs h))).
  apply elem_of_dom. eauto.
Qed.

Lemma preserves_for P h0 {A} (I : heap → Prop) (l : list A) (body : A → M unit) h :
  (∀ x h1, x ∈ l → I h1 →
     preserves P h0 (body x) h1 ∧ ∀ h2, body x h1 = (Ok tt, h2) → I h2) →
  I h → preserves P h0 (for_ l body) h.
Proof.
  revert h. induction l as [|x l IH]; intros h Hbody HI.
  - apply preserves_ret.
  - cbn [for_]. destruct (Hbody x h) as [Hp Hnext]; [by left|done|].
    apply preserves_bind; [done|].
    intros [] h1 E _. apply IH; [|by apply Hnext].
    intros y h2 Hy. apply Hbody. by right.
Qed.

End frames.

(** ** Deep copies are new objects *)

Section copy_facts.
Context `{PyFloat}.

Lemma top_ge {V} (m : gmap loc V) l :
  is_Some (m !! l) → (l ≤ top m)%positive.
Proof.
  intros Hl. apply elem_of_dom, elem_of_elements in Hl. unfold top.
  induction (elements (dom m)) as [|x xs IH]; [by apply elem_of_nil in Hl|].
  cbn [foldr]. apply elem_of_cons in Hl as [->|Hl]; [lia|].
  specialize (IH Hl). lia.
Qed.

Lemma moved_fresh {V} (m : gmap loc V) l : m !! moved (top m) l = None.
Proof.
  destruct (m !! moved (top m) l) eqn:E; [|done].
  assert (moved (top m) l ≤ top m)%positive by (apply top_ge; eauto).
  unfold moved in *. lia.
Qed.

Lemma moved_fresh_above {V} (m : gmap loc V) off l :
  (top m ≤ off)%positive → m !! moved off l = None.
Proof.
  intros Hoff. destruct (m !! moved off l) eqn:E; [|done].
  assert (moved off l ≤ top m)%positive by (apply top_ge; eauto).
  unfold moved in *. lia.
Qed.

#[export] Instance moved_inj off : Inj (=) (=) (moved off).
Proof. intros x y. unfold moved. lia. Qed.

Lemma clone_lookup_other {V} (cp : V → V) off ls (m : gmap loc V) l :
  (∀ x, x ∈ ls → moved off x ≠ l) →
  clone_objs cp off ls m !! l = m !! l.
Proof.
  unfold clone_objs. induction ls as [|x ls IH]; intros Hl; [done|].
  cbn [foldr]. destruct (m !! x) as [v|].
  - rewrite lookup_insert_ne by (apply Hl; by left).
    apply IH. intros; apply Hl; by right.
  - apply IH. intros; apply Hl; by right.
Qed.

Lemma clone_lookup_old {V} (cp : V → V) off ls (m : gmap loc V) l :
  (top m ≤ off)%positive → is_Some (m !! l) →
  clone_objs cp off ls m !! l = m !! l.
Proof.
  intros Hoff Hl. apply clone_lookup_other. intros x _ <-.
  rewrite moved_fresh_above in Hl by done. by destruct Hl.
Qed.

Lemma clone_lookup_new {V} (cp : V → V) off ls (m : gmap loc V) l v :
  l ∈ ls → m !! l = Some v →
  clone_objs cp off ls m !! moved off l = Some (cp v).
Proof.
  unfold clone_objs. induction ls as [|x ls IH]; intros Hl Hv.
  { by apply elem_of_nil in Hl. }
  cbn [foldr]. destruct (decide (x = l)) as [->|Hne].
  - rewrite Hv. by rewrite lookup_insert_eq.
  - apply elem_of_cons in Hl as [->|Hl]; [done|].
    destruct (m !! x).
    + rewrite lookup_insert_ne by (intros ?%(inj _); done). by apply IH.
    + by apply IH.
Qed.

Lemma clone_lookup_inv {V} (cp : V → V) off ls (m : gmap loc V) l' v' :
  clone_objs cp off ls m !! l' = Some v' →
  m !! l' = Some v' ∨
  ∃ l v, l ∈ ls ∧ l' = moved off l ∧ m !! l = Some v ∧ v' = cp v.
Proof.
  unfold clone_objs. induction ls as [|x ls IH]; [by left|].
  cbn [foldr]. destruct (m !! x) as [v|] eqn:E.
  - destruct (decide (moved off x = l')) as [<-|Hne].
    + rewrite lookup_insert_eq. intros [= <-]. right. exists x, v.
      repeat split; [by left|done].
    + rewrite lookup_insert_ne by done. intros [?|(l & v0 & ? & ? & ? & ?)]%IH.
      * by left.
      * right. exists l, v0. repeat split; [by right|done..].
  - intros [?|(l & v0 & ? & ? & ? & ?)]%IH.
    + by left.
    + right. exists l, v0. repeat split; [by right|done..].
Qed.

Lemma clone_keeps {V} (cp : V → V) off ls (m : gmap loc V) :
  (top m ≤ off)%positive → m ⊆ clone_objs cp off ls m.
Proof.
  intros Hoff. apply map_subseteq_spec. intros l v Hl.
  rewrite clone_lookup_old; eauto.
Qed.

End copy_facts.

(** ** What each operation writes *)

Section op_frames.
Context `{PyFloat}.
Variables (P : region) (h0 : heap).

Ltac frame_step :=
  first
    [ apply preserves_read_bind; intros ? ?
    | apply preserves_ret
    | apply preserves_raise
    | apply preserves_read ].

Lemma preserves_junctions_add js j h :
  ¬ in_junctions P js → preserves P h0 (junctions_add js j) h.
Proof.
  intros Hjs. unfold junctions_add. frame_step.
  by apply preserves_store_junctions.
Qed.

Lemma preserves_junctions_remove js j h :
  ¬ in_junctions P js → preserves P h0 (junctions_remove js j) h.
Proof.
  intros Hjs. unfold junctions_remove. frame_step.
  case_decide; [by apply preserves_store_junctions | apply preserves_raise].
Qed.

Lemma preserves_new_Junction name location h :
  within P h0 → preserves P h0 (new_Junction name location) h.
Proof. apply preserves_alloc_junction. Qed.

Lemma preserves_new_Bond a b ty len fc h :
  within P h0 → ¬ in_atom P a → ¬ in_atom P b →
  preserves P h0 (new_Bond a b ty len fc) h.
Proof.
  intros HW Ha Hb. unfold new_Bond.
  apply preserves_bind; [by apply preserves_alloc_bond|]. intros l h1 _ _.
  frame_step. apply preserves_bind; [by apply preserves_store_atom|].
  intros [] h2 _ _. frame_step.
  apply preserves_bind; [by apply preserves_store_atom|].
  intros [] h3 _ _. frame_step.
Qed.

Lemma preserves_renumber_from start atoms h :
  (∀ a, a ∈ atoms → ¬ in_atom P a) →
  preserves P h0 (renumber_from start atoms) h.
Proof.
  revert start h. induction atoms as [|a atoms IH]; intros start h Hat.
  - apply preserves_ret.
  - cbn [renumber_from]. frame_step.
    apply preserves_bind; [apply preserves_store_atom, Hat; by left|].
    intros [] h1 _ _. apply IH. intros; apply Hat; by right.
Qed.

Lemma preserves_renumber_atoms t start h :
  (∀ T a, topology_objs h !! t = Some T → a ∈ Topology.atoms T → ¬ in_atom P a) →
  preserves P h0 (renumber_atoms t start) h.
Proof.
  intros Hat. unfold renumber_atoms. apply preserves_read_bind. intros T HT.
  apply preserves_renumber_from. intros a Ha. apply (Hat T); [|done].
  unfold load_topology in HT. by destruct (topology_objs h !! t) as [T'|]; simplify_eq.
Qed.

Lemma preserves_renumber_indexes_from gap d atoms h :
  (∀ a, a ∈ atoms → ¬ in_atom P a) →
  preserves P h0 (renumber_indexes_from gap d atoms) h.
Proof.
  revert d h. induction atoms as [|a atoms IH]; intros d h Hat.
  - apply preserves_ret.
  - cbn [renumber_indexes_from]. frame_step.
    destruct (dict_get _ d).
    + apply preserves_bind; [apply preserves_store_atom, Hat; by left|].
      intros [] h1 _ _. apply IH. intros; apply Hat; by right.
    + apply IH. intros; apply Hat; by right.
Qed.

Lemma preserves_renumber_atom_indexes gap t d h :
  (∀ T a, topology_objs h !! t = Some T → a ∈ Topology.atoms T → ¬ in_atom P a) →
  preserves P h0 (renumber_atom_indexes gap t d) h.
Proof.
  intros Hat. unfold renumber_atom_indexes. apply preserves_read_bind. intros T HT.
  apply preserves_renumber_indexes_from. intros a Ha. apply (Hat T); [|done].
  unfold load_topology in HT. by destruct (topology_objs h !! t) as [T'|]; simplify_eq.
Qed.

Lemma preserves_topology_add t other h :
  ¬ in_topology P t → preserves P h0 (topology_add t other) h.
Proof.
  intros Ht. unfold topology_add. do 2 frame_step.
  by apply preserves_store_topology.
Qed.

Lemma preserves_bonds_append t b h :
  ¬ in_topology P t → preserves P h0 (bonds_append t b) h.
Proof.
  intros Ht. unfold bonds_append. frame_step. by apply preserves_store_topology.
Qed.

Lemma preserves_remove_bond t b h :
  ¬ in_topology P t →
  (∀ B, bond_objs h !! b = Some B →
        ¬ in_atom P (Bond.atom_a B) ∧ ¬ in_atom P (Bond.atom_b B)) →
  preserves P h0 (remove_bond t b) h.
Proof.
  intros Ht Hb. unfold remove_bond. apply preserves_read_bind. intros B HB.
  assert (bond_objs h !! b = Some B) as HB'.
  { unfold load_bond in HB. by destruct (bond_objs h !! b); simplify_eq. }
  destruct (Hb B HB') as [Ha1 Ha2]. frame_step.
  apply preserves_bind; [by apply preserves_store_atom|]. intros [] h1 _ _.
  frame_step. apply preserves_bind; [by apply preserves_store_atom|].
  intros [] h2 _ _. frame_step. by apply preserves_store_topology.
Qed.

Lemma preserves_proportional_charge_change t delta h :
  (∀ T a, topology_objs h !! t = Some T → a ∈ Topology.atoms T → ¬ in_atom P a) →
  preserves P h0 (proportional_charge_change t delta) h.
Proof.
  intros Hat. unfold proportional_charge_change.
  apply preserves_read_bind. intros T HT. frame_step.
  assert (topology_objs h !! t = Some T) as HT'.
  { unfold load_topology in HT. by destruct (topology_objs h !! t); simplify_eq. }
  destruct (fis_zero _); [apply preserves_raise|].
  apply (preserves_for P h0 (fun _ => True)); [|done].
  intros x h1 Hx _. split; [|done]. frame_step.
  apply preserves_store_atom. eauto.
Qed.

Lemma preserves_set_charge t target h :
  (∀ T a, topology_objs h !! t = Some T → a ∈ Topology.atoms T → ¬ in_atom P a) →
  preserves P h0 (set_charge t target) h.
Proof.
  intros Hat. unfold set_charge. frame_step.
  by apply preserves_proportional_charge_change.
Qed.

End op_frames.

(** ** The phases of extend *)

Section phases.
Context `{PyFloat}.

(** Prepare (4.2, step 1) and the search for the monomer's junction: all that
    extend does before it first tests for a missing junction. *)
Definition prepare (e : env) (self : Polymer.t) (monomer : Monomer.t)
    (to_junction_name : string) (keep_charge : bool)
    : M (option (float * float) * Monomer.t * list loc) :=
  charges ← (if keep_charge then
               monomer_charge ← read (charge (Monomer.topology monomer));
               polymer_charge ← read (charge (Polymer.topology self));
               mret (Some (monomer_charge, polymer_charge))
             else mret None);
  new_monomer ← monomer_copy monomer;
  ids ← read (atom_ids (Polymer.topology self));
  max_id ← py_max ids;
  renumber_atoms (Monomer.topology new_monomer) (max_id + 1);;
  atom_index_dict ← read (max_atom_index (Polymer.topology self));
  for_ (atom_index_dict.*1) (fun atom_type =>
    v ← dict_item atom_index_dict atom_type;
    renumber_atom_indexes (index_gap e) (Monomer.topology new_monomer)
                          [(atom_type, v + 1)]);;
  mjs ← read (load_junctions (Monomer.junctions new_monomer));
  to_named ← read (named to_junction_name mjs);
  mret (charges, new_monomer, to_named).

(** From the monomer's junction to the candidates on the polymer: what
    extend does between its two tests for a missing junction. *)
Definition select (e : env) (self : Polymer.t) (new_monomer : Monomer.t)
    (to_junction : loc) (from_junction_name : string)
    : M (gset loc * list loc) :=
  junctions_remove (Monomer.junctions new_monomer) to_junction;;
  to_bond ← read (junction_location to_junction);
  discard_from_monomer ←
    read (Polymer.DFS (recursion_limit e) (Bond.atom_a to_bond) ∅
                      (Some (Bond.atom_b to_bond)));
  pjs ← read (load_junctions (Polymer.junctions self));
  from_named ← read (named from_junction_name pjs);
  mret (discard_from_monomer, from_named).

(** Partition, merge and charge (4.2, steps 3 to 5): what extend does once
    both junctions are chosen. *)
Definition finish (e : env) (self : Polymer.t) (new_monomer : Monomer.t)
    (to_junction from_junction : loc) (discard_from_monomer : gset loc)
    (charges : option (float * float)) : M unit :=
  junctions_remove (Polymer.junctions self) from_junction;;
  from_bond ← read (junction_location from_junction);
  discard_from_polymer ←
    read (Polymer.DFS (recursion_limit e) (Bond.atom_b from_bond) ∅
                      (Some (Bond.atom_a from_bond)));
  topology_add (Polymer.topology self) (Monomer.topology new_monomer);;
  njs ← read (load_junctions (Monomer.junctions new_monomer));
  for_ njs (fun junction =>
    j ← read (load_junction junction);
    jb ← read (junction_location junction);
    a ← read (load_atom (Bond.atom_a jb));
    b ← read (load_atom (Bond.atom_b jb));
    bond ← read (get_bond (Polymer.topology self) (Atom.atom_id a) (Atom.atom_id b));
    new_junction ← new_Junction (Junction.name j) bond;
    junctions_add (Polymer.junctions self) new_junction);;
  from_bond' ← read (junction_location from_junction);
  to_bond' ← read (junction_location to_junction);
  new_bond ← new_Bond (Bond.atom_a from_bond') (Bond.atom_b to_bond')
                      (PyInt 1) (PyInt 1) (PyInt 1);
  bonds_append (Polymer.topology self) new_bond;;
  for_ (elements discard_from_monomer)
       (remove_atom (strict_remove e) (Polymer.topology self));;
  for_ (elements discard_from_polymer)
       (remove_atom (strict_remove e) (Polymer.topology self));;
  match charges with
  | Some (monomer_charge, polymer_charge) =>
      set_charge (Polymer.topology self) (fadd monomer_charge polymer_charge)
  | None => mret tt
  end.

Definition extend_in_phases (e : env) (self : Polymer.t) (monomer : Monomer.t)
    (from_junction_name to_junction_name : string) (keep_charge : bool) : M unit :=
  '(charges, new_monomer, to_named) ←
     prepare e self monomer to_junction_name keep_charge;
  match head to_named with
  | None =>
      raise (ValueError ("No junction named " +:+ to_junction_name +:+
                         " found in the monomer"))
  | Some to_junction =>
      '(discard_from_monomer, from_named) ←
         select e self new_monomer to_junction from_junction_name;
      from_junction ← Polymer.random_choice (rnd e) from_named;
      finish e self new_monomer to_junction from_junction
             discard_from_monomer charges
  end.

Lemma bind_assoc {A B C} (m : M A) (k1 : A → M B) (k2 : B → M C) h :
  ((m ≫= k1) ≫= k2) h = (m ≫= (fun a => k1 a ≫= k2)) h.
Proof.
  rewrite !bind_unfold. destruct (m h) as [[a|e] h1]; [|reflexivity].
  by rewrite bind_unfold.
Qed.

Lemma bind_ext {A B} (m : M A) (k1 k2 : A → M B) h :
  (∀ a h1, k1 a h1 = k2 a h1) → (m ≫= k1) h = (m ≫= k2) h.
Proof.
  intros Hk. rewrite !bind_unfold. destruct (m h) as [[a|e] h1]; auto.
Qed.

Lemma bind_ret {A B} (a : A) (k : A → M B) h : (mret a ≫= k) h = k a h.
Proof. reflexivity. Qed.

(** extend is its phases, one after the other. *)
Lemma extend_phases e self monomer from_name to_name keep h :
  Polymer.extend e self monomer from_name to_name keep h =
  extend_in_phases e self monomer from_name to_name keep h.
Proof.
  unfold Polymer.extend, extend_in_phases, prepare.
  repeat (rewrite bind_assoc; apply bind_ext; intros ? ?).
  rewrite bind_ret. destruct (head _); [|reflexivity].
  unfold select.
  repeat (rewrite bind_assoc; apply bind_ext; intros ? ?).
  rewrite bind_ret. reflexivity.
Qed.

End phases.

(** ** Loads and the copy of a monomer *)

Section copy_run.
Context `{PyFloat}.

Lemma load_atom_Ok l h a : load_atom l h = Ok a ↔ atom_objs h !! l = Some a.
Proof. unfold load_atom. destruct (atom_objs h !! l); split; congruence. Qed.

Lemma load_bond_Ok l h b : load_bond l h = Ok b ↔ bond_objs h !! l = Some b.
Proof. unfold load_bond. destruct (bond_objs h !! l); split; congruence. Qed.

Lemma load_topology_Ok l h t :
  load_topology l h = Ok t ↔ topology_objs h !! l = Some t.
Proof. unfold load_topology. destruct (topology_objs h !! l); split; congruence. Qed.

Lemma load_junction_Ok l h j :
  load_junction l h = Ok j ↔ junction_objs h !! l = Some j.
Proof. unfold load_junction. destruct (junction_objs h !! l); split; congruence. Qed.

Lemma load_junctions_Ok l h js :
  load_junctions l h = Ok js ↔ junctions_objs h !! l = Some js.
Proof. unfold load_junctions. destruct (junctions_objs h !! l); split; congruence. Qed.

(** One store extends another: it has all its objects, unchanged. *)
Definition extends (h h' : heap) : Prop :=
  atom_objs h ⊆ atom_objs h' ∧ bond_objs h ⊆ bond_objs h' ∧
  topology_objs h ⊆ topology_objs h' ∧ junction_objs h ⊆ junction_objs h' ∧
  junctions_objs h ⊆ junctions_objs h'.

Lemma keeps_all_extends h h' : keeps (all_of h) h h' ↔ extends h h'.
Proof.
  unfold keeps, extends. cbn. rewrite !map_subseteq_spec.
  split; intros (A1 & B1 & C1 & D1 & E1); repeat split.
  - intros l v Hl. rewrite A1; eauto.
  - intros l v Hl. rewrite B1; eauto.
  - intros l v Hl. rewrite C1; eauto.
  - intros l v Hl. rewrite D1; eauto.
  - intros l v Hl. rewrite E1; eauto.
  - intros l [v Hl]. rewrite Hl. eauto.
  - intros l [v Hl]. rewrite Hl. eauto.
  - intros l [v Hl]. rewrite Hl. eauto.
  - intros l [v Hl]. rewrite Hl. eauto.
  - intros l [v Hl]. rewrite Hl. eauto.
Qed.

Lemma keeps_extends P h0 h h' :
  within P h0 → extends h h' → keeps P h0 h → keeps P h0 h'.
Proof.
  unfold extends. rewrite !map_subseteq_spec.
  intros (W1 & W2 & W3 & W4 & W5) (S1 & S2 & S3 & S4 & S5)
         (A1 & B1 & C1 & D1 & E1).
  repeat split; intros l Hl.
  - destruct (W1 l Hl) as [v Hv]. rewrite Hv. apply S1. by rewrite A1.
  - destruct (W2 l Hl) as [v Hv]. rewrite Hv. apply S2. by rewrite B1.
  - destruct (W3 l Hl) as [v Hv]. rewrite Hv. apply S3. by rewrite C1.
  - destruct (W4 l Hl) as [v Hv]. rewrite Hv. apply S4. by rewrite D1.
  - destruct (W5 l Hl) as [v Hv]. rewrite Hv. apply S5. by rewrite E1.
Qed.

Definition offsets_of (h : heap) : offsets :=
  Offsets (top (atom_objs h)) (top (bond_objs h)) (top (topology_objs h))
          (top (junction_objs h)) (top (junctions_objs h)).

(** The store after [monomer.copy()]. *)
Definition copied (m : Monomer.t) (T : Topology.t) (J : list loc) (h : heap) : heap :=
  let o := offsets_of h in
  Heap (clone_objs (copy_atom o) (off_atom o) (Topology.atoms T) (atom_objs h))
       (clone_objs (copy_bond o) (off_bond o) (Topology.bonds T) (bond_objs h))
       (clone_objs (copy_topology o) (off_topology o) [Monomer.topology m]
                   (topology_objs h))
       (clone_objs (copy_junction o) (off_junction o) J (junction_objs h))
       (clone_objs (copy_junctions o) (off_junctions o) [Monomer.junctions m]
                   (junctions_objs h)).

Definition copy_of (m : Monomer.t) (h : heap) : Monomer.t :=
  Monomer.mk (moved (off_topology (offsets_of h)) (Monomer.topology m))
             (moved (off_junctions (offsets_of h)) (Monomer.junctions m)).

Lemma monomer_copy_run m h r h' :
  monomer_copy m h = (r, h') →
  (∃ T J, topology_objs h !! Monomer.topology m = Some T ∧
          junctions_objs h !! Monomer.junctions m = Some J ∧
          r = Ok (copy_of m h) ∧ h' = copied m T J h) ∨
  (∃ e, r = Raise e ∧ h' = h).
Proof.
  unfold monomer_copy. rewrite bind_unfold, read_unfold.
  destruct (load_topology _ h) as [T|e] eqn:ET; [|intros [= <- <-]; eauto].
  rewrite bind_unfold, read_unfold.
  destruct (load_junctions _ h) as [J|e] eqn:EJ; [|intros [= <- <-]; eauto].
  intros [= <- <-]. left. exists T, J.
  apply load_topology_Ok in ET. apply load_junctions_Ok in EJ. done.
Qed.

Lemma copied_extends m T J h : extends h (copied m T J h).
Proof. repeat split; by apply clone_keeps. Qed.

Lemma preserves_monomer_copy P h0 m h :
  within P h0 → preserves P h0 (monomer_copy m) h.
Proof.
  intros HW r h' [(T & J & _ & _ & _ & ->)|(e & _ & ->)]%monomer_copy_run K;
    [|done].
  eapply keeps_extends; eauto using copied_extends.
Qed.

(** The objects of the copy. *)
Lemma copied_topology m T J h :
  topology_objs h !! Monomer.topology m = Some T →
  topology_objs (copied m T J h) !! Monomer.topology (copy_of m h) =
  Some (copy_topology (offsets_of h) T).
Proof. intros HT. cbn -[clone_objs]. apply clone_lookup_new; [by left|done]. Qed.

Lemma copied_junctions m T J h :
  junctions_objs h !! Monomer.junctions m = Some J →
  junctions_objs (copied m T J h) !! Monomer.junctions (copy_of m h) =
  Some (copy_junctions (offsets_of h) J).
Proof. intros HJ. cbn -[clone_objs]. apply clone_lookup_new; [by left|done]. Qed.

Lemma copied_atom m T J h a A :
  a ∈ Topology.atoms T → atom_objs h !! a = Some A →
  atom_objs (copied m T J h) !! moved (off_atom (offsets_of h)) a =
  Some (copy_atom (offsets_of h) A).
Proof. intros. cbn -[clone_objs]. by apply clone_lookup_new. Qed.

Lemma copied_bond m T J h b B :
  b ∈ Topology.bonds T → bond_objs h !! b = Some B →
  bond_objs (copied m T J h) !! moved (off_bond (offsets_of h)) b =
  Some (copy_bond (offsets_of h) B).
Proof. intros. cbn -[clone_objs]. by apply clone_lookup_new. Qed.

Lemma copied_junction m T J h j Jn :
  j ∈ J → junction_objs h !! j = Some Jn →
  junction_objs (copied m T J h) !! moved (off_junction (offsets_of h)) j =
  Some (copy_junction (offsets_of h) Jn).
Proof. intros. cbn -[clone_objs]. by apply clone_lookup_new. Qed.

End copy_run.

(** ** Renumbering touches attributes only *)

Section retouching.
Context `{PyFloat}.

(** Two atoms with the same type and the same back-references. *)
Definition same_links (A A' : Atom.t) : Prop :=
  Atom.bonds A' = Atom.bonds A ∧ Atom.atom_type A' = Atom.atom_type A.

(** [retouched W h h']: the stores differ at most in attributes of atoms of
    [W]; types, back-references and all other objects are the same. *)
Definition retouched (W : loc → Prop) (h h' : heap) : Prop :=
  bond_objs h' = bond_objs h ∧ topology_objs h' = topology_objs h ∧
  junction_objs h' = junction_objs h ∧ junctions_objs h' = junctions_objs h ∧
  (∀ l, ¬ W l → atom_objs h' !! l = atom_objs h !! l) ∧
  (∀ l, option_Forall2 same_links (atom_objs h !! l) (atom_objs h' !! l)).

Lemma same_links_refl A : same_links A A.
Proof. done. Qed.

Lemma same_links_trans A B C : same_links A B → same_links B C → same_links A C.
Proof. intros [? ?] [? ?]. split; congruence. Qed.

Lemma retouched_refl W h : retouched W h h.
Proof.
  repeat split; auto. intros l. destruct (atom_objs h !! l); by constructor.
Qed.

Lemma retouched_trans W h1 h2 h3 :
  retouched W h1 h2 → retouched W h2 h3 → retouched W h1 h3.
Proof.
  intros (A1 & B1 & C1 & D1 & E1 & F1) (A2 & B2 & C2 & D2 & E2 & F2).
  repeat split; try congruence.
  - intros l Hl. by rewrite E2, E1.
  - intros l. specialize (F1 l). specialize (F2 l).
    destruct F1; inversion F2; subst; constructor.
    eapply same_links_trans; eauto.
Qed.

Lemma retouched_mono (W W' : loc → Prop) h h' :
  (∀ l, W l → W' l) → retouched W h h' → retouched W' h h'.
Proof.
  intros HW (A1 & B1 & C1 & D1 & E1 & F1). repeat split; auto.
Qed.

Lemma retouched_store (W : loc → Prop) l A A' h :
  atom_objs h !! l = Some A → same_links A A' → W l →
  retouched W h (with_atoms (insert l A') h).
Proof.
  intros HA HAA HW. repeat split; cbn.
  - intros l' Hl'. rewrite lookup_insert_ne; [done|congruence].
  - intros l'. destruct (decide (l = l')) as [<-|Hne].
    + rewrite lookup_insert_eq, HA. by constructor.
    + rewrite lookup_insert_ne by done.
      destruct (atom_objs h !! l'); by constructor.
Qed.

Lemma retouched_lookup W h h' l A' :
  retouched W h h' → atom_objs h' !! l = Some A' →
  ∃ A, atom_objs h !! l = Some A ∧ same_links A A'.
Proof.
  intros (_ & _ & _ & _ & _ & F) HA. specialize (F l). rewrite HA in F.
  inversion F; subst. eauto.
Qed.

Lemma retouched_lookup_fwd W h h' l A :
  retouched W h h' → atom_objs h !! l = Some A →
  ∃ A', atom_objs h' !! l = Some A' ∧ same_links A A'.
Proof.
  intros (_ & _ & _ & _ & _ & F) HA. specialize (F l). rewrite HA in F.
  inversion F; subst. eauto.
Qed.

Lemma renumber_from_retouched start atoms h r h' :
  renumber_from start atoms h = (r, h') →
  retouched (fun l => l ∈ atoms) h h'.
Proof.
  revert start h. induction atoms as [|a atoms IH]; intros start h.
  - intros [= <- <-]. apply retouched_refl.
  - cbn [renumber_from]. rewrite bind_unfold, read_unfold.
    destruct (load_atom a h) as [A|e] eqn:EA.
    2:{ intros [= <- <-]. apply retouched_refl. }
    apply load_atom_Ok in EA. rewrite bind_unfold. cbn [store_atom update].
    intros E%IH. eapply retouched_trans;
      [|eapply retouched_mono; [|exact E]; intros; by right].
    apply (retouched_store _ a A); [done|done|by left].
Qed.

Lemma renumber_atoms_retouched t start h r h' T :
  topology_objs h !! t = Some T →
  renumber_atoms t start h = (r, h') →
  retouched (fun l => l ∈ Topology.atoms T) h h'.
Proof.
  intros HT. unfold renumber_atoms. rewrite bind_unfold, read_unfold.
  apply load_topology_Ok in HT. rewrite HT. apply renumber_from_retouched.
Qed.

Lemma renumber_indexes_from_retouched gap d atoms h r h' :
  renumber_indexes_from gap d atoms h = (r, h') →
  retouched (fun l => l ∈ atoms) h h'.
Proof.
  revert d h. induction atoms as [|a atoms IH]; intros d h.
  - intros [= <- <-]. apply retouched_refl.
  - cbn [renumber_indexes_from]. rewrite bind_unfold, read_unfold.
    destruct (load_atom a h) as [A|e] eqn:EA.
    2:{ intros [= <- <-]. apply retouched_refl. }
    apply load_atom_Ok in EA. destruct (dict_get _ d).
    + rewrite bind_unfold. cbn [store_atom update].
      intros E%IH. eapply retouched_trans;
        [|eapply retouched_mono; [|exact E]; intros; by right].
      apply (retouched_store _ a A); [done|done|by left].
    + intros E%IH. eapply retouched_mono; [|exact E]. intros; by right.
Qed.

Lemma renumber_atom_indexes_retouched gap t d h r h' T :
  topology_objs h !! t = Some T →
  renumber_atom_indexes gap t d h = (r, h') →
  retouched (fun l => l ∈ Topology.atoms T) h h'.
Proof.
  intros HT. unfold renumber_atom_indexes. rewrite bind_unfold, read_unfold.
  apply load_topology_Ok in HT. rewrite HT. apply renumber_indexes_from_retouched.
Qed.

Lemma for_retouched {A} W (l : list A) (body : A → M unit) h r h' :
  (∀ x h1 r1 h2, x ∈ l → body x h1 = (r1, h2) → retouched W h1 h2) →
  for_ l body h = (r, h') → retouched W h h'.
Proof.
  revert h. induction l as [|x l IH]; intros h Hbody.
  - intros [= <- <-]. apply retouched_refl.
  - cbn [for_]. rewrite bind_unfold.
    destruct (body x h) as [[[]|e] h1] eqn:E.
    + intros E'. eapply retouched_trans.
      * eapply Hbody; [by left|done].
      * apply IH; [|done]. intros; eapply Hbody; [by right|done].
    + intros [= <- <-]. eapply Hbody; [by left|done].
Qed.

Lemma proportional_charge_change_retouched t delta h r h' T :
  topology_objs h !! t = Some T →
  proportional_charge_change t delta h = (r, h') →
  retouched (fun l => l ∈ Topology.atoms T) h h'.
Proof.
  intros HT. unfold proportional_charge_change.
  rewrite bind_unfold, read_unfold.
  apply load_topology_Ok in HT. rewrite HT.
  rewrite bind_unfold, read_unfold. destruct (rmap _ _ h) as [As|e].
  2:{ intros [= <- <-]. apply retouched_refl. }
  destruct (fis_zero _).
  { intros [= <- <-]. apply retouched_refl. }
  apply for_retouched. intros x h1 r1 h2 Hx.
  rewrite bind_unfold, read_unfold.
  destruct (load_atom x h1) as [A|e] eqn:EA.
  2:{ intros [= <- <-]. apply retouched_refl. }
  apply load_atom_Ok in EA. intros [= <- <-].
  by apply (retouched_store _ x A).
Qed.

Lemma set_charge_retouched t target h r h' T :
  topology_objs h !! t = Some T →
  set_charge t target h = (r, h') →
  retouched (fun l => l ∈ Topology.atoms T) h h'.
Proof.
  intros HT. unfold set_charge. rewrite bind_unfold, read_unfold.
  destruct (charge t h).
  - by apply proportional_charge_change_retouched.
  - intros [= <- <-]. apply retouched_refl.
Qed.

(** What reads the links of atoms, and no other attribute, cannot tell
    retouched stores apart. *)
Lemma retouched_bond_neighbours W h h' a :
  retouched W h h' → bond_neighbours a h' = bond_neighbours a h.
Proof.
  intros (HB & _ & _ & _ & _ & F). unfold bond_neighbours.
  rewrite !rbind_unfold. unfold load_atom. specialize (F a).
  destruct F as [A A' [Hb _]|]; [|done].
  rewrite !rbind_unfold, Hb.
  rewrite (rmap_ext load_bond _ h' h); [done|].
  intros b _. unfold load_bond. by rewrite HB.
Qed.

Lemma retouched_named W h h' name js :
  retouched W h h' → named name js h' = named name js h.
Proof.
  intros (_ & _ & HJ & _). unfold named. apply rfilter_ext.
  intros j _. rewrite !rbind_unfold. unfold load_junction. by rewrite HJ.
Qed.

Lemma retouched_junction_location W h h' j :
  retouched W h h' → junction_location j h' = junction_location j h.
Proof.
  intros (HB & _ & HJ & _). unfold junction_location.
  rewrite !rbind_unfold. unfold load_junction. rewrite HJ.
  destruct (junction_objs h !! j) as [Jn|]; [|done].
  destruct (Junction.location Jn); [|done]. unfold load_bond. by rewrite HB.
Qed.

End retouching.

(** ** Prepare *)

Section prepare_facts.
Context `{PyFloat}.

Lemma py_max_run xs h r h' : py_max xs h = (r, h') → h' = h.
Proof. destruct xs; by intros [= <- <-]. Qed.

Lemma dict_item_run d k h r h' : dict_item d k h = (r, h') → h' = h.
Proof. unfold dict_item. destruct (dict_get k d); by intros [= <- <-]. Qed.

(** Stepping through a computation that is a hypothesis. *)
Ltac step_read E x Ex :=
  rewrite bind_unfold, read_unfold in E;
  match type of E with
  | context [match ?m with Ok _ => _ | Raise _ => _ end] =>
      destruct m as [x|?] eqn:Ex
  end.

Ltac step_run E x h1 Ex :=
  rewrite bind_unfold in E;
  match type of E with
  | context [match ?m with _ => _ end] =>
      destruct m as [[x|?] h1] eqn:Ex; cbv beta iota in E
  end.

(** The loop of extend over the atom types of the polymer. *)
Lemma index_loop_retouched gap t T (keys : list string) (d : dict) h r h' :
  topology_objs h !! t = Some T →
  for_ keys (fun atom_type =>
    v ← dict_item d atom_type;
    renumber_atom_indexes gap t [(atom_type, v + 1)]) h = (r, h') →
  retouched (fun l => l ∈ Topology.atoms T) h h'.
Proof.
  revert h. induction keys as [|k keys IH]; intros h HT.
  - intros [= <- <-]. apply retouched_refl.
  - cbn [for_]. intros E. step_run E u h1 Ebody.
    all: rewrite bind_unfold in Ebody.
    all: destruct (dict_item d k h) as [[v|?] hx] eqn:Ev;
      apply dict_item_run in Ev as ->.
    all: try (simplify_eq; apply retouched_refl).
    + eapply renumber_atom_indexes_retouched in Ebody as R1; [|done].
      eapply retouched_trans; [exact R1|]. apply IH; [|done].
      destruct R1 as (_ & -> & _). done.
    + simplify_eq. by eapply renumber_atom_indexes_retouched.
Qed.

Lemma read_charges_run (mt pt : loc) (keep : bool) h r h' :
  (if keep then
     monomer_charge ← read (charge mt);
     polymer_charge ← read (charge pt);
     mret (Some (monomer_charge, polymer_charge))
   else mret None) h = (r, h') → h' = h.
Proof.
  destruct keep; [|by intros [= <- <-]]. intros E.
  step_read E mc Emc; [|by injection E].
  step_read E pc Epc; [|by injection E].
  by injection E.
Qed.

(** The atoms of the copy of a monomer. *)
Definition copy_atoms (h : heap) (T : Topology.t) (l : loc) : Prop :=
  l ∈ moved (off_atom (offsets_of h)) <$> Topology.atoms T.

(** A run of prepare either fails with the store untouched, or leaves the
    store with the copy of the monomer, retouched. *)
Lemma prepare_run e self monomer to_name keep h r h1 :
  prepare e self monomer to_name keep h = (r, h1) →
  (h1 = h ∧ ∃ e, r = Raise e) ∨
  ∃ T J,
    topology_objs h !! Monomer.topology monomer = Some T ∧
    junctions_objs h !! Monomer.junctions monomer = Some J ∧
    retouched (copy_atoms h T) (copied monomer T J h) h1 ∧
    ∀ c nm tn, r = Ok (c, nm, tn) →
      nm = copy_of monomer h ∧
      named to_name (copy_junctions (offsets_of h) J) h1 = Ok tn.
Proof.
  intros E. unfold prepare in E.
  step_run E c hc Ec; apply read_charges_run in Ec as ->.
  2:{ simplify_eq. left. eauto. }
  step_run E nm h2 Ecopy;
    apply monomer_copy_run in Ecopy
      as [(T & J & HT & HJ & [= ->] & ->)|(e' & [= <-] & ->)].
  2:{ simplify_eq. left. eauto. }
  right. exists T, J. split; [done|]. split; [done|].
  set (hc := copied monomer T J h) in *.
  assert (HT' : topology_objs hc !! Monomer.topology (copy_of monomer h) =
                Some (copy_topology (offsets_of h) T)) by by apply copied_topology.
  assert (HJ' : junctions_objs hc !! Monomer.junctions (copy_of monomer h) =
                Some (copy_junctions (offsets_of h) J)) by by apply copied_junctions.
  step_read E ids Eids.
  2:{ simplify_eq. split; [apply retouched_refl|done]. }
  step_run E mx h3 Emx; apply py_max_run in Emx as ->.
  2:{ simplify_eq. split; [apply retouched_refl|done]. }
  step_run E u h3 Eren;
    eapply renumber_atoms_retouched in Eren as R1; eauto.
  2:{ simplify_eq. split; [exact R1|done]. }
  assert (HT3 : topology_objs h3 !! Monomer.topology (copy_of monomer h) =
                Some (copy_topology (offsets_of h) T)).
  { destruct R1 as (_ & -> & _). done. }
  step_read E d Ed.
  2:{ simplify_eq. split; [exact R1|done]. }
  step_run E u' h4 Efor;
    eapply index_loop_retouched in Efor as R2; eauto;
    pose proof (retouched_trans _ _ _ _ R1 R2) as R3.
  2:{ simplify_eq. split; [exact R3|done]. }
  assert (HJ4 : junctions_objs h4 !! Monomer.junctions (copy_of monomer h) =
                Some (copy_junctions (offsets_of h) J)).
  { destruct R3 as (_ & _ & _ & -> & _). done. }
  step_read E mjs Emjs.
  2:{ simplify_eq. split; [exact R3|done]. }
  apply load_junctions_Ok in Emjs. rewrite HJ4 in Emjs. injection Emjs as <-.
  step_read E tn Etn.
  2:{ simplify_eq. split; [exact R3|done]. }
  injection E as <- <-. split; [exact R3|].
  intros c0 nm tn0 [= <- <- <-]. done.
Qed.

End prepare_facts.

(** ** Up to the choice of the junctions *)

Section select_facts.
Context `{PyFloat}.

Ltac step_read E x Ex :=
  rewrite bind_unfold, read_unfold in E;
  match type of E with
  | context [match ?m with Ok _ => _ | Raise _ => _ end] =>
      destruct m as [x|?] eqn:Ex
  end.

Ltac step_run E x h1 Ex :=
  rewrite bind_unfold in E;
  match type of E with
  | context [match ?m with _ => _ end] =>
      destruct m as [[x|?] h1] eqn:Ex; cbv beta iota in E
  end.

Lemma extends_refl h : extends h h.
Proof. by repeat split. Qed.

Lemma extends_trans h1 h2 h3 : extends h1 h2 → extends h2 h3 → extends h1 h3.
Proof.
  intros (A1 & B1 & C1 & D1 & E1) (A2 & B2 & C2 & D2 & E2).
  repeat split; etrans; eauto.
Qed.

Lemma copy_atoms_fresh h T l : copy_atoms h T l → atom_objs h !! l = None.
Proof.
  unfold copy_atoms. intros (a & -> & _)%list_elem_of_fmap. apply moved_fresh.
Qed.

Lemma retouched_copied_extends m T J h h1 :
  retouched (copy_atoms h T) (copied m T J h) h1 → extends h h1.
Proof.
  intros (B1 & C1 & D1 & E1 & F1 & G1).
  destruct (copied_extends m T J h) as (A2 & B2 & C2 & D2 & E2).
  unfold extends. rewrite B1, C1, D1, E1. split; [|done].
  apply map_subseteq_spec. intros l A Hl. rewrite F1.
  - rewrite map_subseteq_spec in A2. by apply A2.
  - intros Hf%copy_atoms_fresh. congruence.
Qed.

(** The junctions of the copy carry the names of the originals. *)
Lemma named_copied m T J h name (J' : list loc) found :
  J' ⊆ J → named name J' h = Ok found →
  named name (copy_junctions (offsets_of h) J') (copied m T J h) =
  Ok (copy_junctions (offsets_of h) found).
Proof.
  unfold named, copy_junctions.
  revert found. induction J' as [|j J' IH]; intros found Hsub.
  - cbn. rewrite !rret_unfold. by intros [= <-].
  - cbn [rfilter fmap list_fmap]. rewrite !rbind_unfold.
    destruct (load_junction j h) as [Jn|] eqn:EJ; [|done].
    apply load_junction_Ok in EJ.
    erewrite (proj2 (load_junction_Ok _ _ _)).
    2:{ apply copied_junction; [|exact EJ]. apply Hsub. by left. }
    rewrite !rret_unfold, !rbind_unfold.
    destruct (rfilter _ J' h) as [ys|] eqn:Eys; [|done].
    rewrite (IH ys); [|set_solver|done].
    rewrite !rret_unfold. intros [= <-]. cbn [copy_junction Junction.name].
    by destruct (bool_decide _).
Qed.

Lemma junctions_remove_run js j h r h' :
  junctions_remove js j h = (r, h') →
  (∃ L, junctions_objs h !! js = Some L ∧ j ∈ L ∧ r = Ok tt ∧
        h' = with_junctions (insert js (filter (fun j' => j' ≠ j) L)) h) ∨
  (∃ e, r = Raise e ∧ h' = h).
Proof.
  unfold junctions_remove. intros E. step_read E L EL.
  2:{ simplify_eq. eauto. }
  apply load_junctions_Ok in EL. case_decide.
  - injection E as <- <-. left. eauto.
  - injection E as <- <-. eauto.
Qed.

(** A store that differs from [h] in one collection of junctions. *)
Lemma extends_with_junctions h0 h js L :
  extends h0 h → junctions_objs h0 !! js = None →
  extends h0 (with_junctions (insert js L) h).
Proof.
  intros (A1 & B1 & C1 & D1 & E1) Hjs. repeat split; auto. cbn.
  apply map_subseteq_spec. intros l v Hl.
  rewrite lookup_insert_ne by congruence.
  rewrite map_subseteq_spec in E1. auto.
Qed.

Lemma extends_named h h' name js found :
  extends h h' → named name js h = Ok found → named name js h' = Ok found.
Proof.
  intros (_ & _ & _ & HJ & _) E. rewrite <- E. unfold named.
  apply rfilter_ext. intros j Hj.
  eapply rfilter_Ok_all in E as [b Hb]; [|exact Hj].
  rewrite !rbind_unfold in *. unfold load_junction in *.
  destruct (junction_objs h !! j) as [Jn|] eqn:EJ; [|done].
  rewrite map_subseteq_spec in HJ. by rewrite (HJ _ _ EJ).
Qed.

(** A run of select writes at most the junction collection of the copy. *)
Lemma select_run e self nm tj from_name h r h' :
  select e self nm tj from_name h = (r, h') →
  (h' = h ∨
   ∃ L, junctions_objs h !! Monomer.junctions nm = Some L ∧ tj ∈ L ∧
        h' = with_junctions
               (insert (Monomer.junctions nm) (filter (fun j' => j' ≠ tj) L)) h) ∧
  ∀ Dm fn, r = Ok (Dm, fn) →
    (∃ L, junctions_objs h !! Monomer.junctions nm = Some L ∧ tj ∈ L ∧
          h' = with_junctions
                 (insert (Monomer.junctions nm) (filter (fun j' => j' ≠ tj) L)) h) ∧
    ∃ tb pjs,
      junction_location tj h' = Ok tb ∧
      Polymer.DFS (recursion_limit e) (Bond.atom_a tb) ∅
                  (Some (Bond.atom_b tb)) h' = Ok Dm ∧
      junctions_objs h' !! Polymer.junctions self = Some pjs ∧
      named from_name pjs h' = Ok fn.
Proof.
  unfold select. intros E.
  step_run E u h1 Erem;
    apply junctions_remove_run in Erem
      as [(L & HL & HtjL & Hr & ->)|(e' & [= <-] & ->)]; try discriminate Hr.
  2:{ simplify_eq. split; [by left|done]. }
  set (h1 := with_junctions _ h) in *.
  assert (Hh : ∃ L0, junctions_objs h !! Monomer.junctions nm = Some L0 ∧
                tj ∈ L0 ∧
                h1 = with_junctions (insert (Monomer.junctions nm)
                       (filter (fun j' => j' ≠ tj) L0)) h) by eauto.
  clearbody h1.
  step_read E tb Etb; [|simplify_eq; split; [by right|done]].
  step_read E Dm EDm; [|simplify_eq; split; [by right|done]].
  step_read E pjs Epjs; [|simplify_eq; split; [by right|done]].
  step_read E fn Efn; [|simplify_eq; split; [by right|done]].
  injection E as <- <-. split; [by right|].
  intros Dm' fn' [= <- <-]. split; [done|]. exists tb, pjs.
  apply load_junctions_Ok in Epjs. done.
Qed.

End select_facts.

(** ** A missing junction *)

Section missing_junction.
Context `{PyFloat}.

Lemma any_named_false js name h :
  any_named js name h = Ok false →
  ∃ J, junctions_objs h !! js = Some J ∧ named name J h = Ok [].
Proof.
  unfold any_named. rewrite rbind_unfold.
  destruct (load_junctions js h) as [J|] eqn:EJ; [|done].
  apply load_junctions_Ok in EJ. rewrite rbind_unfold.
  destruct (named name J h) as [found|] eqn:Ef; [|intros [=]].
  rewrite rret_unfold. intros [= Hf]. exists J. split; [done|].
  apply bool_decide_eq_false in Hf. destruct found; [done|].
  exfalso. by apply Hf.
Qed.



End missing_junction.

(** ** Well-formed topologies *)

Section well_formed.
Context `{PyFloat}.

(** Every back-reference of the atom is to a bond of the topology. *)
Definition atom_linked (h : heap) (T : Topology.t) (a : loc) : Prop :=
  match atom_objs h !! a with
  | Some A => Forall (fun b => b ∈ Topology.bonds T) (Atom.bonds A)
  | None => False
  end.

(** The bond joins two different atoms of the topology (invariant 1 of
    section 3, and no atom is bonded to itself). *)
Definition bond_linked (h : heap) (T : Topology.t) (b : loc) : Prop :=
  match bond_objs h !! b with
  | Some B =>
      Bond.atom_a B ∈ Topology.atoms T ∧ Bond.atom_b B ∈ Topology.atoms T ∧
      Bond.atom_a B ≠ Bond.atom_b B
  | None => False
  end.

Definition links_ok (h : heap) (T : Topology.t) : Prop :=
  Forall (atom_linked h T) (Topology.atoms T) ∧
  Forall (bond_linked h T) (Topology.bonds T).

(** A topology whose atoms are listed once and whose atoms and bonds refer
    to each other only. *)
Definition topology_ok (h : heap) (t : loc) : Prop :=
  match topology_objs h !! t with
  | Some T => NoDup (Topology.atoms T) ∧ links_ok h T
  | None => False
  end.

(** Every junction of the collection marks a bond of the topology. *)
Definition junction_placed (h : heap) (T : Topology.t) (j : loc) : Prop :=
  match junction_objs h !! j with
  | Some Jn =>
      match Junction.location Jn with
      | Some b => b ∈ Topology.bonds T
      | None => False
      end
  | None => False
  end.

Definition junctions_ok (h : heap) (js t : loc) : Prop :=
  match junctions_objs h !! js, topology_objs h !! t with
  | Some J, Some T => Forall (junction_placed h T) J
  | _, _ => False
  end.

#[export] Instance atom_linked_dec h T a : Decision (atom_linked h T a).
Proof. unfold atom_linked. destruct (atom_objs h !! a); apply _. Defined.

#[export] Instance bond_linked_dec h T b : Decision (bond_linked h T b).
Proof. unfold bond_linked. destruct (bond_objs h !! b); apply _. Defined.

#[export] Instance links_ok_dec h T : Decision (links_ok h T).
Proof. unfold links_ok. apply _. Defined.

#[export] Instance topology_ok_dec h t : Decision (topology_ok h t).
Proof. unfold topology_ok. destruct (topology_objs h !! t); apply _. Defined.

#[export] Instance junction_placed_dec h T j : Decision (junction_placed h T j).
Proof.
  unfold junction_placed. destruct (junction_objs h !! j) as [Jn|]; [|apply _].
  destruct (Junction.location Jn); apply _.
Defined.

#[export] Instance junctions_ok_dec h js t : Decision (junctions_ok h js t).
Proof.
  unfold junctions_ok.
  destruct (junctions_objs h !! js); [|apply _].
  destruct (topology_objs h !! t); apply _.
Defined.

Lemma rmap_Ok_elem {A B} (f : A → R B) l h ys y :
  rmap f l h = Ok ys → y ∈ ys → ∃ x, x ∈ l ∧ f x h = Ok y.
Proof.
  intros E%rmap_Ok. induction E as [|x y' l ys Hxy _ IH].
  - by intros ?%elem_of_nil.
  - intros [->|Hy]%elem_of_cons.
    + exists x. split; [by left|done].
    + destruct (IH Hy) as (x' & ? & ?). exists x'. split; [by right|done].
Qed.

Lemma rmap_total {A B} (f : A → R B) l h :
  (∀ x, x ∈ l → ∃ y, f x h = Ok y) → ∃ ys, rmap f l h = Ok ys.
Proof.
  induction l as [|x l IH]; intros Hf; [by exists []|].
  destruct (Hf x) as [y Hy]; [by left|].
  destruct IH as [ys Hys]; [intros; apply Hf; by right|].
  exists (y :: ys). cbn [rmap]. by rewrite rbind_unfold, Hy, rbind_unfold, Hys.
Qed.

(** In a store where the links of a set of atoms stay within the set, the
    neighbour query does not lead out of it. *)
Definition linked_within (h : heap) (U : gset loc) : Prop :=
  ∀ a, a ∈ U → ∃ A, atom_objs h !! a = Some A ∧
    ∀ b, b ∈ Atom.bonds A → ∃ B, bond_objs h !! b = Some B ∧
      Bond.atom_a B ∈ U ∧ Bond.atom_b B ∈ U.

Lemma closed_of_links h (U : gset loc) : linked_within h U → closed h U.
Proof.
  intros HU a Ha. destruct (HU a Ha) as (A & HA & Hb).
  unfold closed_at, bond_neighbours. rewrite rbind_unfold.
  rewrite (proj2 (load_atom_Ok _ _ _) HA).
  destruct (rmap_total load_bond (Atom.bonds A) h) as [Bs HBs].
  { intros b Hbin. destruct (Hb b Hbin) as (B & HB & _).
    exists B. by apply load_bond_Ok. }
  rewrite rbind_unfold, HBs, rret_unfold.
  apply Forall_forall. intros n (B & -> & HBin)%list_elem_of_fmap.
  destruct (rmap_Ok_elem _ _ _ _ _ HBs HBin) as (b & Hbin & HbB).
  apply load_bond_Ok in HbB. destruct (Hb b Hbin) as (B' & HB' & Ha1 & Ha2).
  assert (B' = B) as -> by congruence.
  unfold Bond.other_atom. by case_decide.
Qed.

Lemma links_ok_within h T :
  links_ok h T → linked_within h (list_to_set (Topology.atoms T)).
Proof.
  intros [Hat Hbd]. intros a Ha%elem_of_list_to_set.
  rewrite Forall_forall in Hat. specialize (Hat a Ha). unfold atom_linked in Hat.
  destruct (atom_objs h !! a) as [A|]; [|done]. exists A. split; [done|].
  intros b Hb. rewrite Forall_forall in Hat. specialize (Hat b Hb).
  rewrite Forall_forall in Hbd. specialize (Hbd b Hat). unfold bond_linked in Hbd.
  destruct (bond_objs h !! b) as [B|]; [|done]. exists B.
  rewrite !elem_of_list_to_set. tauto.
Qed.

Lemma linked_within_same h h' U :
  atom_objs h' = atom_objs h → bond_objs h' = bond_objs h →
  linked_within h U → linked_within h' U.
Proof. intros Ha Hb HU a HaU. rewrite Ha, Hb. by apply HU. Qed.

Lemma linked_within_extends h h' U :
  extends h h' → linked_within h U → linked_within h' U.
Proof.
  intros (HA & HB & _) HU a Ha.
  rewrite map_subseteq_spec in HA. rewrite map_subseteq_spec in HB.
  destruct (HU a Ha) as (A & HAa & Hb). exists A. split; [auto|].
  intros b Hbin. destruct (Hb b Hbin) as (B & HBb & ?). exists B. auto.
Qed.

Lemma linked_within_retouched W h h' U :
  retouched W h h' → linked_within h U → linked_within h' U.
Proof.
  intros R1 HU a Ha. destruct (HU a Ha) as (A & HAa & Hb).
  destruct (retouched_lookup_fwd _ _ _ _ _ R1 HAa) as (A' & HA' & [Hbonds _]).
  exists A'. split; [done|]. rewrite Hbonds.
  destruct R1 as (-> & _). done.
Qed.

Lemma linked_within_union h U1 U2 :
  linked_within h U1 → linked_within h U2 → linked_within h (U1 ∪ U2).
Proof.
  intros H1 H2 a [Ha|Ha]%elem_of_union.
  - destruct (H1 a Ha) as (A & HA & Hb). exists A. split; [done|].
    intros b Hbin. destruct (Hb b Hbin) as (B & ? & ? & ?). exists B.
    set_solver.
  - destruct (H2 a Ha) as (A & HA & Hb). exists A. split; [done|].
    intros b Hbin. destruct (Hb b Hbin) as (B & ? & ? & ?). exists B.
    set_solver.
Qed.

(** The copy of a well-linked topology is linked within itself. *)
Lemma linked_within_copied m T J h :
  links_ok h T →
  linked_within (copied m T J h)
    (list_to_set (moved (off_atom (offsets_of h)) <$> Topology.atoms T)).
Proof.
  intros HT a' Ha'. apply elem_of_list_to_set in Ha'.
  apply list_elem_of_fmap in Ha' as (a & -> & Ha).
  destruct (links_ok_within h T HT a) as (A & HA & Hb);
    [by apply elem_of_list_to_set|].
  exists (copy_atom (offsets_of h) A). split; [by apply copied_atom|].
  intros b' Hb'. cbn in Hb'. apply list_elem_of_fmap in Hb' as (b & -> & Hbin).
  destruct (Hb b Hbin) as (B & HB & Ha1 & Ha2).
  exists (copy_bond (offsets_of h) B). split.
  - apply copied_bond; [|done]. destruct HT as [Hat _].
    rewrite Forall_forall in Hat. apply elem_of_list_to_set in Ha1.
    specialize (Hat a Ha). unfold atom_linked in Hat. rewrite HA in Hat.
    rewrite Forall_forall in Hat. auto.
  - cbn. rewrite !elem_of_list_to_set in *.
    split; apply list_elem_of_fmap; eauto.
Qed.

End well_formed.

(** ** More on the search *)

Section search_more.
Context `{PyFloat}.

Lemma rfold_ext {A B} (f g : B → A → R B) acc l h h' :
  (∀ acc x, f acc x h = g acc x h') → rfold f acc l h = rfold g acc l h'.
Proof.
  intros Hfg. revert acc. induction l as [|x l IH]; intros acc; [done|].
  cbn [rfold]. rewrite !rbind_unfold, Hfg. destruct (g acc x h'); auto.
Qed.

(** The search sees the store through the neighbour query only. *)
Lemma DFS_ext h h' depth atom visited exclude :
  (∀ l, bond_neighbours l h' = bond_neighbours l h) →
  Polymer.DFS depth atom visited exclude h' =
  Polymer.DFS depth atom visited exclude h.
Proof.
  intros Hn. revert atom visited.
  induction depth as [|depth IH]; intros atom visited; [done|].
  rewrite !DFS_unfold, Hn. destruct (bond_neighbours atom h); [|done].
  apply rfold_ext. intros acc x. unfold DFS_step. case_decide; [apply IH|done].
Qed.

(** A search that ends within some depth ends the same within any greater
    depth. *)
Lemma DFS_more_depth h depth depth' atom visited exclude found :
  (depth ≤ depth')%nat →
  Polymer.DFS depth atom visited exclude h = Ok found →
  Polymer.DFS depth' atom visited exclude h = Ok found.
Proof.
  revert depth' atom visited found.
  induction depth as [|depth IH]; intros depth' atom visited found Hle; [done|].
  destruct depth' as [|depth']; [lia|].
  rewrite !DFS_unfold. destruct (bond_neighbours atom h) as [ns|]; [|done].
  generalize (visited ∪ {[atom]}). clear visited.
  induction ns as [|n ns IHns]; intros W; [done|].
  cbn [rfold]. rewrite !rbind_unfold. unfold DFS_step at 1 3.
  case_decide.
  - destruct (Polymer.DFS depth n W exclude h) as [W1|] eqn:E1; [|done].
    rewrite (IH depth' n W W1) by (done || lia). apply IHns.
  - rewrite !rret_unfold. apply IHns.
Qed.

(** What a search that ends has found: from an empty visited set, exactly
    the atoms that a path from the root reaches without entering the
    barrier. *)
Lemma DFS_found h U depth atom exclude found :
  closed h U → atom ∈ U → Some atom ≠ exclude →
  Polymer.DFS depth atom ∅ exclude h = Ok found →
  ∀ x, x ∈ found ↔ reach h (blocked ∅ exclude) atom x.
Proof.
  intros HU Ha Hne E x.
  assert (size (U ∖ ∅) ≤ Nat.max depth (size U))%nat as Hsize.
  { etrans; [apply (subseteq_size _ U); set_solver|lia]. }
  destruct (DFS_spec h U (Nat.max depth (size U)) atom ∅ exclude HU Ha
              (not_elem_of_empty _) Hne Hsize) as (found' & E' & Hfound).
  rewrite (DFS_more_depth h depth (Nat.max depth (size U)) _ _ _ found) in E';
    [|lia|done].
  injection E' as <-. rewrite Hfound. split; [|auto].
  intros [?%not_elem_of_empty|?]; done.
Qed.

Lemma DFS_found_in h U depth atom exclude found :
  closed h U → atom ∈ U → Some atom ≠ exclude →
  Polymer.DFS depth atom ∅ exclude h = Ok found →
  found ⊆ U ∧ atom ∈ found ∧ ∀ x, Some x = exclude → x ∉ found.
Proof.
  intros HU Ha Hne E. pose proof (DFS_found h U depth atom exclude found HU Ha Hne E) as Hf.
  split; [|split].
  - intros x Hx%Hf. eapply reach_in_closed; eauto.
  - apply Hf. apply reach_here. intros [?%not_elem_of_empty|?]; done.
  - intros x Hx Hin%Hf. apply reach_end in Hin. apply Hin. by right.
Qed.

End search_more.

(** ** Removing atoms *)

Section discard.
Context `{PyFloat}.

Ltac step_read E x Ex :=
  rewrite bind_unfold, read_unfold in E;
  match type of E with
  | context [match ?m with Ok _ => _ | Raise _ => _ end] =>
      destruct m as [x|?] eqn:Ex
  end.

Ltac step_run E x h1 Ex :=
  rewrite bind_unfold in E;
  match type of E with
  | context [match ?m with _ => _ end] =>
      destruct m as [[x|?] h1] eqn:Ex; cbv beta iota in E
  end.

(** An atom that has lost back-references, and nothing else. *)
Definition fewer_links (A A' : Atom.t) : Prop :=
  A' = Atom.set_bonds (Atom.bonds A') A ∧ Atom.bonds A' ⊆ Atom.bonds A.

(** [pruned h h']: from [h] to [h'] atoms have only lost back-references;
    bonds and junctions are as they were. *)
Definition pruned (h h' : heap) : Prop :=
  bond_objs h' = bond_objs h ∧ junction_objs h' = junction_objs h ∧
  junctions_objs h' = junctions_objs h ∧
  ∀ l, option_Forall2 fewer_links (atom_objs h !! l) (atom_objs h' !! l).

Lemma fewer_links_refl A : fewer_links A A.
Proof. split; [by destruct A|done]. Qed.

Lemma fewer_links_trans A B C : fewer_links A B → fewer_links B C → fewer_links A C.
Proof.
  intros [HB HAB] [HC HBC]. split; [|set_solver].
  rewrite HC, HB. by destruct A.
Qed.

Lemma pruned_refl h : pruned h h.
Proof.
  repeat split. intros l. destruct (atom_objs h !! l); constructor.
  apply fewer_links_refl.
Qed.

Lemma pruned_trans h1 h2 h3 : pruned h1 h2 → pruned h2 h3 → pruned h1 h3.
Proof.
  intros (A1 & B1 & C1 & D1) (A2 & B2 & C2 & D2).
  repeat split; try congruence.
  intros l. specialize (D1 l). specialize (D2 l).
  destruct D1; inversion D2; subst; constructor.
  eapply fewer_links_trans; eauto.
Qed.

Lemma pruned_store h l A :
  atom_objs h !! l = Some A → ∀ b,
  pruned h (with_atoms (insert l (unregister_bond b A)) h).
Proof.
  intros HA b. repeat split. intros l'. cbn.
  destruct (decide (l = l')) as [<-|Hne].
  - rewrite lookup_insert_eq, HA. constructor. split; [by destruct A|].
    cbn. intros x [_ Hx]%list_elem_of_filter. done.
  - rewrite lookup_insert_ne by done.
    destruct (atom_objs h !! l'); constructor. apply fewer_links_refl.
Qed.

Lemma pruned_with_topologies h h' f :
  pruned h h' → pruned h (with_topologies f h').
Proof. intros (A1 & B1 & C1 & D1). by repeat split. Qed.

Lemma pruned_lookup h h' l A' :
  pruned h h' → atom_objs h' !! l = Some A' →
  ∃ A, atom_objs h !! l = Some A ∧ fewer_links A A'.
Proof.
  intros (_ & _ & _ & F) HA. specialize (F l). rewrite HA in F.
  inversion F; subst. eauto.
Qed.

Lemma remove_bond_Ok t b h h' :
  remove_bond t b h = (Ok tt, h') →
  ∃ T, topology_objs h !! t = Some T ∧
       topology_objs h' =
         <[t := Topology.mk (Topology.atoms T)
                            (filter (fun b' => b' ≠ b) (Topology.bonds T))]>
           (topology_objs h) ∧
       pruned h h'.
Proof.
  unfold remove_bond. intros E.
  step_read E B EB; [|done].
  step_read E A1 EA1; [|done]. apply load_atom_Ok in EA1.
  rewrite bind_unfold in E. cbn [store_atom update] in E.
  step_read E A2 EA2; [|done]. apply load_atom_Ok in EA2.
  rewrite bind_unfold in E. cbn [store_atom update] in E.
  step_read E T ET; [|done]. apply load_topology_Ok in ET.
  injection E as <-. exists T. split; [done|]. split; [done|].
  apply pruned_with_topologies. eapply pruned_trans.
  - by apply pruned_store.
  - by apply pruned_store.
Qed.

Lemma filter_all {A} (P : A → Prop) `{!∀ x, Decision (P x)} (l : list A) :
  (∀ x, x ∈ l → P x) → filter P l = l.
Proof.
  induction l as [|x l IH]; intros HP; [done|].
  rewrite filter_cons_True by (apply HP; by left).
  rewrite IH; [done|]. intros; apply HP; by right.
Qed.

Lemma remove_bonds_Ok t bs h h' T :
  for_ bs (remove_bond t) h = (Ok tt, h') →
  topology_objs h !! t = Some T →
  topology_objs h' !! t =
    Some (Topology.mk (Topology.atoms T)
                      (filter (fun b => b ∉ bs) (Topology.bonds T))) ∧
  (∀ l, l ≠ t → topology_objs h' !! l = topology_objs h !! l) ∧
  pruned h h'.
Proof.
  revert h T. induction bs as [|b bs IH]; intros h T.
  - intros [= <-] HT. split; [|split; [done|apply pruned_refl]].
    rewrite HT. f_equal. destruct T as [at_ bd]. cbn. f_equal.
    symmetry. apply filter_all. intros x _ Hx. by apply elem_of_nil in Hx.
  - cbn [for_]. intros E HT. step_run E u h1 E1; [|done]. destruct u.
    apply remove_bond_Ok in E1 as (T1 & HT1 & HT1' & P1).
    assert (T1 = T) as -> by congruence.
    edestruct (IH h1) as (HT2 & Hother & P2); [exact E| |].
    { rewrite HT1'. apply lookup_insert_eq. }
    split; [|split].
    + rewrite HT2. cbn. f_equal. f_equal. rewrite list_filter_filter.
      apply list_filter_iff. intros x. rewrite not_elem_of_cons. tauto.
    + intros l Hl. rewrite Hother by done. rewrite HT1'.
      by rewrite lookup_insert_ne.
    + eapply pruned_trans; eauto.
Qed.

(** Removing an atom: the atom leaves the atom list, the bonds it was
    registered on leave the bond list. *)
Lemma remove_atom_Ok strict t x h h' T :
  remove_atom strict t x h = (Ok tt, h') →
  topology_objs h !! t = Some T →
  ∃ bs,
    (∀ A, x ∈ Topology.atoms T → atom_objs h !! x = Some A → bs = Atom.bonds A) ∧
    topology_objs h' !! t =
      Some (Topology.mk (filter (fun a => a ≠ x) (Topology.atoms T))
                        (filter (fun b => b ∉ bs) (Topology.bonds T))) ∧
    (∀ l, l ≠ t → topology_objs h' !! l = topology_objs h !! l) ∧
    pruned h h'.
Proof.
  unfold remove_atom. intros E HT.
  step_read E T0 ET0; [|done]. apply load_topology_Ok in ET0.
  assert (T0 = T) as -> by congruence.
  case_decide as Hin.
  - step_read E A EA; [|done]. apply load_atom_Ok in EA.
    step_run E u h1 E1; [|done]. destruct u.
    destruct (remove_bonds_Ok _ _ _ _ _ E1 HT) as (HT1 & Hother & P1).
    step_read E T1 ET1; [|done]. apply load_topology_Ok in ET1.
    rewrite HT1 in ET1. injection ET1 as <-.
    injection E as <-. exists (Atom.bonds A). split; [|split; [|split]].
    + intros A' _ HA'. congruence.
    + cbn. apply lookup_insert_eq.
    + intros l Hl. cbn. rewrite lookup_insert_ne by done. auto.
    + by apply pruned_with_topologies.
  - destruct strict; [discriminate E|]. injection E as <-.
    exists []. split; [done|]. split; [|split; [done|apply pruned_refl]].
    rewrite HT. f_equal. destruct T as [at_ bd]. cbn in *. f_equal.
    + symmetry. apply filter_all. intros a Ha ->. done.
    + symmetry. apply filter_all. intros b _ Hb. by apply elem_of_nil in Hb.
Qed.

(** Removing a list of atoms. *)
Lemma discard_Ok strict t D h h' T :
  for_ D (remove_atom strict t) h = (Ok tt, h') →
  topology_objs h !! t = Some T →
  ∃ T',
    topology_objs h' !! t = Some T' ∧
    Topology.atoms T' = filter (fun a => a ∉ D) (Topology.atoms T) ∧
    (∀ b, b ∈ Topology.bonds T' → b ∈ Topology.bonds T) ∧
    (∀ b, b ∈ Topology.bonds T →
       (∀ x A, x ∈ D → atom_objs h !! x = Some A → b ∉ Atom.bonds A) →
       b ∈ Topology.bonds T') ∧
    (∀ l, l ≠ t → topology_objs h' !! l = topology_objs h !! l) ∧
    pruned h h'.
Proof.
  revert h T. induction D as [|x D IH]; intros h T.
  - intros [= <-] HT. exists T. split; [done|]. split; [|split; [done|split; [done|]]].
    + symmetry. apply filter_all. intros a _ Ha. by apply elem_of_nil in Ha.
    + split; [done|apply pruned_refl].
  - cbn [for_]. intros E HT. step_run E u h1 E1; [|done]. destruct u.
    destruct (remove_atom_Ok _ _ _ _ _ _ E1 HT) as (bs & Hbs & HT1 & Hother1 & P1).
    destruct (IH h1 _ E HT1) as (T' & HT' & Hat & Hsub & Hkeep & Hother & P2).
    exists T'. split; [done|]. cbn in Hat, Hsub, Hkeep.
    split; [|split; [|split; [|split]]].
    + rewrite Hat, list_filter_filter. apply list_filter_iff.
      intros a. rewrite not_elem_of_cons. tauto.
    + intros b Hb%Hsub. by apply list_elem_of_filter in Hb as [_ ?].
    + intros b Hb Hfree. apply Hkeep.
      * apply list_elem_of_filter. split; [|done].
        destruct (decide (x ∈ Topology.atoms T)) as [Hx|Hx].
        -- destruct (atom_objs h !! x) as [A|] eqn:EA.
           ++ rewrite (Hbs A Hx eq_refl). apply (Hfree x A); [by left|done].
           ++ (* the atom was loaded when it was removed *)
              exfalso. unfold remove_atom in E1.
              rewrite bind_unfold, read_unfold in E1.
              rewrite (proj2 (load_topology_Ok _ _ _) HT) in E1.
              rewrite decide_True in E1 by done.
              rewrite bind_unfold, read_unfold in E1. unfold load_atom in E1.
              by rewrite EA in E1.
        -- (* nothing was removed *)
           unfold remove_atom in E1.
           rewrite bind_unfold, read_unfold in E1.
           rewrite (proj2 (load_topology_Ok _ _ _) HT) in E1.
           rewrite decide_False in E1 by done.
           assert (h1 = h) as ->.
           { destruct strict; [discriminate E1|by injection E1]. }
           rewrite HT in HT1. injection HT1 as HT1.
           apply (f_equal Topology.bonds) in HT1. cbn in HT1.
           assert (b ∈ Topology.bonds T) as Hb' by done.
           rewrite HT1 in Hb'.
           by apply list_elem_of_filter in Hb' as [? _].
      * intros y A' Hy HA'.
        destruct (pruned_lookup _ _ _ _ P1 HA') as (A & HA & [_ Hless]).
        intros Hb'. apply Hless in Hb'. revert Hb'. apply (Hfree y A); [by right|done].
    + intros l Hl. rewrite Hother, Hother1 by done. done.
    + eapply pruned_trans; eauto.
Qed.

End discard.

(** ** Merging *)

Section merge.
Context `{PyFloat}.

Ltac step_read E x Ex :=
  rewrite bind_unfold, read_unfold in E;
  match type of E with
  | context [match ?m with Ok _ => _ | Raise _ => _ end] =>
      destruct m as [x|?] eqn:Ex
  end.

Ltac step_run E x h1 Ex :=
  rewrite bind_unfold in E;
  match type of E with
  | context [match ?m with _ => _ end] =>
      destruct m as [[x|?] h1] eqn:Ex; cbv beta iota in E
  end.

Lemma topology_add_Ok t other h h' :
  topology_add t other h = (Ok tt, h') →
  ∃ T T2, topology_objs h !! t = Some T ∧ topology_objs h !! other = Some T2 ∧
    h' = with_topologies
           (insert t (Topology.mk (Topology.atoms T ++ Topology.atoms T2)
                                  (Topology.bonds T ++ Topology.bonds T2))) h.
Proof.
  unfold topology_add. intros E.
  step_read E T ET; [|done]. step_read E T2 ET2; [|done].
  apply load_topology_Ok in ET, ET2. injection E as <-. eauto.
Qed.

Lemma bonds_append_Ok t b h h' :
  bonds_append t b h = (Ok tt, h') →
  ∃ T, topology_objs h !! t = Some T ∧
    h' = with_topologies
           (insert t (Topology.mk (Topology.atoms T) (Topology.bonds T ++ [b]))) h.
Proof.
  unfold bonds_append. intros E. step_read E T ET; [|done].
  apply load_topology_Ok in ET. injection E as <-. eauto.
Qed.

Lemma new_Bond_Ok a b ty len fc h nb h' :
  new_Bond a b ty len fc h = (Ok nb, h') →
  nb = fresh (dom (bond_objs h)) ∧
  ∃ A1 A2,
    atom_objs h !! a = Some A1 ∧
    <[a := register_bond nb A1]> (atom_objs h) !! b = Some A2 ∧
    h' = Heap (<[b := register_bond nb A2]>
                 (<[a := register_bond nb A1]> (atom_objs h)))
              (<[nb := Bond.mk a b ty len fc PyNone]> (bond_objs h))
              (topology_objs h) (junction_objs h) (junctions_objs h).
Proof.
  unfold new_Bond. intros E. rewrite bind_unfold in E.
  cbn [alloc_bond] in E. cbv beta iota zeta in E.
  step_read E A1 EA1; [|done]. apply load_atom_Ok in EA1. cbn in EA1.
  rewrite bind_unfold in E. cbn [store_atom update] in E.
  step_read E A2 EA2; [|done]. apply load_atom_Ok in EA2. cbn in EA2.
  rewrite bind_unfold in E. cbn [store_atom update] in E.
  injection E as <- <-. split; [done|]. exists A1, A2. done.
Qed.

(** The loop that registers the junctions left on the monomer: it makes new
    junction objects and appends them to the polymer's collection. *)
Lemma register_loop_Ok (tp jp : loc) (njs : list loc) h h' L :
  for_ njs (fun junction =>
    j ← read (load_junction junction);
    jb ← read (junction_location junction);
    a ← read (load_atom (Bond.atom_a jb));
    b ← read (load_atom (Bond.atom_b jb));
    bond ← read (get_bond tp (Atom.atom_id a) (Atom.atom_id b));
    new_junction ← new_Junction (Junction.name j) bond;
    junctions_add jp new_junction) h = (Ok tt, h') →
  junctions_objs h !! jp = Some L →
  atom_objs h' = atom_objs h ∧ bond_objs h' = bond_objs h ∧
  topology_objs h' = topology_objs h ∧
  junction_objs h ⊆ junction_objs h' ∧
  (∀ l, l ≠ jp → junctions_objs h' !! l = junctions_objs h !! l) ∧
  ∃ news, junctions_objs h' !! jp = Some (L ++ news) ∧
          ∀ j, j ∈ news → junction_objs h !! j = None.
Proof.
  revert h L. induction njs as [|n njs IH]; intros h L.
  - intros [= <-] HL. repeat split; auto. exists []. rewrite app_nil_r.
    split; [done|]. intros j Hj. by apply elem_of_nil in Hj.
  - cbn [for_]. intros E HL. step_run E u h1 E1; [|done]. destruct u.
    step_read E1 j Ej; [|done]. step_read E1 jb Ejb; [|done].
    step_read E1 a Ea; [|done]. step_read E1 b Eb; [|done].
    step_read E1 bond Ebond; [|done].
    rewrite bind_unfold in E1. cbn [new_Junction alloc_junction] in E1.
    cbv beta iota zeta in E1. unfold junctions_add in E1.
    step_read E1 L1 EL1; [|done]. apply load_junctions_Ok in EL1. cbn in EL1.
    rewrite HL in EL1. injection EL1 as <-. injection E1 as <-.
    set (nj := fresh (dom (junction_objs h))) in *.
    assert (junction_objs h !! nj = None) as Hnj.
    { apply not_elem_of_dom, is_fresh. }
    edestruct IH as (HA & HB & HT & HJ & Hother & news & Hnews & Hfresh);
      [exact E|cbn; apply lookup_insert_eq|].
    cbn in HA, HB, HT, HJ, Hother, Hfresh.
    split; [done|]. split; [done|]. split; [done|]. split; [|split].
    + etrans; [|exact HJ]. by apply insert_subseteq.
    + intros l Hl. rewrite Hother by done. by rewrite lookup_insert_ne.
    + exists (nj :: news). split.
      * rewrite Hnews. f_equal. by rewrite <- app_assoc.
      * intros j' [->|Hj']%elem_of_cons; [done|].
        specialize (Hfresh j' Hj').
        destruct (decide (nj = j')) as [<-|Hne]; [done|].
        by rewrite lookup_insert_ne in Hfresh.
Qed.

End merge.

(** ** Identifiers are kept *)

Section numbers.
Context `{PyFloat}.

(** Two atoms with the same identifier, index and type. *)
Definition same_numbers (A A' : Atom.t) : Prop :=
  Atom.atom_id A' = Atom.atom_id A ∧ Atom.atom_index A' = Atom.atom_index A ∧
  Atom.atom_type A' = Atom.atom_type A.

(** [numbers_kept h h']: the stores have the same atoms, with the same
    identifiers, indexes and types. *)
Definition numbers_kept (h h' : heap) : Prop :=
  ∀ l, option_Forall2 same_numbers (atom_objs h !! l) (atom_objs h' !! l).

Lemma numbers_kept_refl h : numbers_kept h h.
Proof. intros l. destruct (atom_objs h !! l); by constructor. Qed.

Lemma numbers_kept_trans h1 h2 h3 :
  numbers_kept h1 h2 → numbers_kept h2 h3 → numbers_kept h1 h3.
Proof.
  intros F1 F2 l. specialize (F1 l). specialize (F2 l).
  destruct F1 as [A B (? & ? & ?)|]; inversion F2 as [B' C (? & ? & ?)|];
    subst; constructor.
  repeat split; congruence.
Qed.

Lemma numbers_kept_same h h' :
  atom_objs h' = atom_objs h → numbers_kept h h'.
Proof. intros Heq l. rewrite Heq. destruct (atom_objs h !! l); by constructor. Qed.

Lemma numbers_kept_lookup h h' l A' :
  numbers_kept h h' → atom_objs h' !! l = Some A' →
  ∃ A, atom_objs h !! l = Some A ∧ same_numbers A A'.
Proof.
  intros F HA. specialize (F l). rewrite HA in F. inversion F; subst. eauto.
Qed.

Lemma numbers_kept_lookup_fwd h h' l A :
  numbers_kept h h' → atom_objs h !! l = Some A →
  ∃ A', atom_objs h' !! l = Some A' ∧ same_numbers A A'.
Proof.
  intros F HA. specialize (F l). rewrite HA in F. inversion F; subst. eauto.
Qed.

Lemma pruned_numbers_kept h h' : pruned h h' → numbers_kept h h'.
Proof.
  intros (_ & _ & _ & F) l. specialize (F l).
  destruct F as [A A' [-> _]|]; constructor. by destruct A.
Qed.

Lemma for_numbers_kept {A} (l : list A) (body : A → M unit) h r h' :
  (∀ x h1 r1 h2, body x h1 = (r1, h2) → numbers_kept h1 h2) →
  for_ l body h = (r, h') → numbers_kept h h'.
Proof.
  intros Hbody. revert h. induction l as [|x l IH]; intros h.
  - intros [= <- <-]. apply numbers_kept_refl.
  - cbn [for_]. rewrite bind_unfold.
    destruct (body x h) as [[[]|e] h1] eqn:E.
    + intros E'. eapply numbers_kept_trans; eauto.
    + intros [= <- <-]. eauto.
Qed.

Lemma set_charge_numbers_kept t target h r h' :
  set_charge t target h = (r, h') → numbers_kept h h'.
Proof.
  unfold set_charge. rewrite bind_unfold, read_unfold.
  destruct (charge t h); [|intros [= <- <-]; apply numbers_kept_refl].
  unfold proportional_charge_change. rewrite bind_unfold, read_unfold.
  destruct (load_topology t h); [|intros [= <- <-]; apply numbers_kept_refl].
  rewrite bind_unfold, read_unfold.
  destruct (rmap _ _ h); [|intros [= <- <-]; apply numbers_kept_refl].
  destruct (fis_zero _); [intros [= <- <-]; apply numbers_kept_refl|].
  apply for_numbers_kept. intros x h1 r1 h2.
  rewrite bind_unfold, read_unfold.
  destruct (load_atom x h1) as [A|] eqn:EA;
    [|intros [= <- <-]; apply numbers_kept_refl].
  apply load_atom_Ok in EA. intros [= <- <-].
  intros l'. cbn. destruct (decide (x = l')) as [<-|Hne].
  - rewrite lookup_insert_eq, EA. by constructor.
  - rewrite lookup_insert_ne by done. destruct (atom_objs h1 !! l'); by constructor.
Qed.

(** Readers that look at links only. *)
Lemma bond_neighbours_same h h' a :
  atom_objs h' = atom_objs h → bond_objs h' = bond_objs h →
  bond_neighbours a h' = bond_neighbours a h.
Proof.
  intros HA HB. unfold bond_neighbours. rewrite !rbind_unfold.
  unfold load_atom. rewrite HA. destruct (atom_objs h !! a); [|done].
  rewrite !rbind_unfold. rewrite (rmap_ext load_bond _ h' h); [done|].
  intros b _. unfold load_bond. by rewrite HB.
Qed.

Lemma DFS_same h h' depth atom visited exclude :
  atom_objs h' = atom_objs h → bond_objs h' = bond_objs h →
  Polymer.DFS depth atom visited exclude h' =
  Polymer.DFS depth atom visited exclude h.
Proof. intros HA HB. apply DFS_ext. intros l. by apply bond_neighbours_same. Qed.

Lemma junction_location_extends h h' j b :
  junction_objs h ⊆ junction_objs h' → bond_objs h ⊆ bond_objs h' →
  junction_location j h = Ok b → junction_location j h' = Ok b.
Proof.
  intros HJ HB. unfold junction_location. rewrite !rbind_unfold.
  unfold load_junction. destruct (junction_objs h !! j) as [Jn|] eqn:EJ; [|done].
  rewrite map_subseteq_spec in HJ. rewrite (HJ _ _ EJ).
  destruct (Junction.location Jn) as [l|]; [|done].
  unfold load_bond. destruct (bond_objs h !! l) as [B|] eqn:EB; [|done].
  rewrite map_subseteq_spec in HB. by rewrite (HB _ _ EB).
Qed.

Lemma junction_location_same h h' j :
  junction_objs h' = junction_objs h → bond_objs h' = bond_objs h →
  junction_location j h' = junction_location j h.
Proof.
  intros HJ HB. unfold junction_location. rewrite !rbind_unfold.
  unfold load_junction. rewrite HJ.
  destruct (junction_objs h !! j) as [Jn|]; [|done].
  destruct (Junction.location Jn) as [l|]; [|done].
  unfold load_bond. by rewrite HB.
Qed.

End numbers.

(** ** Partition, merge and charge *)

Section finish_facts.
Context `{PyFloat}.

Ltac step_read E x Ex :=
  rewrite bind_unfold, read_unfold in E;
  match type of E with
  | context [match ?m with Ok _ => _ | Raise _ => _ end] =>
      destruct m as [x|?] eqn:Ex
  end.

Ltac step_run E x h1 Ex :=
  rewrite bind_unfold in E;
  match type of E with
  | context [match ?m with _ => _ end] =>
      destruct m as [[x|?] h1] eqn:Ex; cbv beta iota in E
  end.

Lemma finish_Ok e self nm tj fj Dm charges tb h h' :
  junction_location tj h = Ok tb →
  finish e self nm tj fj Dm charges h = (Ok tt, h') →
  ∃ pjs fb Dp Tp Tc news T',
    let nb := fresh (dom (bond_objs h)) in
    junctions_objs h !! Polymer.junctions self = Some pjs ∧ fj ∈ pjs ∧
    junction_location fj h = Ok fb ∧
    Polymer.DFS (recursion_limit e) (Bond.atom_b fb) ∅
                (Some (Bond.atom_a fb)) h = Ok Dp ∧
    topology_objs h !! Polymer.topology self = Some Tp ∧
    topology_objs h !! Monomer.topology nm = Some Tc ∧
    topology_objs h' !! Polymer.topology self = Some T' ∧
    Topology.atoms T' =
      filter (fun a => (a ∉ Dm) ∧ (a ∉ Dp))
             (Topology.atoms Tp ++ Topology.atoms Tc) ∧
    (∀ b, b ∈ Topology.bonds T' →
          b ∈ Topology.bonds Tp ++ Topology.bonds Tc ++ [nb]) ∧
    ((∀ x A, x ∈ Dm ∨ x ∈ Dp → atom_objs h !! x = Some A → nb ∉ Atom.bonds A) →
     (∀ x, x ∈ Dm ∨ x ∈ Dp → x ≠ Bond.atom_a fb ∧ x ≠ Bond.atom_b tb) →
     nb ∈ Topology.bonds T') ∧
    bond_objs h' =
      <[nb := Bond.mk (Bond.atom_a fb) (Bond.atom_b tb)
                      (PyInt 1) (PyInt 1) (PyInt 1) PyNone]> (bond_objs h) ∧
    junctions_objs h' !! Polymer.junctions self =
      Some (filter (fun j => j ≠ fj) pjs ++ news) ∧
    (∀ j, j ∈ news → junction_objs h !! j = None) ∧
    numbers_kept h h'.
Proof.
  intros Htb E. unfold finish in E.
  step_run E u h1 E1; [|done]. destruct u.
  apply junctions_remove_run in E1
    as [(pjs & Hpjs & Hfj & _ & ->)|(? & [=] & _)].
  set (h1 := with_junctions _ h) in *.
  step_read E fb Efb; [|done].
  step_read E Dp EDp; [|done].
  step_run E u h2 E2; [|done]. destruct u.
  apply topology_add_Ok in E2 as (Tp & Tc & HTp & HTc & ->).
  set (h2 := with_topologies _ h1) in *.
  step_read E njs Enjs; [|done].
  step_run E u h3 E3; [|done]. destruct u.
  eapply register_loop_Ok in E3
    as (HA3 & HB3 & HT3 & HJ3 & Hother3 & news & Hnews & Hfresh);
    [|cbn; apply lookup_insert_eq].
  step_read E fb' Efb'; [|done].
  step_read E tb' Etb'; [|done].
  step_run E nb h4 E4; [|done].
  apply new_Bond_Ok in E4 as (Hnb & A1 & A2 & HA1 & HA2 & ->).
  step_run E u h5 E5; [|done]. destruct u.
  apply bonds_append_Ok in E5 as (T5 & HT5 & ->).
  (* what was read after the merge is what was read before it *)
  assert (Efb0 : junction_location fj h = Ok fb).
  { rewrite <- Efb. symmetry. by apply junction_location_same. }
  assert (EDp0 : Polymer.DFS (recursion_limit e) (Bond.atom_b fb) ∅
                   (Some (Bond.atom_a fb)) h = Ok Dp).
  { rewrite <- EDp. symmetry. by apply DFS_same. }
  assert (HB30 : bond_objs h3 = bond_objs h) by (by rewrite HB3).
  assert (HA30 : atom_objs h3 = atom_objs h) by (by rewrite HA3).
  assert (HJ30 : junction_objs h ⊆ junction_objs h3) by exact HJ3.
  assert (fb' = fb) as ->.
  { eapply (junction_location_extends h h3) in Efb0; [|done|by rewrite HB30].
    congruence. }
  assert (tb' = tb) as ->.
  { eapply (junction_location_extends h h3) in Htb; [|done|by rewrite HB30].
    congruence. }
  rewrite HB30 in Hnb. cbn [topology_objs] in HT5.
  rewrite HT3 in HT5. cbn in HT5. rewrite lookup_insert_eq in HT5.
  injection HT5 as <-. cbn [Topology.atoms Topology.bonds] in E.
  set (B := Bond.mk _ _ _ _ _ _) in *.
  set (hm := with_topologies _ _) in E.
  (* the two discards *)
  step_run E u h6 E6; [|done]. destruct u.
  eapply discard_Ok in E6
    as (T6 & HT6 & Hat6 & Hsub6 & Hkeep6 & Hother6 & P6);
    [|cbn; apply lookup_insert_eq].
  step_run E u h7 E7; [|done]. destruct u.
  eapply discard_Ok in E7
    as (T7 & HT7 & Hat7 & Hsub7 & Hkeep7 & Hother7 & P7); [|exact HT6].
  cbn [Topology.atoms Topology.bonds] in *.
  pose proof (pruned_trans _ _ _ P6 P7) as P67.
  (* the charge *)
  assert (Hlast : topology_objs h' = topology_objs h7 ∧
                  bond_objs h' = bond_objs h7 ∧
                  junctions_objs h' = junctions_objs h7 ∧
                  numbers_kept h7 h').
  { destruct charges as [[mc pc]|].
    - pose proof (set_charge_numbers_kept _ _ _ _ _ E) as N.
      eapply set_charge_retouched in E as (? & ? & ? & ? & _); eauto.
    - injection E as <-. repeat split. apply numbers_kept_refl. }
  destruct Hlast as (HTl & HBl & HJl & Nl).
  exists pjs, fb, Dp, Tp, Tc, news, T7. cbv zeta.
  split; [done|]. split; [done|]. split; [done|]. split; [done|].
  split; [done|]. split; [done|].
  split; [by rewrite HTl|].
  split.
  { rewrite Hat7, Hat6, list_filter_filter. apply list_filter_iff.
    intros a. rewrite !elem_of_elements. tauto. }
  split.
  { intros b Hb%Hsub7%Hsub6. rewrite <- Hnb. by rewrite <- app_assoc in Hb. }
  split.
  { intros Hfree Hends. rewrite <- Hnb.
    assert (Hm : ∀ x A, x ∈ Dm ∨ x ∈ Dp → atom_objs hm !! x = Some A →
                        nb ∉ Atom.bonds A).
    { intros x A Hx HA. destruct (Hends x Hx) as [Hxa Hxb].
      cbn in HA. rewrite !lookup_insert_ne in HA by done.
      rewrite HA30 in HA. rewrite Hnb. eauto. }
    apply Hkeep7.
    - apply Hkeep6.
      + apply elem_of_app. right. by left.
      + intros x A Hx%elem_of_elements. eauto.
    - intros x A Hx%elem_of_elements HA.
      destruct (pruned_lookup _ _ _ _ P6 HA) as (A0 & HA0 & [_ Hless]).
      intros Hin%Hless. revert Hin. eapply Hm; eauto. }
  split.
  { rewrite HBl. destruct P67 as (-> & _). cbn. by rewrite HB30, Hnb. }
  split.
  { rewrite HJl. destruct P67 as (_ & _ & -> & _). exact Hnews. }
  split; [exact Hfresh|].
  eapply numbers_kept_trans; [|exact Nl].
  eapply numbers_kept_trans; [|exact (pruned_numbers_kept _ _ P67)].
  intros l. cbn. rewrite <- HA30.
  destruct (decide (Bond.atom_b tb = l)) as [<-|Hne1].
  - rewrite lookup_insert_eq.
    destruct (decide (Bond.atom_a fb = Bond.atom_b tb)) as [Heq|Hne2].
    + rewrite Heq in HA2. rewrite lookup_insert_eq in HA2.
      injection HA2 as <-. rewrite <- Heq, HA1. by constructor.
    + rewrite lookup_insert_ne in HA2 by done. rewrite HA2. by constructor.
  - rewrite lookup_insert_ne by done.
    destruct (decide (Bond.atom_a fb = l)) as [<-|Hne2].
    + rewrite lookup_insert_eq, HA1. by constructor.
    + rewrite lookup_insert_ne by done.
      destruct (atom_objs h3 !! l); by constructor.
Qed.

End finish_facts.

(** ** What the last phase writes *)

Section finish_frame.
Context `{PyFloat}.
Variables (P : region) (h0 : heap).

Lemma linked_within_pruned h h' U :
  pruned h h' → linked_within h U → linked_within h' U.
Proof.
  intros P1 HU a Ha. destruct (HU a Ha) as (A & HA & Hb).
  destruct P1 as (HB & _ & _ & F). specialize (F a). rewrite HA in F.
  inversion F as [? A' [_ Hless] Heq1 Heq2|]; subst.
  exists A'. split; [done|]. intros b Hbin. rewrite HB. apply Hb. by apply Hless.
Qed.

(** Registering a bond between two atoms of a set keeps the links within
    the set. *)
Lemma linked_within_new_bond h U a b (nb : loc) A1 A2 ty ln fc od :
  linked_within h U → a ∈ U → b ∈ U →
  bond_objs h !! nb = None →
  atom_objs h !! a = Some A1 →
  <[a := register_bond nb A1]> (atom_objs h) !! b = Some A2 →
  linked_within
    (Heap (<[b := register_bond nb A2]> (<[a := register_bond nb A1]> (atom_objs h)))
          (<[nb := Bond.mk a b ty ln fc od]> (bond_objs h))
          (topology_objs h) (junction_objs h) (junctions_objs h)) U.
Proof.
  intros HU Ha Hb Hnb HA1 HA2 x Hx. cbn.
  assert (Hold : ∀ A c, (∃ y, y ∈ U ∧ atom_objs h !! y = Some A) →
            c ∈ Atom.bonds A ++ [nb] →
            ∃ B, <[nb := Bond.mk a b ty ln fc od]> (bond_objs h) !! c = Some B ∧
                 Bond.atom_a B ∈ U ∧ Bond.atom_b B ∈ U).
  { intros A c (y & Hy & HAy) [Hc|Hc%list_elem_of_singleton]%elem_of_app.
    - destruct (HU y Hy) as (A' & HA' & Hbs).
      assert (A' = A) as -> by congruence.
      destruct (Hbs c Hc) as (B & HB & ? & ?). exists B.
      rewrite lookup_insert_ne by congruence. done.
    - subst c. eexists. rewrite lookup_insert_eq. split; [done|]. done. }
  destruct (decide (b = x)) as [<-|Hne1].
  - rewrite lookup_insert_eq. eexists. split; [done|]. cbn.
    intros c Hc. destruct (decide (a = b)) as [Heq|Hne2].
    + rewrite <- Heq in HA2. rewrite lookup_insert_eq in HA2. injection HA2 as <-.
      cbn in Hc. apply elem_of_app in Hc as [Hc|Hc].
      * apply (Hold A1); eauto.
      * apply (Hold A1); eauto. apply elem_of_app. by right.
    + rewrite lookup_insert_ne in HA2 by done. apply (Hold A2); eauto.
  - rewrite lookup_insert_ne by done.
    destruct (decide (a = x)) as [<-|Hne2].
    + rewrite lookup_insert_eq. eexists. split; [done|]. cbn.
      intros c Hc. apply (Hold A1); eauto.
    + rewrite lookup_insert_ne by done.
      destruct (HU x Hx) as (A & HA & Hbs). exists A. split; [done|].
      intros c Hc. apply (Hold A); eauto. apply elem_of_app. by left.
Qed.

Lemma preserves_remove_atom strict t x h :
  ¬ in_topology P t →
  (∀ T A b B, topology_objs h !! t = Some T → x ∈ Topology.atoms T →
     atom_objs h !! x = Some A → b ∈ Atom.bonds A → bond_objs h !! b = Some B →
     ¬ in_atom P (Bond.atom_a B) ∧ ¬ in_atom P (Bond.atom_b B)) →
  preserves P h0 (remove_atom strict t x) h.
Proof.
  intros Ht Hends. unfold remove_atom.
  apply preserves_read_bind. intros T HT%load_topology_Ok.
  case_decide as Hin.
  2:{ destruct strict; [apply preserves_raise|apply preserves_ret]. }
  apply preserves_read_bind. intros A HA%load_atom_Ok.
  apply preserves_bind.
  - apply (preserves_for P h0 (fun h1 => bond_objs h1 = bond_objs h)); [|done].
    intros b h1 Hb HB1. split.
    + apply preserves_remove_bond; [done|]. rewrite HB1. eauto.
    + intros h2 (_ & _ & _ & (-> & _))%remove_bond_Ok. done.
  - intros [] h1 _ _. apply preserves_read_bind. intros T1 _.
    by apply preserves_store_topology.
Qed.

Lemma preserves_discard strict t D (U : gset loc) h :
  ¬ in_topology P t → linked_within h U →
  (∀ a, a ∈ U → ¬ in_atom P a) →
  (∀ T a, topology_objs h !! t = Some T → a ∈ Topology.atoms T → a ∈ U) →
  preserves P h0 (for_ D (remove_atom strict t)) h.
Proof.
  intros Ht HU HUP HT.
  apply (preserves_for P h0 (fun h1 =>
           pruned h h1 ∧
           ∀ T a, topology_objs h1 !! t = Some T → a ∈ Topology.atoms T → a ∈ U)).
  2:{ split; [apply pruned_refl|done]. }
  intros x h1 _ [P1 HT1]. split.
  - apply preserves_remove_atom; [done|].
    intros T A' b B HTx Hx HA' Hb HB.
    destruct (pruned_lookup _ _ _ _ P1 HA') as (A & HA & [_ Hless]).
    destruct (HU x) as (A0 & HA0 & Hbs); [eauto|].
    assert (A0 = A) as -> by congruence.
    destruct (Hbs b) as (B0 & HB0 & ? & ?); [by apply Hless|].
    destruct P1 as (HBeq & _). rewrite HBeq in HB.
    assert (B0 = B) as -> by congruence. auto.
  - intros h2 E2.
    destruct (topology_objs h1 !! t) as [T1|] eqn:ET1.
    + destruct (remove_atom_Ok _ _ _ _ _ _ E2 ET1) as (bs & _ & HT2 & _ & P2).
      split; [by eapply pruned_trans|].
      intros T a HTa Ha. rewrite HT2 in HTa. injection HTa as <-.
      cbn in Ha. apply list_elem_of_filter in Ha as [_ Ha]. eauto.
    + unfold remove_atom in E2. rewrite bind_unfold, read_unfold in E2.
      unfold load_topology in E2. rewrite ET1 in E2. discriminate E2.
Qed.

Lemma preserves_register_loop (tp jp : loc) (njs : list loc) h :
  within P h0 → ¬ in_junctions P jp →
  preserves P h0 (for_ njs (fun junction =>
    j ← read (load_junction junction);
    jb ← read (junction_location junction);
    a ← read (load_atom (Bond.atom_a jb));
    b ← read (load_atom (Bond.atom_b jb));
    bond ← read (get_bond tp (Atom.atom_id a) (Atom.atom_id b));
    new_junction ← new_Junction (Junction.name j) bond;
    junctions_add jp new_junction)) h.
Proof.
  intros HW Hjp. apply (preserves_for P h0 (fun _ => True)); [|done].
  intros x h1 _ _. split; [|done].
  do 5 (apply preserves_read_bind; intros ? _).
  apply preserves_bind; [by apply preserves_new_Junction|].
  intros nj h2 _ _. by apply preserves_junctions_add.
Qed.

(** The last phase writes the polymer's topology, its junction collection,
    atoms of the merged topology, and new objects. *)
Lemma finish_preserves e self nm tj fj Dm charges (U : gset loc) h :
  within P h0 →
  ¬ in_junctions P (Polymer.junctions self) →
  ¬ in_topology P (Polymer.topology self) →
  linked_within h U → (∀ a, a ∈ U → ¬ in_atom P a) →
  (∀ T a, topology_objs h !! Polymer.topology self = Some T →
          a ∈ Topology.atoms T → a ∈ U) →
  (∀ T a, topology_objs h !! Monomer.topology nm = Some T →
          a ∈ Topology.atoms T → a ∈ U) →
  (∀ fb, junction_location fj h = Ok fb → Bond.atom_a fb ∈ U) →
  (∃ tb, junction_location tj h = Ok tb ∧ Bond.atom_b tb ∈ U) →
  preserves P h0 (finish e self nm tj fj Dm charges) h.
Proof.
  intros HW Hjp Htp HU HUP HTpU HTcU Hfa (tb & Htb & HtbU). unfold finish.
  apply preserves_bind; [by apply preserves_junctions_remove|].
  intros [] h1 E1 _.
  apply junctions_remove_run in E1
    as [(pjs & Hpjs & Hfj & _ & ->)|(? & [=] & _)].
  set (h1 := with_junctions _ h).
  apply preserves_read_bind. intros fb Efb.
  assert (Efb0 : junction_location fj h = Ok fb).
  { rewrite <- Efb. symmetry. by apply junction_location_same. }
  apply preserves_read_bind. intros Dp _.
  apply preserves_bind; [by apply preserves_topology_add|].
  intros [] h2 E2 _.
  apply topology_add_Ok in E2 as (Tp & Tc & HTp & HTc & ->).
  set (h2 := with_topologies _ h1).
  apply preserves_read_bind. intros njs _.
  apply preserves_bind; [by apply preserves_register_loop|].
  intros [] h3 E3 _.
  eapply register_loop_Ok in E3
    as (HA3 & HB3 & HT3 & HJ3 & Hother3 & news & Hnews & Hfresh);
    [|cbn; apply lookup_insert_eq].
  assert (HB30 : bond_objs h3 = bond_objs h) by (by rewrite HB3).
  assert (HA30 : atom_objs h3 = atom_objs h) by (by rewrite HA3).
  assert (HJ30 : junction_objs h ⊆ junction_objs h3) by exact HJ3.
  apply preserves_read_bind. intros fb' Efb'.
  assert (fb' = fb) as ->.
  { eapply (junction_location_extends h h3) in Efb0; [|done|by rewrite HB30].
    congruence. }
  apply preserves_read_bind. intros tb' Etb'.
  assert (tb' = tb) as ->.
  { eapply (junction_location_extends h h3) in Htb; [|done|by rewrite HB30].
    congruence. }
  pose proof (Hfa fb Efb0) as HfaU.
  apply preserves_bind; [apply preserves_new_Bond; auto|].
  intros nb h4 E4 _.
  apply new_Bond_Ok in E4 as (Hnb & A1 & A2 & HA1 & HA2 & ->).
  assert (HUm : linked_within
            (Heap (<[Bond.atom_b tb := register_bond nb A2]>
                     (<[Bond.atom_a fb := register_bond nb A1]> (atom_objs h3)))
                  (<[nb := Bond.mk (Bond.atom_a fb) (Bond.atom_b tb)
                                   (PyInt 1) (PyInt 1) (PyInt 1) PyNone]>
                     (bond_objs h3))
                  (topology_objs h3) (junction_objs h3) (junctions_objs h3)) U).
  { apply linked_within_new_bond; auto.
    - eapply linked_within_same; [exact HA30|exact HB30|exact HU].
    - rewrite Hnb. apply not_elem_of_dom, is_fresh. }
  apply preserves_bind; [by apply preserves_bonds_append|].
  intros [] h5 E5 _.
  apply bonds_append_Ok in E5 as (T5 & HT5 & ->).
  cbn [topology_objs] in HT5. rewrite HT3 in HT5. cbn in HT5.
  rewrite lookup_insert_eq in HT5. injection HT5 as <-.
  cbn [Topology.atoms Topology.bonds].
  set (hm := with_topologies _ _).
  assert (HUm' : linked_within hm U) by exact HUm.
  assert (HTm : ∀ T a, topology_objs hm !! Polymer.topology self = Some T →
                       a ∈ Topology.atoms T → a ∈ U).
  { intros T a HT Ha. cbn in HT. rewrite lookup_insert_eq in HT.
    injection HT as <-. cbn in Ha. apply elem_of_app in Ha as [Ha|Ha]; eauto. }
  apply preserves_bind; [by eapply preserves_discard|].
  intros [] h6 E6 _.
  eapply discard_Ok in E6
    as (T6 & HT6 & Hat6 & _ & _ & _ & P6); [|cbn; apply lookup_insert_eq].
  cbn [Topology.atoms] in Hat6.
  assert (HT6U : ∀ T a, topology_objs h6 !! Polymer.topology self = Some T →
                        a ∈ Topology.atoms T → a ∈ U).
  { intros T a HT Ha. rewrite HT6 in HT. injection HT as <-.
    rewrite Hat6 in Ha. apply list_elem_of_filter in Ha as [_ Ha].
    apply elem_of_app in Ha as [Ha|Ha]; eauto. }
  apply preserves_bind.
  { eapply preserves_discard; eauto. by eapply linked_within_pruned. }
  intros [] h7 E7 _.
  eapply discard_Ok in E7 as (T7 & HT7 & Hat7 & _ & _ & _ & P7); [|exact HT6].
  destruct charges as [[mc pc]|]; [|apply preserves_ret].
  apply preserves_set_charge. intros T a HT Ha.
  rewrite HT7 in HT. injection HT as <-. rewrite Hat7 in Ha.
  apply list_elem_of_filter in Ha as [_ Ha]. eauto.
Qed.

End finish_frame.

(** ** A run of extend, phase by phase *)

Section extend_run.
Context `{PyFloat}.

Lemma random_choice_run {A} draw (l : list A) h r h' :
  Polymer.random_choice draw l h = (r, h') →
  h' = h ∧ ∀ x, r = Ok x → l !! (draw `mod` length l)%nat = Some x.
Proof.
  unfold Polymer.random_choice.
  destruct (l !! (draw `mod` length l)%nat) as [x|]; intros [= <- <-].
  - split; [done|]. by intros ? [= <-].
  - split; [done|]. intros ? [=].
Qed.

(** The store in which the last phase starts: the copy of the monomer,
    retouched, its chosen junction taken out of its collection. *)
Definition selected (monomer : Monomer.t) (T : Topology.t) (J : list loc)
    (tj : loc) (h h1 h2 : heap) : Prop :=
  retouched (copy_atoms h T) (copied monomer T J h) h1 ∧
  h2 = with_junctions
         (insert (Monomer.junctions (copy_of monomer h))
                 (filter (fun j' => j' ≠ tj) (copy_junctions (offsets_of h) J))) h1.

(** A run of extend either raises before the last phase, with all objects
    as they were, or reaches the last phase with both junctions chosen. *)
Lemma extend_run e self monomer from_name to_name keep h r h' :
  Polymer.extend e self monomer from_name to_name keep h = (r, h') →
  ((∃ ex, r = Raise ex) ∧ extends h h') ∨
  ∃ T J tn tj tb Dm pjs fn fj h1 h2 charges,
    topology_objs h !! Monomer.topology monomer = Some T ∧
    junctions_objs h !! Monomer.junctions monomer = Some J ∧
    selected monomer T J tj h h1 h2 ∧
    named to_name (copy_junctions (offsets_of h) J) h1 = Ok tn ∧
    head tn = Some tj ∧
    junction_location tj h2 = Ok tb ∧
    Polymer.DFS (recursion_limit e) (Bond.atom_a tb) ∅
                (Some (Bond.atom_b tb)) h2 = Ok Dm ∧
    junctions_objs h2 !! Polymer.junctions self = Some pjs ∧
    named from_name pjs h2 = Ok fn ∧
    fn !! (rnd e `mod` length fn)%nat = Some fj ∧
    finish e self (copy_of monomer h) tj fj Dm charges h2 = (r, h').
Proof.
  rewrite extend_phases. unfold extend_in_phases. rewrite bind_unfold.
  destruct (prepare e self monomer to_name keep h)
    as [[[[c nm] tn]|ex] h1] eqn:Eprep.
  2:{ intros [= <- <-]. left. split; [eauto|].
      apply prepare_run in Eprep as [[-> _]|(T & J & _ & _ & R1 & _)].
      - apply extends_refl.
      - by eapply retouched_copied_extends. }
  apply prepare_run in Eprep as [[_ [? ?]]|(T & J & HT & HJ & R1 & Hok)]; [done|].
  destruct (Hok c nm tn eq_refl) as [-> Htn].
  pose proof (retouched_copied_extends _ _ _ _ _ R1) as Hext1.
  destruct (head tn) as [tj|] eqn:Ehead.
  2:{ intros [= <- <-]. left. eauto. }
  rewrite bind_unfold.
  destruct (select e self (copy_of monomer h) tj from_name h1)
    as [[[Dm fn]|ex] h2] eqn:Esel.
  all: apply select_run in Esel as [Hh2 Hsel].
  all: assert (Hext2 : extends h h2).
  1,3: destruct Hh2 as [->|(L & HL & _ & ->)]; [done|];
       apply extends_with_junctions; [done|apply moved_fresh].
  2:{ intros [= <- <-]. left. eauto. }
  destruct (Hsel Dm fn eq_refl)
    as ((L & HL & HtjL & Hh2') & tb & pjs & Htb & HDm & Hpjs & Hfn).
  rewrite bind_unfold.
  destruct (Polymer.random_choice (rnd e) fn h2) as [[fj|ex] h3] eqn:Ech;
    apply random_choice_run in Ech as [-> Hfj].
  2:{ intros [= <- <-]. left. eauto. }
  intros Efin. right.
  exists T, J, tn, tj, tb, Dm, pjs, fn, fj, h1, h2, c.
  split; [done|]. split; [done|]. split.
  { split; [done|].
    assert (HJ1 : junctions_objs h1 !! Monomer.junctions (copy_of monomer h) =
                  Some (copy_junctions (offsets_of h) J)).
    { destruct R1 as (_ & _ & _ & -> & _). by apply copied_junctions. }
    rewrite HJ1 in HL. injection HL as <-. done. }
  split; [done|]. split; [done|]. split; [done|]. split; [done|].
  split; [done|]. split; [done|]. split; [by apply Hfj|done].
Qed.

End extend_run.

(** ** The store when both junctions are chosen *)

Section selected_facts.
Context `{PyFloat}.
Variables (monomer : Monomer.t) (T : Topology.t) (J : list loc) (tj : loc).
Variables (h h1 h2 : heap).
Hypothesis Hsel : selected monomer T J tj h h1 h2.

Lemma selected_atoms : atom_objs h2 = atom_objs h1.
Proof. destruct Hsel as [_ ->]. done. Qed.

Lemma selected_bonds : bond_objs h2 = bond_objs (copied monomer T J h).
Proof. destruct Hsel as [R1 ->]. by destruct R1 as (? & _). Qed.

Lemma selected_topologies : topology_objs h2 = topology_objs (copied monomer T J h).
Proof. destruct Hsel as [R1 ->]. by destruct R1 as (_ & ? & _). Qed.

Lemma selected_junction : junction_objs h2 = junction_objs (copied monomer T J h).
Proof. destruct Hsel as [R1 ->]. by destruct R1 as (_ & _ & ? & _). Qed.

Lemma selected_extends : extends h h2.
Proof.
  destruct Hsel as [R1 ->].
  apply extends_with_junctions; [|apply moved_fresh].
  by eapply retouched_copied_extends.
Qed.

Lemma selected_copy_topology :
  topology_objs h !! Monomer.topology monomer = Some T →
  topology_objs h2 !! Monomer.topology (copy_of monomer h) =
  Some (copy_topology (offsets_of h) T).
Proof. intros HT. rewrite selected_topologies. by apply copied_topology. Qed.

Lemma selected_linked_copy :
  links_ok h T →
  linked_within h2
    (list_to_set (moved (off_atom (offsets_of h)) <$> Topology.atoms T)).
Proof.
  intros HT. destruct Hsel as [R1 ->].
  apply (linked_within_same h1); [reflexivity|reflexivity|].
  eapply linked_within_retouched; [exact R1|]. by apply linked_within_copied.
Qed.

Lemma selected_linked_old U : linked_within h U → linked_within h2 U.
Proof. apply linked_within_extends, selected_extends. Qed.

(** The chosen junction of the copy is the copy of a junction of the
    monomer, and it marks the copy of the bond that one marks. *)
Lemma selected_to_junction tb :
  tj ∈ copy_junctions (offsets_of h) J →
  junction_location tj h2 = Ok tb →
  ∃ j0 Jn0 b0 B0,
    tj = moved (off_junction (offsets_of h)) j0 ∧ j0 ∈ J ∧
    junction_objs h !! j0 = Some Jn0 ∧ Junction.location Jn0 = Some b0 ∧
    b0 ∈ Topology.bonds T ∧ bond_objs h !! b0 = Some B0 ∧
    tb = copy_bond (offsets_of h) B0.
Proof.
  intros (j0 & Htj & Hj0)%list_elem_of_fmap.
  unfold junction_location. rewrite rbind_unfold. unfold load_junction.
  rewrite selected_junction, Htj.
  destruct (junction_objs (copied monomer T J h) !! _) as [Jn|] eqn:EJ; [|done].
  cbn -[clone_objs] in EJ.
  apply clone_lookup_inv in EJ as [EJ|(j1 & Jn0 & Hj1 & Heq & HJn0 & ->)].
  { by rewrite moved_fresh in EJ. }
  apply (inj _) in Heq as <-. cbn [copy_junction Junction.location].
  destruct (Junction.location Jn0) as [b0|] eqn:Eloc; [|done].
  cbn [fmap option_fmap option_map].
  unfold load_bond. rewrite selected_bonds.
  destruct (bond_objs (copied monomer T J h) !! _) as [B|] eqn:EB; [|done].
  cbn -[clone_objs] in EB.
  apply clone_lookup_inv in EB as [EB|(b1 & B0 & Hb1 & Heq & HB0 & ->)].
  { by rewrite moved_fresh in EB. }
  apply (inj _) in Heq as <-. intros [= <-].
  exists j0, Jn0, b0, B0. done.
Qed.

End selected_facts.

(** ** What extend leaves alone *)

Section extend_frame.
Context `{PyFloat}.

Lemma named_elem name js h found j :
  named name js h = Ok found → j ∈ found → j ∈ js.
Proof.
  unfold named. intros E Hj.
  by apply (rfilter_Ok_elem _ _ _ _ j E) in Hj as [? _].
Qed.

Lemma head_elem {A} (l : list A) x : head l = Some x → x ∈ l.
Proof. destruct l; intros [= ->]. by left. Qed.

Lemma links_ok_bond h T b :
  links_ok h T → b ∈ Topology.bonds T →
  ∃ B, bond_objs h !! b = Some B ∧
       Bond.atom_a B ∈ Topology.atoms T ∧ Bond.atom_b B ∈ Topology.atoms T ∧
       Bond.atom_a B ≠ Bond.atom_b B.
Proof.
  intros [_ Hbd] Hb. rewrite Forall_forall in Hbd. specialize (Hbd b Hb).
  unfold bond_linked in Hbd. destruct (bond_objs h !! b) as [B|]; [|done].
  by exists B.
Qed.

(** A junction of a well-formed collection has a location, and it joins two
    different atoms of the topology. *)
Lemma placed_location h js t J T j :
  junctions_ok h js t → links_ok h T →
  junctions_objs h !! js = Some J → topology_objs h !! t = Some T → j ∈ J →
  ∃ B, junction_location j h = Ok B ∧
       Bond.atom_a B ∈ Topology.atoms T ∧ Bond.atom_b B ∈ Topology.atoms T ∧
       Bond.atom_a B ≠ Bond.atom_b B.
Proof.
  unfold junctions_ok. intros Hok HL HJ HT Hj. rewrite HJ, HT in Hok.
  rewrite Forall_forall in Hok. specialize (Hok j Hj).
  unfold junction_placed in Hok.
  destruct (junction_objs h !! j) as [Jn|] eqn:EJn; [|done].
  destruct (Junction.location Jn) as [b|] eqn:Eloc; [|done].
  destruct (links_ok_bond h T b HL Hok) as (B & HB & ?).
  exists B. split; [|done].
  unfold junction_location. rewrite rbind_unfold.
  rewrite (proj2 (load_junction_Ok _ _ _) EJn), Eloc.
  by apply load_bond_Ok.
Qed.

(** extend writes the polymer's topology, its junction collection, its
    atoms, and objects it makes; whatever else the store holds is left as it
    was, whether the call returns or raises. *)
Lemma extend_keeps P e self monomer from_name to_name keep h r h' :
  within P h →
  topology_ok h (Polymer.topology self) →
  topology_ok h (Monomer.topology monomer) →
  junctions_ok h (Polymer.junctions self) (Polymer.topology self) →
  ¬ in_topology P (Polymer.topology self) →
  ¬ in_junctions P (Polymer.junctions self) →
  (∀ T a, topology_objs h !! Polymer.topology self = Some T →
          a ∈ Topology.atoms T → ¬ in_atom P a) →
  Polymer.extend e self monomer from_name to_name keep h = (r, h') →
  keeps P h h'.
Proof.
  intros HW Htp Htm Hjp HPt HPj HPa E.
  apply extend_run in E
    as [[_ Hext]|(T & J & tn & tj & tb & Dm & pjs & fn & fj & h1 & h2 & c &
                  HT & HJ & Hsel & Htn & Hhead & Htb & HDm & Hpjs & Hfn & Hfj &
                  Efin)].
  { eapply keeps_extends; eauto using keeps_refl. }
  unfold topology_ok in Htp, Htm. rewrite HT in Htm. destruct Htm as [_ Lm].
  destruct (topology_objs h !! Polymer.topology self) as [Tp|] eqn:ETp; [|done].
  destruct Htp as [_ Lp].
  pose proof (selected_extends _ _ _ _ _ _ _ Hsel) as Hext.
  assert (ETp2 : topology_objs h2 !! Polymer.topology self = Some Tp).
  { destruct Hext as (_ & _ & HC & _). by eapply lookup_weaken. }
  set (U := (list_to_set (Topology.atoms Tp) ∪
             list_to_set (moved (off_atom (offsets_of h)) <$> Topology.atoms T)
             : gset loc)).
  refine (finish_preserves P h e self _ tj fj Dm c U h2
            HW HPj HPt _ _ _ _ _ _ r h' Efin _).
  - apply linked_within_union.
    + eapply selected_linked_old; [exact Hsel|]. by apply links_ok_within.
    + by eapply selected_linked_copy.
  - intros a [Ha|Ha]%elem_of_union.
    + apply elem_of_list_to_set in Ha. by eapply HPa.
    + apply elem_of_list_to_set, list_elem_of_fmap in Ha as (a0 & -> & _).
      intros HPin. destruct HW as (W1 & _). destruct (W1 _ HPin) as [v Hv].
      pose proof (moved_fresh (atom_objs h) a0) as Hf.
      unfold offsets_of in Hv. cbn [off_atom] in Hv. congruence.
  - intros T0 a HT0 Ha. rewrite ETp2 in HT0. injection HT0 as <-.
    apply elem_of_union_l. by apply elem_of_list_to_set.
  - intros T0 a. rewrite (selected_copy_topology _ _ _ _ _ _ _ Hsel HT).
    intros [= <-] Ha. apply elem_of_union_r. by apply elem_of_list_to_set.
  - intros fb Efb.
    assert (Hin : fj ∈ pjs).
    { eapply named_elem; [exact Hfn|]. by eapply list_elem_of_lookup_2. }
    assert (Epjs : junctions_objs h !! Polymer.junctions self = Some pjs).
    { unfold junctions_ok in Hjp.
      destruct (junctions_objs h !! Polymer.junctions self) as [pjs0|] eqn:Epjs;
        [|done].
      destruct Hext as (_ & _ & _ & _ & HE).
      eapply lookup_weaken in Epjs; [|exact HE]. congruence. }
    destruct (placed_location h (Polymer.junctions self) (Polymer.topology self)
                pjs Tp fj Hjp Lp Epjs ETp Hin) as (B & HB & Ha & _).
    destruct Hext as (_ & HEb & _ & HEj & _).
    eapply junction_location_extends in HB; [|exact HEj|exact HEb].
    rewrite HB in Efb. injection Efb as <-.
    apply elem_of_union_l. by apply elem_of_list_to_set.
  - exists tb. split; [done|].
    destruct (selected_to_junction _ _ _ _ _ _ _ Hsel tb)
      as (j0 & Jn0 & b0 & B0 & _ & _ & _ & _ & Hb0 & HB0 & ->); [|done|].
    { eapply named_elem; [exact Htn|]. by apply head_elem. }
    destruct (links_ok_bond h T b0 Lm Hb0) as (B & HB & _ & Hb & _).
    rewrite HB0 in HB. injection HB as <-.
    apply elem_of_union_r, elem_of_list_to_set, list_elem_of_fmap.
    by exists (Bond.atom_b B0).
  - eapply keeps_extends; eauto using keeps_refl.
Qed.

End extend_frame.

(** ** The copy a polymer is made of *)

Section deep_copy.
Context `{PyFloat}.

Lemma links_ok_extends h h' T : extends h h' → links_ok h T → links_ok h' T.
Proof.
  intros (HA & HB & _) [Hat Hbd]. split.
  - eapply Forall_impl; [exact Hat|]. intros a. unfold atom_linked.
    destruct (atom_objs h !! a) as [A|] eqn:EA; [|done].
    by rewrite (lookup_weaken _ _ _ _ EA HA).
  - eapply Forall_impl; [exact Hbd|]. intros b. unfold bond_linked.
    destruct (bond_objs h !! b) as [B|] eqn:EB; [|done].
    by rewrite (lookup_weaken _ _ _ _ EB HB).
Qed.

Lemma topology_ok_extends h h' t :
  extends h h' → topology_ok h t → topology_ok h' t.
Proof.
  intros Hext. unfold topology_ok.
  destruct (topology_objs h !! t) as [T|] eqn:ET; [|done].
  destruct Hext as (HA & HB & HC & HD).
  rewrite (lookup_weaken _ _ _ _ ET HC).
  intros [? ?]. split; [done|]. by eapply links_ok_extends.
Qed.

Lemma junctions_ok_extends h h' js t :
  extends h h' → junctions_ok h js t → junctions_ok h' js t.
Proof.
  intros (HA & HB & HC & HD & HE). unfold junctions_ok.
  destruct (junctions_objs h !! js) as [J|] eqn:EJ; [|done].
  destruct (topology_objs h !! t) as [T|] eqn:ET; [|done].
  rewrite (lookup_weaken _ _ _ _ EJ HE), (lookup_weaken _ _ _ _ ET HC).
  intros HF. eapply Forall_impl; [exact HF|]. intros j. unfold junction_placed.
  destruct (junction_objs h !! j) as [Jn|] eqn:EJn; [|done].
  by rewrite (lookup_weaken _ _ _ _ EJn HD).
Qed.

(** The copy of a well-formed topology is well-formed. *)
Lemma copied_topology_ok m T J h :
  topology_objs h !! Monomer.topology m = Some T →
  topology_ok h (Monomer.topology m) →
  topology_ok (copied m T J h) (Monomer.topology (copy_of m h)).
Proof.
  intros HT. unfold topology_ok at 1. rewrite HT. intros [ND [Hat Hbd]].
  unfold topology_ok. rewrite (copied_topology m T J h HT).
  cbn [copy_topology Topology.atoms Topology.bonds]. split.
  { apply NoDup_fmap; [apply _|done]. }
  split; apply Forall_fmap, Forall_forall.
  - intros a Ha. rewrite Forall_forall in Hat. specialize (Hat a Ha).
    unfold atom_linked in *. cbn [compose].
    destruct (atom_objs h !! a) as [A|] eqn:EA; [|done].
    rewrite (copied_atom m T J h a A Ha EA). cbn.
    apply Forall_fmap. eapply Forall_impl; [exact Hat|]. intros b Hb. cbn.
    apply list_elem_of_fmap. eauto.
  - intros b Hb. rewrite Forall_forall in Hbd. specialize (Hbd b Hb).
    unfold bond_linked in *. cbn [compose].
    destruct (bond_objs h !! b) as [B|] eqn:EB; [|done].
    rewrite (copied_bond m T J h b B Hb EB). cbn.
    destruct Hbd as (Ha1 & Ha2 & Hne). repeat split.
    + apply list_elem_of_fmap. eauto.
    + apply list_elem_of_fmap. eauto.
    + intros Heq. by apply (inj _) in Heq.
Qed.

Lemma copied_junctions_ok m T J h :
  topology_objs h !! Monomer.topology m = Some T →
  junctions_objs h !! Monomer.junctions m = Some J →
  junctions_ok h (Monomer.junctions m) (Monomer.topology m) →
  junctions_ok (copied m T J h) (Monomer.junctions (copy_of m h))
               (Monomer.topology (copy_of m h)).
Proof.
  intros HT HJ. unfold junctions_ok at 1. rewrite HT, HJ. intros HF.
  unfold junctions_ok.
  rewrite (copied_topology m T J h HT), (copied_junctions m T J h HJ).
  apply Forall_fmap, Forall_forall. intros j Hj.
  rewrite Forall_forall in HF. specialize (HF j Hj).
  unfold junction_placed in *. cbn [compose].
  destruct (junction_objs h !! j) as [Jn|] eqn:EJn; [|done].
  rewrite (copied_junction m T J h j Jn Hj EJn). cbn.
  destruct (Junction.location Jn) as [b|]; [|done]. cbn.
  apply list_elem_of_fmap. eauto.
Qed.

Lemma init_run monomer h p h1 :
  Polymer.__init__ monomer h = (Ok p, h1) →
  ∃ T J, topology_objs h !! Monomer.topology monomer = Some T ∧
         junctions_objs h !! Monomer.junctions monomer = Some J ∧
         p = Polymer.mk (Monomer.topology (copy_of monomer h))
                        (Monomer.junctions (copy_of monomer h)) ∧
         h1 = copied monomer T J h.
Proof.
  unfold Polymer.__init__. rewrite bind_unfold.
  destruct (monomer_copy monomer h) as [[nm|ex] h0] eqn:E; [|done].
  apply monomer_copy_run in E as [(T & J & HT & HJ & [= ->] & ->)|(? & [=] & _)].
  intros [= <- <-]. by exists T, J.
Qed.

End deep_copy.

(** ** The search on a copy *)

Section search_copy.
Context `{PyFloat}.

(** Within a set of atoms that the neighbour query does not lead out of, the
    search depends on the neighbours of these atoms only. *)
Lemma DFS_local h h' (U : gset loc) depth atom visited exclude :
  closed h U → (∀ l, l ∈ U → bond_neighbours l h' = bond_neighbours l h) →
  atom ∈ U →
  Polymer.DFS depth atom visited exclude h' =
  Polymer.DFS depth atom visited exclude h.
Proof.
  intros HU Hn. revert atom visited.
  induction depth as [|depth IH]; intros atom visited Ha; [done|].
  rewrite !DFS_unfold, Hn by done.
  destruct (closed_neighbours h U atom HU Ha) as (ns & -> & Hns).
  generalize (visited ∪ {[atom]}). clear visited.
  induction ns as [|n ns IHns]; intros W; [done|].
  cbn [rfold]. rewrite !rbind_unfold.
  assert (DFS_step depth exclude W n h' = DFS_step depth exclude W n h) as ->.
  { unfold DFS_step. case_decide; [|done]. apply IH, Hns. by left. }
  destruct (DFS_step depth exclude W n h); [|done].
  apply IHns. intros x Hx. apply Hns. by right.
Qed.

(** A store that holds, under other names, the atoms of [U] with the
    neighbours they have in [h]: the search there finds the same atoms,
    under their other names. *)
Lemma DFS_renamed (f : loc → loc) `{!Inj (=) (=) f} h h' (U : gset loc)
    depth atom visited exclude :
  closed h U →
  (∀ l ns, l ∈ U → bond_neighbours l h = Ok ns →
           bond_neighbours (f l) h' = Ok (f <$> ns)) →
  atom ∈ U →
  Polymer.DFS depth (f atom) (set_map f visited) (f <$> exclude) h' =
  match Polymer.DFS depth atom visited exclude h with
  | Ok found => Ok (set_map f found)
  | Raise ex => Raise ex
  end.
Proof.
  intros HU Hn. revert atom visited.
  induction depth as [|depth IH]; intros atom visited Ha; [done|].
  rewrite !DFS_unfold.
  destruct (closed_neighbours h U atom HU Ha) as (ns & Ens & Hns).
  rewrite Ens, (Hn atom ns Ha Ens).
  replace (set_map f visited ∪ {[f atom]} : gset loc)
    with (set_map f (visited ∪ {[atom]}) : gset loc)
    by (by rewrite set_map_union_L, set_map_singleton_L).
  generalize (visited ∪ {[atom]}). clear visited Ens.
  induction ns as [|n ns IHns]; intros W; [done|].
  cbn [rfold fmap list_fmap]. rewrite !rbind_unfold.
  assert (DFS_step depth (f <$> exclude) (set_map f W) (f n) h' =
          match DFS_step depth exclude W n h with
          | Ok found => Ok (set_map f found)
          | Raise ex => Raise ex
          end) as ->.
  { unfold DFS_step. case_decide as Hd; case_decide as Hd'.
    - apply IH, Hns. by left.
    - exfalso. apply Hd'. destruct Hd as [Hne Hnin]. split.
      + intros Heq. apply Hne. by rewrite <- Heq.
      + intros Hin. apply Hnin. apply elem_of_map. eauto.
    - exfalso. apply Hd. destruct Hd' as [Hne Hnin]. split.
      + destruct exclude as [x|]; [|done]. cbn. intros [= Heq].
        apply (inj f) in Heq. by subst.
      + intros (y & Heq & Hy)%elem_of_map. apply (inj f) in Heq. by subst.
    - done. }
  destruct (DFS_step depth exclude W n h) as [W'|]; [|done].
  apply IHns. intros x Hx. apply Hns. by right.
Qed.

(** The copy of an atom has the copies of the atom's neighbours. *)
Lemma bond_neighbours_copied m T J h a ns :
  links_ok h T → a ∈ Topology.atoms T → bond_neighbours a h = Ok ns →
  bond_neighbours (moved (off_atom (offsets_of h)) a) (copied m T J h) =
  Ok (moved (off_atom (offsets_of h)) <$> ns).
Proof.
  intros [Hat _] Ha. unfold bond_neighbours. rewrite !rbind_unfold.
  destruct (load_atom a h) as [A|] eqn:EA; [|done].
  apply load_atom_Ok in EA.
  rewrite (proj2 (load_atom_Ok _ _ _) (copied_atom m T J h a A Ha EA)).
  rewrite Forall_forall in Hat. specialize (Hat a Ha).
  unfold atom_linked in Hat. rewrite EA in Hat.
  rewrite !rbind_unfold.
  destruct (rmap load_bond (Atom.bonds A) h) as [Bs|] eqn:EBs; [|done].
  assert (rmap load_bond (Atom.bonds (copy_atom (offsets_of h) A))
               (copied m T J h) = Ok (copy_bond (offsets_of h) <$> Bs)) as ->.
  { cbn [copy_atom Atom.set_bonds Atom.bonds]. clear EA.
    revert Bs EBs. induction (Atom.bonds A) as [|b bs IH]; intros Bs.
    - cbn. rewrite rret_unfold. by intros [= <-].
    - cbn [rmap fmap list_fmap]. rewrite !rbind_unfold.
      destruct (load_bond b h) as [B|] eqn:EB; [|done].
      apply load_bond_Ok in EB. apply Forall_cons in Hat as [Hb Hbs].
      rewrite (proj2 (load_bond_Ok _ _ _) (copied_bond m T J h b B Hb EB)).
      rewrite !rbind_unfold.
      destruct (rmap load_bond bs h) as [Bs'|]; [|done].
      rewrite (IH Hbs Bs' eq_refl). rewrite !rret_unfold. by intros [= <-]. }
  rewrite !rret_unfold. intros [= <-]. f_equal.
  rewrite <- !list_fmap_compose. apply list_fmap_ext. intros _ B _. cbn.
  unfold Bond.other_atom. cbn [copy_bond Bond.atom_a Bond.atom_b].
  repeat case_decide; try done.
  - exfalso. by apply (inj _) in H0.
  - exfalso. by subst.
Qed.

End search_copy.

(** ** The junctions chosen and the fragments found *)

Section chosen.
Context `{PyFloat}.

Lemma rfilter_total {A} (p : A → R bool) l h :
  (∀ x, x ∈ l → ∃ b, p x h = Ok b) → ∃ ys, rfilter p l h = Ok ys.
Proof.
  induction l as [|x l IH]; intros Hp; [by exists []|].
  destruct (Hp x) as [b Hb]; [by left|].
  destruct IH as [ys Hys]; [intros; apply Hp; by right|].
  exists (if b then x :: ys else ys). cbn [rfilter].
  by rewrite rbind_unfold, Hb, rbind_unfold, Hys.
Qed.

(** The junctions of a well-formed collection can be searched by name. *)
Lemma named_total h js t J name :
  junctions_ok h js t → junctions_objs h !! js = Some J →
  ∃ found, named name J h = Ok found.
Proof.
  unfold junctions_ok. intros Hok HJ. rewrite HJ in Hok.
  destruct (topology_objs h !! t) as [T|]; [|done].
  apply rfilter_total. intros j Hj. rewrite Forall_forall in Hok.
  specialize (Hok j Hj). unfold junction_placed in Hok.
  destruct (junction_objs h !! j) as [Jn|] eqn:EJn; [|done].
  rewrite rbind_unfold, (proj2 (load_junction_Ok _ _ _) EJn). eauto.
Qed.

Lemma bond_neighbours_extends h h' a ns :
  extends h h' → bond_neighbours a h = Ok ns → bond_neighbours a h' = Ok ns.
Proof.
  intros (HA & HB & _). unfold bond_neighbours. rewrite !rbind_unfold.
  destruct (load_atom a h) as [A|] eqn:EA; [|done]. apply load_atom_Ok in EA.
  rewrite (proj2 (load_atom_Ok _ _ _) (lookup_weaken _ _ _ _ EA HA)).
  rewrite !rbind_unfold.
  destruct (rmap load_bond (Atom.bonds A) h) as [Bs|] eqn:EBs; [|done].
  assert (rmap load_bond (Atom.bonds A) h' = Ok Bs) as ->; [|done].
  rewrite <- EBs. symmetry. apply rmap_ext. intros b Hb.
  apply rmap_Ok in EBs. apply list_elem_of_lookup in Hb as [i Hi].
  destruct (Forall2_lookup_l _ _ _ _ _ EBs Hi) as (B & _ & HBb).
  rewrite HBb. apply load_bond_Ok in HBb. symmetry.
  apply load_bond_Ok. by eapply lookup_weaken.
Qed.

(** The junction chosen on the copy and the fragment found there are the
    copies of the first junction of that name of the monomer and of the
    fragment that the same search finds on the monomer. *)
Lemma chosen_to depth monomer T J tj tn tb Dm to_name h h1 h2 :
  topology_ok h (Monomer.topology monomer) →
  junctions_ok h (Monomer.junctions monomer) (Monomer.topology monomer) →
  topology_objs h !! Monomer.topology monomer = Some T →
  junctions_objs h !! Monomer.junctions monomer = Some J →
  selected monomer T J tj h h1 h2 →
  named to_name (copy_junctions (offsets_of h) J) h1 = Ok tn →
  head tn = Some tj →
  junction_location tj h2 = Ok tb →
  Polymer.DFS depth (Bond.atom_a tb) ∅ (Some (Bond.atom_b tb)) h2 = Ok Dm →
  ∃ tn0 tj0 tb0 Dm0,
    named to_name J h = Ok tn0 ∧ head tn0 = Some tj0 ∧
    junction_location tj0 h = Ok tb0 ∧
    Polymer.DFS depth (Bond.atom_a tb0) ∅ (Some (Bond.atom_b tb0)) h = Ok Dm0 ∧
    tj = moved (off_junction (offsets_of h)) tj0 ∧
    tb = copy_bond (offsets_of h) tb0 ∧
    Dm = set_map (moved (off_atom (offsets_of h))) Dm0 ∧
    Bond.atom_a tb0 ∈ Topology.atoms T ∧ Bond.atom_b tb0 ∈ Topology.atoms T ∧
    Bond.atom_a tb0 ≠ Bond.atom_b tb0.
Proof.
  intros Htm Hjm HT HJ Hsel Htn Hhead Htb HDm.
  unfold topology_ok in Htm. rewrite HT in Htm. destruct Htm as [_ Lm].
  destruct (named_total h _ _ J to_name Hjm HJ) as [tn0 Htn0].
  pose proof (proj1 Hsel) as R1.
  pose proof (named_copied monomer T J h to_name J tn0 (reflexivity _) Htn0) as Hc.
  rewrite <- (retouched_named _ _ _ _ _ R1), Htn in Hc. injection Hc as Hc.
  subst tn.
  destruct tn0 as [|tj0 tn0]; [done|]. injection Hhead as <-.
  assert (Hin0 : tj0 ∈ J) by (eapply named_elem; [exact Htn0|by left]).
  destruct (selected_to_junction _ _ _ _ _ _ _ Hsel tb)
    as (j0 & Jn0 & b0 & B0 & Heq & Hj0 & HJn0 & Hloc & Hb0 & HB0 & ->);
    [apply list_elem_of_fmap; eauto|done|].
  apply (inj _) in Heq as <-.
  destruct (links_ok_bond h T b0 Lm Hb0) as (B & HB & Ha & Hb & Hne).
  rewrite HB0 in HB. injection HB as <-.
  cbn [copy_bond Bond.atom_a Bond.atom_b] in HDm.
  set (mv := moved (off_atom (offsets_of h))) in *.
  assert (Hren : Polymer.DFS depth (mv (Bond.atom_a B0))
                   (set_map mv (∅ : gset loc))
                   (mv <$> Some (Bond.atom_b B0)) h2 =
                 match Polymer.DFS depth (Bond.atom_a B0) ∅
                                   (Some (Bond.atom_b B0)) h with
                 | Ok found => Ok (set_map mv found)
                 | Raise ex => Raise ex
                 end).
  { apply (DFS_renamed mv h h2 (list_to_set (Topology.atoms T))).
    - by apply closed_of_links, links_ok_within.
    - intros l ns Hl%elem_of_list_to_set Hns.
      rewrite (bond_neighbours_same h1 h2).
      + rewrite (retouched_bond_neighbours _ _ _ _ R1).
        by apply bond_neighbours_copied.
      + by eapply selected_atoms.
      + rewrite (selected_bonds _ _ _ _ _ _ _ Hsel). symmetry. apply R1.
    - by apply elem_of_list_to_set. }
  rewrite set_map_empty in Hren. cbn [fmap option_fmap option_map] in Hren.
  rewrite HDm in Hren.
  destruct (Polymer.DFS depth (Bond.atom_a B0) ∅ (Some (Bond.atom_b B0)) h)
    as [Dm0|] eqn:EDm0; [|done].
  injection Hren as Hren.
  exists (tj0 :: tn0), tj0, B0, Dm0. repeat split; try done.
  unfold junction_location. rewrite rbind_unfold.
  rewrite (proj2 (load_junction_Ok _ _ _) HJn0), Hloc. by apply load_bond_Ok.
Qed.

(** The junction chosen on the polymer and the fragment found there are
    what the store before the call gives. *)
Lemma chosen_from depth self Tp pjs fn fj fb Dp from_name h h2 :
  topology_ok h (Polymer.topology self) →
  junctions_ok h (Polymer.junctions self) (Polymer.topology self) →
  extends h h2 →
  topology_objs h !! Polymer.topology self = Some Tp →
  junctions_objs h2 !! Polymer.junctions self = Some pjs →
  named from_name pjs h2 = Ok fn → fj ∈ fn →
  junction_location fj h2 = Ok fb →
  Polymer.DFS depth (Bond.atom_b fb) ∅ (Some (Bond.atom_a fb)) h2 = Ok Dp →
  junctions_objs h !! Polymer.junctions self = Some pjs ∧
  named from_name pjs h = Ok fn ∧
  junction_location fj h = Ok fb ∧
  Polymer.DFS depth (Bond.atom_b fb) ∅ (Some (Bond.atom_a fb)) h = Ok Dp ∧
  Bond.atom_a fb ∈ Topology.atoms Tp ∧ Bond.atom_b fb ∈ Topology.atoms Tp ∧
  Bond.atom_a fb ≠ Bond.atom_b fb.
Proof.
  intros Htp Hjp Hext HTp Hpjs Hfn Hfj Hfb HDp.
  unfold topology_ok in Htp. rewrite HTp in Htp. destruct Htp as [_ Lp].
  assert (Epjs : junctions_objs h !! Polymer.junctions self = Some pjs).
  { unfold junctions_ok in Hjp.
    destruct (junctions_objs h !! Polymer.junctions self) as [pjs0|] eqn:Epjs;
      [|done].
    destruct Hext as (_ & _ & _ & _ & HE).
    eapply lookup_weaken in Epjs; [|exact HE]. congruence. }
  destruct (named_total h _ _ pjs from_name Hjp Epjs) as [fn0 Hfn0].
  pose proof (extends_named _ _ _ _ _ Hext Hfn0) as Hfn2.
  rewrite Hfn in Hfn2. injection Hfn2 as <-.
  assert (Hin : fj ∈ pjs) by (by eapply named_elem).
  destruct (placed_location h _ _ pjs Tp fj Hjp Lp Epjs HTp Hin)
    as (B & HB & Ha & Hb & Hne).
  assert (B = fb) as ->.
  { destruct Hext as (_ & HEb & _ & HEj & _).
    eapply junction_location_extends in HB; [|exact HEj|exact HEb]. congruence. }
  repeat split; try done.
  rewrite <- HDp. symmetry.
  apply (DFS_local h h2 (list_to_set (Topology.atoms Tp))).
  - by apply closed_of_links, links_ok_within.
  - intros l Hl.
    destruct (closed_neighbours h (list_to_set (Topology.atoms Tp)) l)
      as (ns & Hns & _); [by apply closed_of_links, links_ok_within|done|].
    rewrite Hns. by eapply bond_neighbours_extends.
  - by apply elem_of_list_to_set.
Qed.

End chosen.

(** ** The monomer and the polymer made of it *)

Section ownership.
Context `{PyFloat}.

(** The objects a monomer is made of: its topology, the atoms and bonds
    listed there, its junction collection and the junctions in it. *)
Definition footprint (h : heap) (m : Monomer.t) : region :=
  Region
    (fun a => ∃ T, topology_objs h !! Monomer.topology m = Some T ∧
                   a ∈ Topology.atoms T)
    (fun b => ∃ T, topology_objs h !! Monomer.topology m = Some T ∧
                   b ∈ Topology.bonds T)
    (fun t => t = Monomer.topology m)
    (fun j => ∃ J, junctions_objs h !! Monomer.junctions m = Some J ∧ j ∈ J)
    (fun js => js = Monomer.junctions m).

Definition monomer_ok (h : heap) (m : Monomer.t) : Prop :=
  topology_ok h (Monomer.topology m) ∧
  junctions_ok h (Monomer.junctions m) (Monomer.topology m).

(** The polymer and the monomer are different objects: neither the
    topology, nor the junction collection, nor an atom is shared. *)
Definition apart (h : heap) (self : Polymer.t) (m : Monomer.t) : Prop :=
  Polymer.topology self ≠ Monomer.topology m ∧
  Polymer.junctions self ≠ Monomer.junctions m ∧
  match topology_objs h !! Polymer.topology self,
        topology_objs h !! Monomer.topology m with
  | Some Tp, Some Tm =>
      Forall (fun a => a ∉ Topology.atoms Tm) (Topology.atoms Tp)
  | _, _ => True
  end.

(** In [h1] the polymer is made of objects that [h] does not have, and that
    refer to each other only. *)
Definition made_new (h h1 : heap) (p : Polymer.t) : Prop :=
  ∃ Tp Jp,
    topology_objs h !! Polymer.topology p = None ∧
    junctions_objs h !! Polymer.junctions p = None ∧
    topology_objs h1 !! Polymer.topology p = Some Tp ∧
    junctions_objs h1 !! Polymer.junctions p = Some Jp ∧
    (∀ a, a ∈ Topology.atoms Tp → atom_objs h !! a = None) ∧
    (∀ b, b ∈ Topology.bonds Tp → bond_objs h !! b = None) ∧
    (∀ j, j ∈ Jp → junction_objs h !! j = None) ∧
    topology_ok h1 (Polymer.topology p) ∧
    junctions_ok h1 (Polymer.junctions p) (Polymer.topology p).

#[export] Instance monomer_ok_dec h m : Decision (monomer_ok h m).
Proof. unfold monomer_ok. apply _. Defined.

#[export] Instance apart_dec h self m : Decision (apart h self m).
Proof.
  unfold apart.
  destruct (topology_objs h !! Polymer.topology self); [|apply _].
  destruct (topology_objs h !! Monomer.topology m); apply _.
Defined.

Lemma footprint_within h m : monomer_ok h m → within (footprint h m) h.
Proof.
  unfold monomer_ok, topology_ok, junctions_ok. intros [Ht Hj].
  destruct (topology_objs h !! Monomer.topology m) as [T|] eqn:ET; [|done].
  destruct (junctions_objs h !! Monomer.junctions m) as [J|] eqn:EJ; [|done].
  destruct Ht as [_ [Hat Hbd]].
  rewrite Forall_forall in Hat. rewrite Forall_forall in Hbd.
  rewrite Forall_forall in Hj.
  repeat split; cbn.
  - intros a (T0 & HT0 & Ha). rewrite ET in HT0. injection HT0 as <-.
    specialize (Hat a Ha).
    unfold atom_linked in Hat. by destruct (atom_objs h !! a).
  - intros b (T0 & HT0 & Hb). rewrite ET in HT0. injection HT0 as <-.
    specialize (Hbd b Hb).
    unfold bond_linked in Hbd. by destruct (bond_objs h !! b).
  - intros t ->. by rewrite ET.
  - intros j (J0 & HJ0 & Hin). rewrite EJ in HJ0. injection HJ0 as <-.
    specialize (Hj j Hin).
    unfold junction_placed in Hj. by destruct (junction_objs h !! j).
  - intros js ->. by rewrite EJ.
Qed.

(** C8: a call of extend, whether it returns or raises, leaves the monomer
    it is given as it was: its topology object, every atom and bond listed
    there, its junction collection and every junction in it hold after the
    call what they held before.  The monomer and the polymer are two
    well-formed objects that share nothing, as they are when the polymer was
    made by the constructor. *)
Theorem extend_keeps_monomer e self monomer from_name to_name keep h r h' :
  topology_ok h (Polymer.topology self) →
  junctions_ok h (Polymer.junctions self) (Polymer.topology self) →
  monomer_ok h monomer →
  apart h self monomer →
  Polymer.extend e self monomer from_name to_name keep h = (r, h') →
  keeps (footprint h monomer) h h'.
Proof.
  intros Htp Hjp Hm (Hne1 & Hne2 & Hat) E.
  eapply extend_keeps; [by apply footprint_within|exact Htp|apply Hm|exact Hjp
                       |exact Hne1|exact Hne2| |exact E].
  intros Tp a HTp Ha (Tm & HTm & Ha'). rewrite HTp, HTm in Hat.
  rewrite Forall_forall in Hat. by apply (Hat a Ha).
Qed.

(** C9: the polymer that the constructor returns is made of new objects
    only: its topology, its junction collection, and every atom, bond and
    junction they list did not exist before the call, and they refer to each
    other only; the call leaves every object that existed as it was; and so
    does a call of extend on the new polymer, with any well-formed monomer,
    the source monomer included, whether it returns or raises. *)
Theorem init_deep_copy e monomer other from_name to_name keep h p h1 :
  monomer_ok h monomer →
  Polymer.__init__ monomer h = (Ok p, h1) →
  made_new h h1 p ∧
  extends h h1 ∧
  ∀ r h2, topology_ok h1 (Monomer.topology other) →
          Polymer.extend e p other from_name to_name keep h1 = (r, h2) →
          extends h h2.
Proof.
  intros [Ht Hj] (T & J & HT & HJ & -> & ->)%init_run.
  cbn [Polymer.topology Polymer.junctions].
  pose proof (copied_topology_ok monomer T J h HT Ht) as Htp.
  pose proof (copied_junctions_ok monomer T J h HT HJ Hj) as Hjp.
  pose proof (copied_extends monomer T J h) as Hext.
  assert (Hfa : ∀ a, a ∈ Topology.atoms (copy_topology (offsets_of h) T) →
                     atom_objs h !! a = None).
  { intros a (a0 & -> & _)%list_elem_of_fmap. apply moved_fresh. }
  split; [|split; [done|]].
  - exists (copy_topology (offsets_of h) T), (copy_junctions (offsets_of h) J).
    cbn [Polymer.topology Polymer.junctions].
    split; [apply moved_fresh|]. split; [apply moved_fresh|].
    split; [by apply copied_topology|]. split; [by apply copied_junctions|].
    split; [done|]. split.
    { intros b (b0 & -> & _)%list_elem_of_fmap. apply moved_fresh. }
    split; [|done].
    intros j (j0 & -> & _)%list_elem_of_fmap. apply moved_fresh.
  - intros r h2 Hother E. apply keeps_all_extends.
    eapply keeps_trans; [apply keeps_all_extends, Hext|].
    eapply (extend_keeps (all_of h)); [| | | | | | |exact E]; try done.
    + apply keeps_all_extends in Hext. destruct Hext as (A1 & B1 & C1 & D1 & E1).
      repeat split; cbn; intros l Hl.
      * by rewrite A1. * by rewrite B1. * by rewrite C1.
      * by rewrite D1. * by rewrite E1.
    + cbn. rewrite (moved_fresh (topology_objs h)). by intros [? ?].
    + cbn. rewrite (moved_fresh (junctions_objs h)). by intros [? ?].
    + intros T0 a. cbn [Polymer.topology]. rewrite (copied_topology _ _ _ _ HT).
      intros [= <-] Ha. cbn. rewrite (Hfa a Ha). by intros [? ?].
Qed.

End ownership.

(** ** Counting the atoms kept *)

Section counting.
Context `{PyFloat}.

Lemma size_set_map_inj (f : loc → loc) `{!Inj (=) (=) f} (X : gset loc) :
  size (set_map f X : gset loc) = size X.
Proof.
  unfold set_map. rewrite size_list_to_set.
  - by rewrite length_fmap.
  - apply NoDup_fmap_2; [done|]. apply NoDup_elements.
Qed.

Lemma filter_ext_elem {A} (P Q : A → Prop) `{!∀ x, Decision (P x)}
    `{!∀ x, Decision (Q x)} (l : list A) :
  (∀ x, x ∈ l → P x ↔ Q x) → filter P l = filter Q l.
Proof.
  induction l as [|x l IH]; intros HPQ; [done|].
  rewrite !filter_cons. rewrite IH by (intros; apply HPQ; by right).
  destruct (HPQ x) as [HP HQ]; [by left|].
  repeat case_decide; tauto.
Qed.

(** Taking a set of its elements out of a list without repetition shortens
    the list by the size of the set. *)
Lemma count_kept (l : list loc) (D : gset loc) :
  NoDup l → D ⊆ list_to_set l →
  (length (filter (fun a => a ∉ D) l) + size D = length l)%nat.
Proof.
  intros ND HD.
  rewrite <- (size_list_to_set (C:=gset loc) (filter (fun a => a ∉ D) l))
    by by apply NoDup_filter.
  rewrite <- (size_list_to_set (C:=gset loc) l) by done.
  assert (list_to_set (filter (fun a => a ∉ D) l) =
          (list_to_set l ∖ D : gset loc)) as ->.
  { apply set_eq. intros x.
    rewrite elem_of_difference, !elem_of_list_to_set, list_elem_of_filter.
    tauto. }
  rewrite size_difference by done.
  apply subseteq_size in HD. lia.
Qed.

End counting.

(** ** A call of extend that returns *)

Section success.
Context `{PyFloat}.

(** The first junction of the monomer with the name, and the bond it
    marks. *)
Definition to_junction_of (monomer : Monomer.t) (to_name : string) (h : heap)
    (tj : loc) (tb : Bond.t) : Prop :=
  ∃ J tn, junctions_objs h !! Monomer.junctions monomer = Some J ∧
          named to_name J h = Ok tn ∧ head tn = Some tj ∧
          junction_location tj h = Ok tb.

(** The junction of the polymer with the name that the draw picks, and the
    bond it marks. *)
Definition from_junction_of (e : env) (self : Polymer.t) (from_name : string)
    (h : heap) (fj : loc) (fb : Bond.t) : Prop :=
  ∃ pjs fn, junctions_objs h !! Polymer.junctions self = Some pjs ∧
            named from_name pjs h = Ok fn ∧
            fn !! (rnd e `mod` length fn)%nat = Some fj ∧
            junction_location fj h = Ok fb.

Lemma links_ok_atom h T a :
  links_ok h T → a ∈ Topology.atoms T → is_Some (atom_objs h !! a).
Proof.
  intros [Hat _] Ha. rewrite Forall_forall in Hat. specialize (Hat a Ha).
  unfold atom_linked in Hat. by destruct (atom_objs h !! a).
Qed.

Lemma subset_of_list (l : list loc) (D : gset loc) x :
  D ⊆ list_to_set l → x ∈ D → x ∈ l.
Proof. intros HD Hx. apply HD in Hx. by apply elem_of_list_to_set in Hx. Qed.

Lemma fresh_bond h : bond_objs h !! fresh (dom (bond_objs h)) = None.
Proof. apply not_elem_of_dom, is_fresh. Qed.

(** What a call that returns has done, in terms of the store before it. *)
Lemma extend_Ok e self monomer from_name to_name keep h h' :
  topology_ok h (Polymer.topology self) →
  junctions_ok h (Polymer.junctions self) (Polymer.topology self) →
  monomer_ok h monomer →
  Polymer.extend e self monomer from_name to_name keep h = (Ok tt, h') →
  ∃ Tp Tm T' tj tb fj fb (Dm Dp : gset loc) nb pjs news,
    let mv := moved (off_atom (offsets_of h)) in
    let mvb := moved (off_bond (offsets_of h)) in
    (topology_objs h !! Polymer.topology self = Some Tp ∧
     topology_objs h !! Monomer.topology monomer = Some Tm ∧
     junctions_objs h !! Polymer.junctions self = Some pjs) ∧
    (to_junction_of monomer to_name h tj tb ∧
     from_junction_of e self from_name h fj fb) ∧
    (Polymer.DFS (recursion_limit e) (Bond.atom_a tb) ∅
                 (Some (Bond.atom_b tb)) h = Ok Dm ∧
     Polymer.DFS (recursion_limit e) (Bond.atom_b fb) ∅
                 (Some (Bond.atom_a fb)) h = Ok Dp) ∧
    (topology_objs h' !! Polymer.topology self = Some T' ∧
     Topology.atoms T' =
       filter (fun a => (a ∉ (set_map mv Dm : gset loc)) ∧ (a ∉ Dp))
              (Topology.atoms Tp ++ (mv <$> Topology.atoms Tm))) ∧
    ((∀ b, b ∈ Topology.bonds T' →
           b ∈ Topology.bonds Tp ++ (mvb <$> Topology.bonds Tm) ++ [nb]) ∧
     nb ∈ Topology.bonds T' ∧ (nb ∉ Topology.bonds Tp) ∧
     (nb ∉ mvb <$> Topology.bonds Tm) ∧ bond_objs h !! nb = None ∧
     bond_objs h' !! nb =
       Some (Bond.mk (Bond.atom_a fb) (mv (Bond.atom_b tb))
                     (PyInt 1) (PyInt 1) (PyInt 1) PyNone)) ∧
    (junctions_objs h' !! Polymer.junctions self =
       Some (filter (fun j => j ≠ fj) pjs ++ news) ∧
     fj ∈ pjs ∧ (fj ∉ news)) ∧
    ((Dm ⊆ list_to_set (Topology.atoms Tm)) ∧
     (Dp ⊆ list_to_set (Topology.atoms Tp)) ∧
     Bond.atom_a tb ∈ Dm ∧ (Bond.atom_b tb ∉ Dm) ∧
     Bond.atom_b fb ∈ Dp ∧ (Bond.atom_a fb ∉ Dp) ∧
     Bond.atom_b tb ∈ Topology.atoms Tm ∧ Bond.atom_a fb ∈ Topology.atoms Tp).
Proof.
  intros Htp Hjp [Htm Hjm] E.
  apply extend_run in E
    as [[[ex [=]] _]|(T & J & tn & tj & tb & Dm & pjs & fn & fj & h1 & h2 & c &
                      HT & HJ & Hsel & Htn & Hhead & Htb & HDm & Hpjs & Hfn &
                      Hfj & Efin)].
  destruct (finish_Ok _ _ _ _ _ _ _ tb _ _ Htb Efin)
    as (pjs' & fb & Dp & Tp & Tc & news & T' & Hpjs' & Hfjin & Hfb & HDp &
        HTp2 & HTc & HT' & Hatoms & Hbonds & Hnb & Hbobjs & Hjs' & Hnews & _).
  rewrite Hpjs in Hpjs'. injection Hpjs' as <-.
  pose proof (selected_extends _ _ _ _ _ _ _ Hsel) as Hext.
  rewrite (selected_copy_topology _ _ _ _ _ _ _ Hsel HT) in HTc.
  injection HTc as <-.
  assert (HTp : topology_objs h !! Polymer.topology self = Some Tp).
  { unfold topology_ok in Htp.
    destruct (topology_objs h !! Polymer.topology self) as [Tp0|] eqn:ETp;
      [|done].
    destruct Hext as (_ & _ & HC & _).
    eapply lookup_weaken in ETp; [|exact HC]. congruence. }
  destruct (chosen_to _ _ _ _ _ _ _ _ _ _ _ _ Htm Hjm HT HJ Hsel Htn Hhead Htb HDm)
    as (tn0 & tj0 & tb0 & Dm0 & Htn0 & Hhead0 & Htb0 & HDm0 & -> & -> & -> &
        Hta & Htbb & Htne).
  destruct (chosen_from _ _ _ _ _ _ _ _ _ _ _ Htp Hjp Hext HTp Hpjs Hfn
              (list_elem_of_lookup_2 _ _ _ Hfj) Hfb HDp)
    as (Hpjs0 & Hfn0 & Hfb0 & HDp0 & Hfa & Hfbb & Hfne).
  pose proof Htp as Lp. unfold topology_ok in Lp. rewrite HTp in Lp.
  destruct Lp as [_ Lp].
  pose proof Htm as Lm. unfold topology_ok in Lm. rewrite HT in Lm.
  destruct Lm as [_ Lm].
  destruct (DFS_found_in h (list_to_set (Topology.atoms T)) _ _ _ _
              (closed_of_links _ _ (links_ok_within _ _ Lm))
              (proj2 (elem_of_list_to_set _ _) Hta)
              (fun E => Htne (Some_inj _ _ E)) HDm0)
    as (HDmT & HDma & HDmb).
  destruct (DFS_found_in h (list_to_set (Topology.atoms Tp)) _ _ _ _
              (closed_of_links _ _ (links_ok_within _ _ Lp))
              (proj2 (elem_of_list_to_set _ _) Hfbb)
              (fun E => Hfne (eq_sym (Some_inj _ _ E))) HDp0)
    as (HDpT & HDpa & HDpb).
  set (mv := moved (off_atom (offsets_of h))) in *.
  set (nb := fresh (dom (bond_objs h2))) in *.
  assert (Hnbf : bond_objs h2 !! nb = None) by apply fresh_bond.
  assert (Hold : ∀ x, x ∈ Dp → is_Some (atom_objs h !! x)).
  { intros x Hx. eapply links_ok_atom; [exact Lp|].
    by eapply subset_of_list. }
  assert (Hnew : ∀ x, x ∈ (set_map mv Dm0 : gset loc) →
                      atom_objs h !! x = None ∧
                      x ∈ mv <$> Topology.atoms T).
  { intros x (x0 & -> & Hx0)%elem_of_map. split; [apply moved_fresh|].
    apply list_elem_of_fmap. exists x0. split; [done|].
    by eapply subset_of_list. }
  cbn [copy_bond Bond.atom_a Bond.atom_b] in *. fold mv in Hnb, Hbobjs |- *.
  exists Tp, T, T', tj0, tb0, fj, fb, Dm0, Dp, nb, pjs, news. cbn zeta.
  split; [done|]. split.
  { split; [by exists J, tn0|by exists pjs, fn]. }
  split; [done|]. split; [done|]. split; [|split].
  3:{ repeat split; try done; [by apply HDmb|by apply HDpb]. }
  - split; [done|]. split.
    { apply Hnb.
      - intros x A Hx HA Hin.
        assert (Hlw : linked_within h2
                  (list_to_set (Topology.atoms Tp) ∪
                   list_to_set (mv <$> Topology.atoms T))).
        { apply linked_within_union.
          + eapply selected_linked_old; [exact Hsel|]. by apply links_ok_within.
          + by eapply selected_linked_copy. }
        destruct (Hlw x) as (A' & HA' & Hb).
        { destruct Hx as [Hx|Hx].
          + apply elem_of_union_r, elem_of_list_to_set. by apply Hnew.
          + apply elem_of_union_l, HDpT, Hx. }
        rewrite HA in HA'. injection HA' as <-.
        destruct (Hb nb Hin) as (B & HB & _). congruence.
      - intros x [Hx|Hx]; split.
        + intros ->. apply Hnew in Hx as [Hx _].
          destruct (links_ok_atom h Tp _ Lp Hfa) as [? ?]. congruence.
        + intros ->. apply elem_of_map in Hx as (x0 & Heq & Hx0).
          apply (inj _) in Heq as <-. by eapply HDmb.
        + intros ->. by eapply HDpb.
        + intros ->. destruct (Hold _ Hx) as [? Hs].
          pose proof (moved_fresh (atom_objs h) (Bond.atom_b tb0)) as Hf.
          unfold mv, offsets_of in Hs. cbn [off_atom] in Hs. congruence. }
    assert (Hnbh : bond_objs h !! nb = None).
    { destruct (bond_objs h !! nb) as [B|] eqn:EB; [|done].
      destruct Hext as (_ & HB & _). eapply lookup_weaken in EB; [|exact HB].
      congruence. }
    split.
    { intros Hin. destruct (links_ok_bond h Tp nb Lp Hin) as (B & HB & _).
      congruence. }
    split.
    { intros (b0 & Heq & Hb0)%list_elem_of_fmap.
      destruct (links_ok_bond h T b0 Lm Hb0) as (B & HB & _).
      pose proof (copied_bond monomer T J h b0 B Hb0 HB) as Hc.
      rewrite <- (selected_bonds _ _ _ _ _ _ _ Hsel), <- Heq in Hc. congruence. }
    split; [done|]. rewrite Hbobjs. apply lookup_insert_eq.
  - split; [done|]. split; [by eapply named_elem, list_elem_of_lookup_2|].
    intros Hin. apply Hnews in Hin.
    assert (Hinp : fj ∈ pjs) by (by eapply named_elem, list_elem_of_lookup_2).
    unfold junctions_ok in Hjp. rewrite Hpjs0, HTp in Hjp.
    rewrite Forall_forall in Hjp. specialize (Hjp fj Hinp).
    unfold junction_placed in Hjp.
    destruct (junction_objs h !! fj) as [Jn|] eqn:EJn; [|done].
    destruct Hext as (_ & _ & _ & HJe & _).
    eapply lookup_weaken in EJn; [|exact HJe]. congruence.
Qed.

End success.

(** ** The fragments on the two sides of a bond *)

Section fragments.
Context `{PyFloat}.
Variable h : heap.

(** The step from [x] to [y] goes over a bond between [a] and [b]. *)
Definition crosses (a b x y : loc) : Prop :=
  (x = a ∧ y = b) ∨ (x = b ∧ y = a).

(** [joined a b x z]: a path of bonds leads from [x] to [z] without going
    from [a] to [b] or back: [z] is in the fragment of [x] once the bond
    between [a] and [b] is cut. *)
Inductive joined (a b : loc) : loc → loc → Prop :=
| joined_here x : joined a b x x
| joined_step x y z :
    edge h x y → ¬ crosses a b x y → joined a b y z → joined a b x z.

(** The bond between [a] and [b] is a bridge: once it is cut, no atom is in
    the fragment of both of its ends. *)
Definition bridge (a b : loc) : Prop :=
  ∀ x, ¬ (joined a b a x ∧ joined a b b x).

Lemma joined_swap a b x z : joined a b x z → joined b a x z.
Proof.
  induction 1 as [x|x y z Hxy Hnc _ IH]; [constructor|].
  eapply joined_step; [exact Hxy| |exact IH].
  unfold crosses in *. tauto.
Qed.

Lemma joined_snoc a b x y z :
  joined a b x y → edge h y z → ¬ crosses a b y z → joined a b x z.
Proof.
  induction 1 as [x|x y' y Hxy Hnc _ IH]; intros Hyz Hn.
  - eapply joined_step; [exact Hyz|exact Hn|constructor].
  - eapply joined_step; [exact Hxy|exact Hnc|]. by apply IH.
Qed.

Lemma joined_trans a b x y z :
  joined a b x y → joined a b y z → joined a b x z.
Proof.
  induction 1 as [x|x y' y Hxy Hnc _ IH]; [done|].
  intros Hyz. eapply joined_step; [exact Hxy|exact Hnc|]. by apply IH.
Qed.

(** Where every bond can be followed both ways, the fragments are the
    classes of an equivalence, and a bridge is a bond whose ends are in
    different fragments once it is cut. *)
Lemma joined_sym a b x z :
  (∀ x y, edge h x y → edge h y x) → joined a b x z → joined a b z x.
Proof.
  intros Hsym. induction 1 as [x|x y z Hxy Hnc _ IH]; [constructor|].
  eapply joined_snoc; [exact IH|by apply Hsym|].
  unfold crosses in *. tauto.
Qed.

Lemma bridge_cut a b :
  (∀ x y, edge h x y → edge h y x) → bridge a b ↔ ¬ joined a b a b.
Proof.
  intros Hsym. split.
  - intros Hbr Hab. apply (Hbr b). split; [done|constructor].
  - intros Hn x [Hax Hbx]. apply Hn.
    eapply joined_trans; [exact Hax|]. by apply (joined_sym a b).
Qed.

Lemma bridge_swap a b : bridge a b → bridge b a.
Proof. intros Hbr x [Hbx Hax]. apply (Hbr x). split; by apply joined_swap. Qed.

(** A path that avoids [b] crosses no bond of [b]. *)
Lemma reach_joined a b x z :
  reach h (blocked ∅ (Some b)) x z → joined a b x z.
Proof.
  induction 1 as [x Hx|x y z Hx Hxy Hyz IH]; [constructor|].
  eapply joined_step; [exact Hxy| |exact IH].
  apply reach_start in Hyz.
  intros [[_ ->]|[-> _]]; [apply Hyz|apply Hx]; by right.
Qed.

(** Across a bridge, the fragment of [a] does not hold [b], and a path in
    it avoids [b]. *)
Lemma joined_reach a b x z :
  bridge a b → joined a b a x → joined a b x z →
  reach h (blocked ∅ (Some b)) x z.
Proof.
  intros Hbr Hax Hxz.
  assert (Hnb : ∀ y, joined a b a y → ¬ blocked ∅ (Some b) y).
  { intros y Hay [?%not_elem_of_empty|[= ->]]; [done|].
    apply (Hbr b). split; [done|constructor]. }
  induction Hxz as [x|x y z Hxy Hnc Hyz IH].
  - apply reach_here. by apply Hnb.
  - eapply reach_step; [by apply Hnb|exact Hxy|].
    apply IH. by eapply joined_snoc.
Qed.

(** The search from one end of a bridge, with the other end as the barrier,
    finds the fragment of its root, the root included, and nothing of the
    fragment of the barrier. *)
Lemma DFS_fragment (U : gset loc) depth a b found :
  closed h U → a ∈ U → a ≠ b → bridge a b →
  Polymer.DFS depth a ∅ (Some b) h = Ok found →
  a ∈ found ∧ (∀ x, x ∈ found ↔ joined a b a x) ∧
  ∀ x, x ∈ found → ¬ joined a b b x.
Proof.
  intros HU Ha Hne Hbr E.
  assert (Hne' : Some a ≠ Some b) by congruence.
  pose proof (DFS_found h U depth a (Some b) found HU Ha Hne' E) as Hf.
  assert (Hiff : ∀ x, x ∈ found ↔ joined a b a x).
  { intros x. rewrite Hf. split; [apply reach_joined|].
    intros Hax. apply (joined_reach a b); [done|constructor|done]. }
  split; [|split; [done|]].
  - apply Hiff. constructor.
  - intros x Hx%Hiff Hbx. by apply (Hbr x).
Qed.

(** A bond is a bridge when its ends lie in two disjoint sets of atoms that
    no other bond leads out of. *)
Definition side_at (a b : loc) (S : gset loc) (y : loc) : Prop :=
  match bond_neighbours y h with
  | Ok ns => Forall (fun z => crosses a b y z ∨ z ∈ S) ns
  | Raise _ => False
  end.

Definition side (a b : loc) (S : gset loc) : Prop := set_Forall (side_at a b S) S.

#[export] Instance crosses_dec a b x y : Decision (crosses a b x y).
Proof. unfold crosses. apply _. Defined.

#[export] Instance side_at_dec a b S y : Decision (side_at a b S y).
Proof. unfold side_at. destruct (bond_neighbours y h); apply _. Defined.

#[export] Instance side_dec a b S : Decision (side a b S).
Proof. unfold side. apply _. Defined.

Lemma joined_side a b (S : gset loc) x z :
  side a b S → x ∈ S → joined a b x z → z ∈ S.
Proof.
  intros HS Hx Hxz. induction Hxz as [x|x y z Hxy Hnc _ IH]; [done|].
  apply IH. specialize (HS x Hx). unfold side_at in HS.
  destruct Hxy as (ns & Hns & Hy). rewrite Hns in HS.
  rewrite Forall_forall in HS. destruct (HS y Hy); done.
Qed.

Lemma bridge_by_sides a b (A B : gset loc) :
  side a b A → side a b B → a ∈ A → b ∈ B → A ## B → bridge a b.
Proof.
  intros HA HB Ha Hb Hdisj x [Hax Hbx].
  apply (Hdisj x); eapply joined_side; eauto.
Qed.

End fragments.

(** ** Renumbering *)

Section renumbering.
Context `{PyFloat}.

Definition id_of (h : heap) (a : loc) : option Z :=
  Atom.atom_id <$> atom_objs h !! a.

Definition type_of (h : heap) (a : loc) : option string :=
  Atom.atom_type <$> atom_objs h !! a.

Definition index_of (h : heap) (a : loc) : option Z :=
  Atom.atom_index <$> atom_objs h !! a.

(** How many of the atoms are of the type. *)
Definition count_type (h : heap) (ty : string) (atoms : list loc) : Z :=
  Z.of_nat (length (filter (fun a => type_of h a = Some ty) atoms)).

(** No two atoms of the list have the same identifier. *)
Definition ids_unique (h : heap) (atoms : list loc) : Prop :=
  NoDup (id_of h <$> atoms).

#[export] Instance ids_unique_dec h atoms : Decision (ids_unique h atoms).
Proof. unfold ids_unique. apply _. Defined.

Lemma dict_get_set_eq k v d : dict_get k (dict_set k v d) = Some v.
Proof.
  induction d as [|[k' v'] d IH]; cbn [dict_set dict_get].
  - by rewrite decide_True.
  - destruct (decide (k' = k)) as [->|Hne]; cbn [dict_get].
    + by rewrite decide_True.
    + by rewrite decide_False.
Qed.

Lemma dict_get_set_ne k k' v d :
  k ≠ k' → dict_get k' (dict_set k v d) = dict_get k' d.
Proof.
  intros Hne. induction d as [|[k0 v0] d IH]; cbn [dict_set dict_get].
  - by rewrite decide_False.
  - destruct (decide (k0 = k)) as [->|Hne0]; cbn [dict_get].
    + by rewrite !decide_False.
    + destruct (decide (k0 = k')); [done|apply IH].
Qed.

Lemma dict_get_keys k d : k ∈ d.*1 ↔ is_Some (dict_get k d).
Proof.
  induction d as [|[k' v'] d IH]; cbn [dict_get fmap list_fmap fst].
  - split; [by intros ?%elem_of_nil|by intros [? ?]].
  - rewrite elem_of_cons, IH. destruct (decide (k' = k)) as [->|Hne].
    + split; [eauto|]. intros _. by left.
    + split; [|by right]. intros [->|?]; done.
Qed.

Lemma count_type_ext h h' ty atoms :
  (∀ a, a ∈ atoms → type_of h' a = type_of h a) →
  count_type h' ty atoms = count_type h ty atoms.
Proof.
  intros Hty. unfold count_type. f_equal. f_equal.
  apply filter_ext_elem. intros a Ha. by rewrite Hty.
Qed.

Lemma count_type_cons h ty a atoms :
  count_type h ty (a :: atoms) =
  (if decide (type_of h a = Some ty) then 1 else 0) + count_type h ty atoms.
Proof.
  unfold count_type. rewrite filter_cons.
  case_decide; cbn [length]; lia.
Qed.

(** Renumbering writes the identifiers in order, one up from the other. *)
Lemma renumber_from_Ok start atoms h h' :
  NoDup atoms → renumber_from start atoms h = (Ok tt, h') →
  (∀ i a, atoms !! i = Some a →
          ∃ A, atom_objs h !! a = Some A ∧
               atom_objs h' !! a =
               Some (Atom.set_atom_id (start + Z.of_nat i) A)) ∧
  (∀ l, l ∉ atoms → atom_objs h' !! l = atom_objs h !! l).
Proof.
  revert start h. induction atoms as [|a atoms IH]; intros start h ND.
  { intros [= <-]. split; [by intros i a ?|done]. }
  apply NoDup_cons in ND as [Ha ND].
  cbn [renumber_from]. rewrite bind_unfold, read_unfold.
  destruct (load_atom a h) as [A|] eqn:EA; [|done].
  apply load_atom_Ok in EA. rewrite bind_unfold. cbn [store_atom update].
  intros [IH1 IH2]%IH; [|done]. cbn in IH1, IH2. split.
  - intros [|i] x Hx; cbn in Hx.
    + injection Hx as <-. exists A. split; [done|].
      rewrite IH2 by done. rewrite lookup_insert_eq. do 2 f_equal. lia.
    + destruct (IH1 i x Hx) as (A' & HA' & Hf).
      assert (a ≠ x) by (intros ->; apply Ha; by eapply list_elem_of_lookup_2).
      rewrite lookup_insert_ne in HA' by done.
      exists A'. split; [done|]. rewrite Hf. do 2 f_equal. lia.
  - intros l [Hne Hl]%not_elem_of_cons. rewrite IH2 by done.
    by rewrite lookup_insert_ne.
Qed.

(** Renumbering the indexes writes, for the types of the mapping, the
    indexes from the base plus the gap up, in the order of the atoms of the
    type. *)
Lemma renumber_indexes_from_Ok gap d atoms h h' :
  NoDup atoms → renumber_indexes_from gap d atoms h = (Ok tt, h') →
  (∀ i a, atoms !! i = Some a →
          ∃ A, atom_objs h !! a = Some A ∧
               atom_objs h' !! a =
               Some (match dict_get (Atom.atom_type A) d with
                     | Some v =>
                         Atom.set_atom_index
                           (v + gap + count_type h (Atom.atom_type A)
                                                 (take i atoms)) A
                     | None => A
                     end)) ∧
  (∀ l, l ∉ atoms → atom_objs h' !! l = atom_objs h !! l).
Proof.
  revert d h. induction atoms as [|a atoms IH]; intros d h ND.
  { intros [= <-]. split; [by intros i a ?|done]. }
  apply NoDup_cons in ND as [Ha ND].
  cbn [renumber_indexes_from]. rewrite bind_unfold, read_unfold.
  destruct (load_atom a h) as [A|] eqn:EA; [|done].
  apply load_atom_Ok in EA.
  assert (Hta : type_of h a = Some (Atom.atom_type A)).
  { unfold type_of. by rewrite EA. }
  destruct (dict_get (Atom.atom_type A) d) as [v|] eqn:Ed.
  - rewrite bind_unfold. cbn [store_atom update].
    set (h1 := with_atoms _ h).
    assert (Hty : ∀ x, type_of h1 x = type_of h x).
    { intros x. unfold type_of, h1. cbn. destruct (decide (a = x)) as [<-|Hne].
      - by rewrite lookup_insert_eq, EA.
      - by rewrite lookup_insert_ne. }
    intros [IH1 IH2]%IH; [|done]. split.
    + intros [|i] x Hx; cbn in Hx.
      * injection Hx as <-. exists A. split; [done|].
        rewrite IH2 by done. unfold h1. cbn. rewrite lookup_insert_eq, Ed.
        cbn [take]. unfold count_type. cbn. do 2 f_equal. lia.
      * destruct (IH1 i x Hx) as (A' & HA' & Hf).
        assert (a ≠ x) by (intros ->; apply Ha; by eapply list_elem_of_lookup_2).
        unfold h1 in HA'. cbn in HA'. rewrite lookup_insert_ne in HA' by done.
        exists A'. split; [done|]. rewrite Hf. f_equal.
        cbn [take]. rewrite count_type_cons.
        rewrite (count_type_ext h h1) by (intros; apply Hty).
        rewrite Hta.
        destruct (decide (Atom.atom_type A = Atom.atom_type A')) as [Heq|Hne].
        -- rewrite <- Heq, dict_get_set_eq, Ed, decide_True by done.
           f_equal. lia.
        -- rewrite dict_get_set_ne by done.
           rewrite decide_False by congruence.
           destruct (dict_get (Atom.atom_type A') d); [|done]. f_equal; lia.
    + intros l [Hne Hl]%not_elem_of_cons. rewrite IH2 by done.
      unfold h1. cbn. by rewrite lookup_insert_ne.
  - intros [IH1 IH2]%IH; [|done]. split.
    + intros [|i] x Hx; cbn in Hx.
      * injection Hx as <-. exists A. split; [done|].
        rewrite IH2 by done. by rewrite EA, Ed.
      * destruct (IH1 i x Hx) as (A' & HA' & Hf).
        exists A'. split; [done|]. rewrite Hf. f_equal.
        destruct (dict_get (Atom.atom_type A') d) as [v|] eqn:Ed'; [|done].
        cbn [take]. rewrite count_type_cons.
        rewrite Hta.
        rewrite decide_False; [f_equal; lia|]. intros [= Heq]. congruence.
    + intros l [Hne Hl]%not_elem_of_cons. by rewrite IH2.
Qed.

Lemma foldl_max_ge x xs :
  x ≤ foldl Z.max x xs ∧ (∀ y, y ∈ xs → y ≤ foldl Z.max x xs) ∧
  foldl Z.max x xs ∈ x :: xs.
Proof.
  revert x. induction xs as [|y ys IH]; intros x; cbn [foldl].
  { split; [lia|]. split; [by intros y ?%elem_of_nil|by left]. }
  destruct (IH (Z.max x y)) as (H1 & H2 & H3). split; [lia|]. split.
  - intros z [->|Hz]%elem_of_cons; [lia|by apply H2].
  - apply elem_of_cons in H3 as [H3|H3]; [|by do 2 right].
    rewrite H3. destruct (Z.max_spec x y) as [[_ ->]|[_ ->]];
      [right; by left|by left].
Qed.

(** [max(xs)] is an element of [xs] that none exceeds. *)
Lemma py_max_Ok xs m h h' :
  py_max xs h = (Ok m, h') → (∀ x, x ∈ xs → x ≤ m) ∧ m ∈ xs.
Proof.
  destruct xs as [|x xs]; [done|]. intros [= <- <-].
  destruct (foldl_max_ge x xs) as (H1 & H2 & H3). split; [|done].
  intros y [->|Hy]%elem_of_cons; auto.
Qed.

Lemma max_index_step_spec d A :
  (∃ m, dict_get (Atom.atom_type A) (max_index_step d A) = Some m ∧
        Atom.atom_index A ≤ m) ∧
  (∀ ty m0, dict_get ty d = Some m0 →
            ∃ m, dict_get ty (max_index_step d A) = Some m ∧ m0 ≤ m) ∧
  (∀ ty m, dict_get ty (max_index_step d A) = Some m →
           dict_get ty d = Some m ∨
           (Atom.atom_type A = ty ∧ Atom.atom_index A = m)).
Proof.
  unfold max_index_step.
  destruct (dict_get (Atom.atom_type A) d) as [m1|] eqn:Ed.
  - destruct (Z.ltb_spec m1 (Atom.atom_index A)) as [Hlt|Hge].
    + split; [|split].
      * exists (Atom.atom_index A). by rewrite dict_get_set_eq.
      * intros ty m0 Hty. destruct (decide (Atom.atom_type A = ty)) as [<-|Hne].
        -- rewrite dict_get_set_eq. exists (Atom.atom_index A).
           split; [done|]. assert (m0 = m1) by congruence. lia.
        -- rewrite dict_get_set_ne by done. exists m0. split; [done|lia].
      * intros ty m. destruct (decide (Atom.atom_type A = ty)) as [<-|Hne].
        -- rewrite dict_get_set_eq. intros [= <-]. by right.
        -- rewrite dict_get_set_ne by done. by left.
    + split; [|split].
      * exists m1. split; [done|lia].
      * intros ty m0 Hty. exists m0. split; [done|lia].
      * intros ty m Hty. by left.
  - split; [|split].
    + exists (Atom.atom_index A). rewrite dict_get_set_eq. split; [done|lia].
    + intros ty m0 Hty. destruct (decide (Atom.atom_type A = ty)) as [<-|Hne].
      * congruence.
      * rewrite dict_get_set_ne by done. exists m0. split; [done|lia].
    + intros ty m. destruct (decide (Atom.atom_type A = ty)) as [<-|Hne].
      * rewrite dict_get_set_eq. intros [= <-]. by right.
      * rewrite dict_get_set_ne by done. by left.
Qed.

Lemma max_index_fold d0 As :
  (∀ A, A ∈ As →
        ∃ m, dict_get (Atom.atom_type A) (foldl max_index_step d0 As) = Some m ∧
             Atom.atom_index A ≤ m) ∧
  (∀ ty m0, dict_get ty d0 = Some m0 →
            ∃ m, dict_get ty (foldl max_index_step d0 As) = Some m ∧ m0 ≤ m) ∧
  (∀ ty m, dict_get ty (foldl max_index_step d0 As) = Some m →
           dict_get ty d0 = Some m ∨
           ∃ A, A ∈ As ∧ Atom.atom_type A = ty ∧ Atom.atom_index A = m).
Proof.
  revert d0. induction As as [|A As IH]; intros d0; cbn [foldl].
  { split; [by intros A ?%elem_of_nil|]. split; [|by left].
    intros ty m0 ?. exists m0. split; [done|lia]. }
  destruct (IH (max_index_step d0 A)) as (I1 & I2 & I3).
  destruct (max_index_step_spec d0 A) as (S1 & S2 & S3).
  split; [|split].
  - intros B [->|HB]%elem_of_cons; [|by apply I1].
    destruct S1 as (m1 & Hm1 & Hle). destruct (I2 _ _ Hm1) as (m & Hm & Hle').
    exists m. split; [done|lia].
  - intros ty m0 Hty. destruct (S2 _ _ Hty) as (m1 & Hm1 & Hle).
    destruct (I2 _ _ Hm1) as (m & Hm & Hle'). exists m. split; [done|lia].
  - intros ty m Hty. destruct (I3 _ _ Hty) as [Hd|(B & HB & ? & ?)].
    + destruct (S3 _ _ Hd) as [?|[? ?]]; [by left|right].
      exists A. split; [by left|done].
    + right. exists B. split; [by right|done].
Qed.

(** What max_atom_index returns: for each type of an atom of the topology,
    the largest index among the atoms of the type. *)
Lemma max_atom_index_Ok t T d h :
  topology_objs h !! t = Some T → max_atom_index t h = Ok d →
  (∀ a A, a ∈ Topology.atoms T → atom_objs h !! a = Some A →
          ∃ m, dict_get (Atom.atom_type A) d = Some m ∧ Atom.atom_index A ≤ m) ∧
  (∀ ty m, dict_get ty d = Some m →
           ∃ a A, a ∈ Topology.atoms T ∧ atom_objs h !! a = Some A ∧
                  Atom.atom_type A = ty ∧ Atom.atom_index A = m).
Proof.
  intros HT. unfold max_atom_index. rewrite rbind_unfold.
  rewrite (proj2 (load_topology_Ok _ _ _) HT), rbind_unfold.
  destruct (rmap load_atom (Topology.atoms T) h) as [As|] eqn:EAs; [|done].
  rewrite rret_unfold. intros [= <-]. apply rmap_Ok in EAs.
  destruct (max_index_fold [] As) as (F1 & _ & F3). split.
  - intros a A Ha HA. apply F1.
    apply list_elem_of_lookup in Ha as [i Hi].
    destruct (Forall2_lookup_l _ _ _ _ _ EAs Hi) as (A' & HiA & HA').
    apply load_atom_Ok in HA'. rewrite HA in HA'. injection HA' as <-.
    by eapply list_elem_of_lookup_2.
  - intros ty m Hty. destruct (F3 _ _ Hty) as [[=]|(A & HA & ? & ?)].
    apply list_elem_of_lookup in HA as [i Hi].
    destruct (Forall2_lookup_r _ _ _ _ _ EAs Hi) as (a & Hia & Ha).
    apply load_atom_Ok in Ha. exists a, A.
    split; [by eapply list_elem_of_lookup_2|done].
Qed.

End renumbering.

(** ** The merged topology *)

Section merged.
Context `{PyFloat}.

Lemma clone_apart h T a x :
  links_ok h T → a ∈ Topology.atoms T → a ≠ moved (off_atom (offsets_of h)) x.
Proof.
  intros HL Ha ->. destruct (links_ok_atom h T _ HL Ha) as [A HA].
  pose proof (moved_fresh (atom_objs h) x) as Hf.
  unfold offsets_of in HA. cbn [off_atom] in HA. congruence.
Qed.

(** What extend has done to the polymer when it returns: it has chosen a
    junction [fj] of the polymer named [from_name] and the first junction
    [tj] of the monomer named [to_name], and found the discard sets [Dm] and
    [Dp]; the atom count has grown by the monomer's atom count less the
    sizes of the two discard sets; the topology lists one bond [nb] that
    neither it nor the monomer's copy listed, a new object that joins the
    retained atom of the polymer's junction bond and the copy of the retained
    atom of the monomer's, both of them atoms of the merged topology; and
    [fj] is no longer among the polymer's junctions. *)
Definition merged (e : env) (self : Polymer.t) (monomer : Monomer.t)
    (from_name to_name : string) (h h' : heap) : Prop :=
  ∃ Tp Tm T' tj tb fj fb (Dm Dp : gset loc) nb B pjs pjs',
    (topology_objs h !! Polymer.topology self = Some Tp ∧
     topology_objs h !! Monomer.topology monomer = Some Tm ∧
     topology_objs h' !! Polymer.topology self = Some T') ∧
    (to_junction_of monomer to_name h tj tb ∧
     from_junction_of e self from_name h fj fb ∧
     Polymer.DFS (recursion_limit e) (Bond.atom_a tb) ∅
                 (Some (Bond.atom_b tb)) h = Ok Dm ∧
     Polymer.DFS (recursion_limit e) (Bond.atom_b fb) ∅
                 (Some (Bond.atom_a fb)) h = Ok Dp) ∧
    Z.of_nat (length (Topology.atoms T')) -
      Z.of_nat (length (Topology.atoms Tp)) =
    Z.of_nat (length (Topology.atoms Tm)) - Z.of_nat (size Dm) -
      Z.of_nat (size Dp) ∧
    (nb ∈ Topology.bonds T' ∧
     (∀ b, b ∈ Topology.bonds T' →
           b = nb ∨ b ∈ Topology.bonds Tp ∨
           b ∈ moved (off_bond (offsets_of h)) <$> Topology.bonds Tm) ∧
     (nb ∉ Topology.bonds Tp) ∧
     (nb ∉ moved (off_bond (offsets_of h)) <$> Topology.bonds Tm) ∧
     bond_objs h !! nb = None ∧ bond_objs h' !! nb = Some B ∧
     Bond.atom_a B = Bond.atom_a fb ∧
     Bond.atom_b B = moved (off_atom (offsets_of h)) (Bond.atom_b tb) ∧
     Bond.atom_a B ∈ Topology.atoms T' ∧ Bond.atom_b B ∈ Topology.atoms T') ∧
    (junctions_objs h !! Polymer.junctions self = Some pjs ∧
     junctions_objs h' !! Polymer.junctions self = Some pjs' ∧
     fj ∈ pjs ∧ (fj ∉ pjs')).


(** C1: for a well-formed polymer and monomer, a call of extend that returns
    has chosen a junction of each by the names given, has increased the
    polymer's atom count by the monomer's atom count less the sizes of the
    two discard sets, has added one new bond between the two retained
    junction atoms, and has taken the junction it chose out of the polymer's
    junctions. *)
Theorem extend_merges e self monomer from_name to_name keep h h' :
  topology_ok h (Polymer.topology self) →
  junctions_ok h (Polymer.junctions self) (Polymer.topology self) →
  monomer_ok h monomer →
  Polymer.extend e self monomer from_name to_name keep h = (Ok tt, h') →
  merged e self monomer from_name to_name h h'.
Proof.
  intros Htp Hjp Hm E.
  destruct (extend_Ok _ _ _ _ _ _ _ _ Htp Hjp Hm E)
    as (Tp & Tm & T' & tj & tb & fj & fb & Dm & Dp & nb & pjs & news & HE).
  cbn zeta in HE.
  destruct HE as ((HTp & HTm & Hpjs) & (Hto & Hfrom) & (HDm & HDp) &
                  (HT' & Hatoms) & (Hbonds & Hnb & HnbP & HnbM & Hnbh & HB) &
                  (Hjs' & Hfj & Hfjn) &
                  (HDmT & HDpT & Htaa & Htab & Hfbb & Hfba & HtbT & HfaT)).
  destruct Hm as [Htm Hjm].
  unfold topology_ok in Htp, Htm. rewrite HTp in Htp. rewrite HTm in Htm.
  destruct Htp as [NDp Lp]. destruct Htm as [NDm Lm].
  set (mv := moved (off_atom (offsets_of h))) in *.
  assert (Hold : ∀ x, x ∈ Topology.atoms Tp → x ∉ (set_map mv Dm : gset loc)).
  { intros x Hx (x0 & -> & _)%elem_of_map.
    exact (clone_apart h Tp _ x0 Lp Hx eq_refl). }
  assert (Hnew : ∀ x, x ∈ mv <$> Topology.atoms Tm → x ∉ Dp).
  { intros x (x0 & -> & _)%list_elem_of_fmap Hin.
    refine (clone_apart h Tp _ x0 Lp _ eq_refl). by eapply subset_of_list. }
  exists Tp, Tm, T', tj, tb, fj, fb, Dm, Dp, nb,
    (Bond.mk (Bond.atom_a fb) (mv (Bond.atom_b tb))
             (PyInt 1) (PyInt 1) (PyInt 1) PyNone),
    pjs, (filter (fun j => j ≠ fj) pjs ++ news).
  split; [done|]. split; [done|]. split; [|split].
  - rewrite Hatoms, filter_app, length_app.
    rewrite (filter_ext_elem _ (fun a => a ∉ Dp) (Topology.atoms Tp))
      by (intros x Hx; specialize (Hold x Hx); tauto).
    rewrite (filter_ext_elem _ (fun a => a ∉ (set_map mv Dm : gset loc))
                             (mv <$> Topology.atoms Tm))
      by (intros x Hx; specialize (Hnew x Hx); tauto).
    pose proof (count_kept (Topology.atoms Tp) Dp NDp HDpT) as C1.
    assert (C2 : (length (filter (fun a => a ∉ (set_map mv Dm : gset loc))
                                 (mv <$> Topology.atoms Tm)) +
                  size (set_map mv Dm : gset loc) =
                  length (mv <$> Topology.atoms Tm))%nat).
    { apply count_kept; [apply NoDup_fmap_2; [apply moved_inj|done]|].
      intros x (x0 & -> & Hx0)%elem_of_map.
      apply elem_of_list_to_set, list_elem_of_fmap. exists x0. split; [done|].
      by eapply subset_of_list. }
    rewrite size_set_map_inj, length_fmap in C2 by apply moved_inj.
    lia.
  - split; [done|]. split.
    { intros b Hb. specialize (Hbonds b Hb).
      rewrite !elem_of_app, list_elem_of_singleton in Hbonds. tauto. }
    do 4 (split; [done|]). cbn [Bond.atom_a Bond.atom_b].
    split; [done|]. split; [done|]. rewrite Hatoms. split.
    + apply list_elem_of_filter. split; [split; [by apply Hold|done]|].
      apply elem_of_app. by left.
    + assert (Hin : mv (Bond.atom_b tb) ∈ mv <$> Topology.atoms Tm).
      { apply list_elem_of_fmap. eauto. }
      apply list_elem_of_filter. split; [split; [|by apply Hnew]|].
      * intros (x0 & Heq & Hx0)%elem_of_map. apply (inj _) in Heq. by subst.
      * apply elem_of_app. by right.
  - split; [done|]. split; [done|]. split; [done|].
    intros [Hin|Hin]%elem_of_app; [|done].
    apply list_elem_of_filter in Hin as [Hne _]. done.
Qed.


Lemma kept_atoms h Tp Tm (Dm Dp : gset loc) x :
  links_ok h Tp → Dp ⊆ list_to_set (Topology.atoms Tp) →
  x ∈ filter (fun a => (a ∉ (set_map (moved (off_atom (offsets_of h))) Dm
                              : gset loc)) ∧ (a ∉ Dp))
             (Topology.atoms Tp ++
              (moved (off_atom (offsets_of h)) <$> Topology.atoms Tm)) ↔
  (x ∈ Topology.atoms Tp ∧ x ∉ Dp) ∨
  ∃ x0, x = moved (off_atom (offsets_of h)) x0 ∧ x0 ∈ Topology.atoms Tm ∧
        x0 ∉ Dm.
Proof.
  intros Lp HDp. rewrite list_elem_of_filter, elem_of_app, list_elem_of_fmap.
  split.
  - intros [[Hm Hp] [Hx|(x0 & -> & Hx0)]]; [by left|right].
    exists x0. repeat split; [done|]. intros Hin. apply Hm.
    apply elem_of_map. eauto.
  - intros [[Hx Hp]|(x0 & -> & Hx0 & Hm)].
    + split; [|by left]. split; [|done].
      intros (x0 & -> & _)%elem_of_map.
      exact (clone_apart h Tp _ x0 Lp Hx eq_refl).
    + split; [|right; eauto]. split.
      * intros (x1 & Heq & Hx1)%elem_of_map. apply (inj _) in Heq. by subst.
      * intros Hin. refine (clone_apart h Tp _ x0 Lp _ eq_refl).
        by eapply subset_of_list.
Qed.

(** What extend has discarded when it returns: [Dm] is what the search
    from [to_junction.location.atom_a] finds on the monomer with
    [to_junction.location.atom_b] as the barrier (the code searches the
    monomer's copy, and finds the copies of these atoms), [Dp] is what the
    search from [from_junction.location.atom_b] finds on the polymer with
    [from_junction.location.atom_a] as the barrier, each search starting
    from an empty visited set; the merged topology lists the atoms of the
    polymer that are not in [Dp] and the copies of the atoms of the monomer
    that are not in [Dm]; and where the junction bond is a bridge, the set
    found is the fragment of the root once the bond is cut, the root
    included, and holds no atom of the fragment of the barrier. *)
Definition discarded (e : env) (self : Polymer.t) (monomer : Monomer.t)
    (from_name to_name : string) (h h' : heap) : Prop :=
  ∃ Tp Tm T' tj tb fj fb (Dm Dp : gset loc),
    (topology_objs h !! Polymer.topology self = Some Tp ∧
     topology_objs h !! Monomer.topology monomer = Some Tm ∧
     topology_objs h' !! Polymer.topology self = Some T') ∧
    (to_junction_of monomer to_name h tj tb ∧
     from_junction_of e self from_name h fj fb) ∧
    (Polymer.DFS (recursion_limit e) (Bond.atom_a tb) ∅
                 (Some (Bond.atom_b tb)) h = Ok Dm ∧
     Polymer.DFS (recursion_limit e) (Bond.atom_b fb) ∅
                 (Some (Bond.atom_a fb)) h = Ok Dp) ∧
    (∀ x, x ∈ Topology.atoms T' ↔
          (x ∈ Topology.atoms Tp ∧ x ∉ Dp) ∨
          ∃ x0, x = moved (off_atom (offsets_of h)) x0 ∧
                x0 ∈ Topology.atoms Tm ∧ x0 ∉ Dm) ∧
    (bridge h (Bond.atom_a tb) (Bond.atom_b tb) →
     Bond.atom_a tb ∈ Dm ∧
     (∀ x, x ∈ Dm ↔
           joined h (Bond.atom_a tb) (Bond.atom_b tb) (Bond.atom_a tb) x) ∧
     (∀ x, x ∈ Dm →
           ¬ joined h (Bond.atom_a tb) (Bond.atom_b tb) (Bond.atom_b tb) x)) ∧
    (bridge h (Bond.atom_a fb) (Bond.atom_b fb) →
     Bond.atom_b fb ∈ Dp ∧
     (∀ x, x ∈ Dp ↔
           joined h (Bond.atom_a fb) (Bond.atom_b fb) (Bond.atom_b fb) x) ∧
     (∀ x, x ∈ Dp →
           ¬ joined h (Bond.atom_a fb) (Bond.atom_b fb) (Bond.atom_a fb) x)).

(** C2: in a call of extend that returns, for a well-formed polymer and
    monomer, the two discard sets are the results of two searches from an
    empty visited set, on the monomer's side from the [atom_a] of the
    junction bond with its [atom_b] as the barrier, on the polymer's side
    from the [atom_b] of the junction bond with its [atom_a] as the barrier;
    the atoms taken out of the merged topology are these; and when the
    junction bond is a bridge each set is exactly the fragment of its root
    once the bond is cut, and has no atom of the fragment that is kept. *)
Theorem extend_discards e self monomer from_name to_name keep h h' :
  topology_ok h (Polymer.topology self) →
  junctions_ok h (Polymer.junctions self) (Polymer.topology self) →
  monomer_ok h monomer →
  Polymer.extend e self monomer from_name to_name keep h = (Ok tt, h') →
  discarded e self monomer from_name to_name h h'.
Proof.
  intros Htp Hjp Hm E.
  destruct (extend_Ok _ _ _ _ _ _ _ _ Htp Hjp Hm E)
    as (Tp & Tm & T' & tj & tb & fj & fb & Dm & Dp & nb & pjs & news & HE).
  cbn zeta in HE.
  destruct HE as ((HTp & HTm & Hpjs) & (Hto & Hfrom) & (HDm & HDp) &
                  (HT' & Hatoms) & _ & _ &
                  (HDmT & HDpT & Htaa & Htab & Hfbb & Hfba & HtbT & HfaT)).
  destruct Hm as [Htm Hjm].
  unfold topology_ok in Htp, Htm. rewrite HTp in Htp. rewrite HTm in Htm.
  destruct Htp as [_ Lp]. destruct Htm as [_ Lm].
  exists Tp, Tm, T', tj, tb, fj, fb, Dm, Dp.
  do 3 (split; [done|]). split; [|split].
  - intros x. rewrite Hatoms. by apply kept_atoms.
  - intros Hbr.
    apply (DFS_fragment h (list_to_set (Topology.atoms Tm))
             (recursion_limit e)); try done.
    + by apply closed_of_links, links_ok_within.
    + by apply HDmT.
    + intros Heq. apply Htab. by rewrite <- Heq.
  - intros Hbr%bridge_swap.
    destruct (DFS_fragment h (list_to_set (Topology.atoms Tp))
                (recursion_limit e) (Bond.atom_b fb) (Bond.atom_a fb) Dp)
      as (Hin & Hiff & Hno); try done.
    + by apply closed_of_links, links_ok_within.
    + by apply HDpT.
    + intros Heq. apply Hfba. by rewrite <- Heq.
    + split; [done|]. split.
      * intros x. rewrite Hiff. split; apply joined_swap.
      * intros x Hx Hj. apply (Hno x Hx). by apply joined_swap.
Qed.

End merged.

(** ** More on the search *)

Section search_edges.
Context `{PyFloat}.

(** One round of the loop over the neighbours, for a search whose nested
    calls have the property [Q] of what they are given and what they
    return. *)
Lemma DFS_loop_inv (Q : gset loc → gset loc → Prop) depth exclude h ns W W' :
  (∀ W, Q W W) → (∀ W1 W2 W3, Q W1 W2 → Q W2 W3 → Q W1 W3) →
  (∀ n V found, Some n ≠ exclude →
                Polymer.DFS depth n V exclude h = Ok found → Q V found) →
  rfold (DFS_step depth exclude) W ns h = Ok W' → Q W W'.
Proof.
  intros Hrefl Htrans Hcall. revert W.
  induction ns as [|n ns IH]; intros W; cbn [rfold].
  { rewrite rret_unfold. intros [= <-]. apply Hrefl. }
  rewrite rbind_unfold.
  destruct (DFS_step depth exclude W n h) as [W1|] eqn:E1; [|done].
  intros E%IH. eapply Htrans; [|exact E].
  unfold DFS_step in E1. case_decide as Hd.
  - eapply Hcall; [|exact E1]. tauto.
  - rewrite rret_unfold in E1. injection E1 as <-. apply Hrefl.
Qed.

(** X1: a search that returns has kept every atom that was visited and has
    added its root, whatever the bonds are. *)
Theorem DFS_grows depth atom visited exclude h found :
  Polymer.DFS depth atom visited exclude h = Ok found →
  visited ⊆ found ∧ atom ∈ found.
Proof.
  revert atom visited found.
  induction depth as [|depth IH]; intros atom visited found; [done|].
  rewrite DFS_unfold. destruct (bond_neighbours atom h) as [ns|]; [|done].
  intros E.
  apply (DFS_loop_inv (fun W1 W2 => W1 ⊆ W2)) in E.
  - split; set_solver.
  - done.
  - intros W1 W2 W3 ? ?. by etrans.
  - intros n V found' _ E'. by apply IH in E' as [? _].
Qed.

(** X2: a search that returns has not added the barrier, unless the barrier
    is the root itself: the barrier is in the result only if it was visited
    before or the search started from it. *)
Theorem DFS_barrier depth atom visited barrier h found :
  Polymer.DFS depth atom visited (Some barrier) h = Ok found →
  barrier ∈ found → barrier ∈ visited ∨ barrier = atom.
Proof.
  revert atom visited found.
  induction depth as [|depth IH]; intros atom visited found; [done|].
  rewrite DFS_unfold. destruct (bond_neighbours atom h) as [ns|]; [|done].
  intros E.
  assert (HQ : barrier ∈ found → barrier ∈ visited ∪ {[atom]}).
  { apply (DFS_loop_inv (fun W1 W2 => barrier ∈ W2 → barrier ∈ W1)
             depth (Some barrier) h ns); [done|auto| |exact E].
    intros n V found' Hne E' Hin.
    destruct (IH _ _ _ E' Hin) as [?|Heq]; [done|]. by subst. }
  intros Hin%HQ. apply elem_of_union in Hin as [?|?%elem_of_singleton]; auto.
Qed.

(** X3: over a set of atoms that the bonds do not lead out of, a search
    fails in one way only, by running out of nested calls, and only when
    there are more unvisited atoms than nested calls allowed. *)
Theorem DFS_fails_by_depth h (U : gset loc) depth atom visited exclude ex :
  closed h U → atom ∈ U → atom ∉ visited → Some atom ≠ exclude →
  Polymer.DFS depth atom visited exclude h = Raise ex →
  ex = RecursionError ∧ (depth < size (U ∖ visited))%nat.
Proof.
  intros HU Ha Hv Hne E. split.
  - clear Hv Hne. revert atom visited Ha E.
    induction depth as [|depth IH]; intros atom visited Ha.
    { by intros [= <-]. }
    rewrite DFS_unfold.
    destruct (closed_neighbours h U atom HU Ha) as (ns & -> & Hns).
    generalize (visited ∪ {[atom]}). clear visited.
    induction ns as [|n ns IHns]; intros W; cbn [rfold]; [done|].
    rewrite rbind_unfold.
    destruct (DFS_step depth exclude W n h) as [W1|e1] eqn:E1.
    + apply IHns. intros x Hx. apply Hns. by right.
    + intros [= <-]. unfold DFS_step in E1. case_decide; [|done].
      eapply IH; [|exact E1]. apply Hns. by left.
  - destruct (decide (depth < size (U ∖ visited))%nat) as [|Hge]; [done|].
    destruct (DFS_spec h U depth atom visited exclude HU Ha Hv Hne)
      as (found & Hfound & _); [lia|]. congruence.
Qed.

End search_edges.

(** ** Runs that get through *)

Section progress.
Context `{PyFloat}.

(** The polymer has an atom. *)
Definition populated (h : heap) (t : loc) : Prop :=
  match topology_objs h !! t with
  | Some T => Topology.atoms T ≠ []
  | None => False
  end.

#[export] Instance populated_dec h t : Decision (populated h t).
Proof. unfold populated. destruct (topology_objs h !! t); apply _. Defined.

Definition atoms_exist (h : heap) (atoms : list loc) : Prop :=
  ∀ a, a ∈ atoms → is_Some (atom_objs h !! a).

Lemma atoms_exist_retouched W h h' atoms :
  retouched W h h' → atoms_exist h atoms → atoms_exist h' atoms.
Proof.
  intros (_ & _ & _ & _ & _ & F) Hex a Ha. specialize (F a).
  destruct (Hex a Ha) as [A HA]. rewrite HA in F. inversion F. eauto.
Qed.

Lemma atoms_exist_extends h h' atoms :
  extends h h' → atoms_exist h atoms → atoms_exist h' atoms.
Proof.
  intros (HA & _) Hex a Ha. destruct (Hex a Ha) as [A HAa].
  exists A. by eapply lookup_weaken.
Qed.

Lemma links_ok_exist h T : links_ok h T → atoms_exist h (Topology.atoms T).
Proof. intros HL a Ha. by eapply links_ok_atom. Qed.

Lemma load_atoms_total h atoms :
  atoms_exist h atoms → ∃ As, rmap load_atom atoms h = Ok As ∧
                              length As = length atoms.
Proof.
  intros Hex. destruct (rmap_total load_atom atoms h) as [As HAs].
  - intros a Ha. destruct (Hex a Ha) as [A HA]. exists A. by apply load_atom_Ok.
  - exists As. split; [done|]. by eapply rmap_length.
Qed.

Lemma charge_total h t T :
  topology_objs h !! t = Some T → atoms_exist h (Topology.atoms T) →
  ∃ c, charge t h = Ok c.
Proof.
  intros HT Hex. unfold charge. rewrite rbind_unfold.
  rewrite (proj2 (load_topology_Ok _ _ _) HT), rbind_unfold.
  destruct (load_atoms_total h _ Hex) as (As & -> & _). eauto.
Qed.

Lemma atom_ids_total h t T :
  topology_objs h !! t = Some T → atoms_exist h (Topology.atoms T) →
  ∃ ids, atom_ids t h = Ok ids ∧ length ids = length (Topology.atoms T).
Proof.
  intros HT Hex. unfold atom_ids. rewrite rbind_unfold.
  rewrite (proj2 (load_topology_Ok _ _ _) HT).
  destruct (rmap_total (fun a => A ← load_atom a; mret (Atom.atom_id A))
              (Topology.atoms T) h) as [ids Hids].
  - intros a Ha. destruct (Hex a Ha) as [A HA]. exists (Atom.atom_id A).
    by rewrite rbind_unfold, (proj2 (load_atom_Ok _ _ _) HA).
  - exists ids. split; [done|]. by eapply rmap_length.
Qed.

Lemma max_atom_index_total h t T :
  topology_objs h !! t = Some T → atoms_exist h (Topology.atoms T) →
  ∃ d, max_atom_index t h = Ok d.
Proof.
  intros HT Hex. unfold max_atom_index. rewrite rbind_unfold.
  rewrite (proj2 (load_topology_Ok _ _ _) HT), rbind_unfold.
  destruct (load_atoms_total h _ Hex) as (As & -> & _). eauto.
Qed.

Lemma renumber_from_total start atoms h :
  atoms_exist h atoms → ∃ h', renumber_from start atoms h = (Ok tt, h').
Proof.
  revert start h. induction atoms as [|a atoms IH]; intros start h Hex.
  { by exists h. }
  cbn [renumber_from]. rewrite bind_unfold, read_unfold.
  destruct (Hex a) as [A HA]; [by left|].
  rewrite (proj2 (load_atom_Ok _ _ _) HA), bind_unfold. cbn [store_atom update].
  apply IH. intros x Hx. cbn. destruct (decide (a = x)) as [<-|Hne].
  - rewrite lookup_insert_eq. eauto.
  - rewrite lookup_insert_ne by done. apply Hex. by right.
Qed.

Lemma renumber_indexes_from_total gap d atoms h :
  atoms_exist h atoms →
  ∃ h', renumber_indexes_from gap d atoms h = (Ok tt, h').
Proof.
  revert d h. induction atoms as [|a atoms IH]; intros d h Hex.
  { by exists h. }
  cbn [renumber_indexes_from]. rewrite bind_unfold, read_unfold.
  destruct (Hex a) as [A HA]; [by left|].
  rewrite (proj2 (load_atom_Ok _ _ _) HA).
  destruct (dict_get (Atom.atom_type A) d) as [v|].
  - rewrite bind_unfold. cbn [store_atom update].
    apply IH. intros x Hx. cbn. destruct (decide (a = x)) as [<-|Hne].
    + rewrite lookup_insert_eq. eauto.
    + rewrite lookup_insert_ne by done. apply Hex. by right.
  - apply IH. intros x Hx. apply Hex. by right.
Qed.

Lemma index_loop_total gap t T (keys : list string) (d : dict) h :
  topology_objs h !! t = Some T → atoms_exist h (Topology.atoms T) →
  (∀ k, k ∈ keys → is_Some (dict_get k d)) →
  ∃ h', for_ keys (fun atom_type =>
          v ← dict_item d atom_type;
          renumber_atom_indexes gap t [(atom_type, v + 1)]) h = (Ok tt, h').
Proof.
  revert h. induction keys as [|k keys IH]; intros h HT Hex Hk.
  { by exists h. }
  cbn [for_]. rewrite bind_unfold.
  destruct (Hk k) as [v Hv]; [by left|].
  assert (Hbody : ∃ h1, (v ← dict_item d k;
                         renumber_atom_indexes gap t [(k, v + 1)]) h =
                        (Ok tt, h1)).
  { rewrite bind_unfold. unfold dict_item. rewrite Hv, ret_unfold.
    unfold renumber_atom_indexes. rewrite bind_unfold, read_unfold.
    rewrite (proj2 (load_topology_Ok _ _ _) HT).
    by apply renumber_indexes_from_total. }
  destruct Hbody as [h1 Hbody]. rewrite Hbody.
  assert (R1 : retouched (fun l => l ∈ Topology.atoms T) h h1).
  { eapply (index_loop_retouched gap t T [k] d); [done|].
    cbn [for_]. rewrite bind_unfold, Hbody. reflexivity. }
  apply IH.
  - destruct R1 as (_ & -> & _). done.
  - by eapply atoms_exist_retouched.
  - intros k' Hk'. apply Hk. by right.
Qed.

Lemma read_charges_total (mt pt : loc) (keep : bool) h Tm Tp :
  topology_objs h !! mt = Some Tm → atoms_exist h (Topology.atoms Tm) →
  topology_objs h !! pt = Some Tp → atoms_exist h (Topology.atoms Tp) →
  ∃ c, (if keep then
          monomer_charge ← read (charge mt);
          polymer_charge ← read (charge pt);
          mret (Some (monomer_charge, polymer_charge))
        else mret None) h = (Ok c, h).
Proof.
  intros HTm Hm HTp Hp. destruct keep; [|by eexists].
  destruct (charge_total h mt Tm HTm Hm) as [mc Hmc].
  destruct (charge_total h pt Tp HTp Hp) as [pc Hpc].
  exists (Some (mc, pc)).
  by rewrite bind_unfold, read_unfold, Hmc, bind_unfold, read_unfold, Hpc.
Qed.

Lemma monomer_copy_Ok m T J h :
  topology_objs h !! Monomer.topology m = Some T →
  junctions_objs h !! Monomer.junctions m = Some J →
  monomer_copy m h = (Ok (copy_of m h), copied m T J h).
Proof.
  intros HT HJ. unfold monomer_copy.
  rewrite bind_unfold, read_unfold, (proj2 (load_topology_Ok _ _ _) HT).
  rewrite bind_unfold, read_unfold, (proj2 (load_junctions_Ok _ _ _) HJ).
  reflexivity.
Qed.

(** On a polymer with an atom and a monomer whose objects are all there,
    the first phase gets through: it ends with the copy of the monomer and
    the junctions of the copy that have the name. *)
Lemma prepare_Ok e self monomer to_name keep h Tp T J tn0 :
  topology_objs h !! Polymer.topology self = Some Tp →
  atoms_exist h (Topology.atoms Tp) → Topology.atoms Tp ≠ [] →
  topology_objs h !! Monomer.topology monomer = Some T →
  atoms_exist h (Topology.atoms T) →
  junctions_objs h !! Monomer.junctions monomer = Some J →
  named to_name J h = Ok tn0 →
  ∃ c h1,
    prepare e self monomer to_name keep h =
      (Ok (c, copy_of monomer h, copy_junctions (offsets_of h) tn0), h1) ∧
    retouched (copy_atoms h T) (copied monomer T J h) h1.
Proof.
  intros HTp Hp Hne HT Hm HJ Htn0. unfold prepare.
  destruct (read_charges_total (Monomer.topology monomer)
              (Polymer.topology self) keep h T Tp HT Hm HTp Hp) as [c Hc].
  rewrite (bind_run _ _ _ _ _ Hc).
  rewrite (bind_run _ _ _ _ _ (monomer_copy_Ok monomer T J h HT HJ)).
  set (hc := copied monomer T J h).
  pose proof (copied_extends monomer T J h) as Hext. fold hc in Hext.
  assert (HTpc : topology_objs hc !! Polymer.topology self = Some Tp).
  { destruct Hext as (_ & _ & HC & _). by eapply lookup_weaken. }
  assert (HTc : topology_objs hc !! Monomer.topology (copy_of monomer h) =
                Some (copy_topology (offsets_of h) T)) by by apply copied_topology.
  assert (HJc : junctions_objs hc !! Monomer.junctions (copy_of monomer h) =
                Some (copy_junctions (offsets_of h) J)) by by apply copied_junctions.
  assert (Hpc : atoms_exist hc (Topology.atoms Tp))
    by by eapply atoms_exist_extends.
  assert (Hcc : atoms_exist hc
                  (Topology.atoms (copy_topology (offsets_of h) T))).
  { intros a' (a & -> & Ha)%list_elem_of_fmap. destruct (Hm a Ha) as [A HA].
    exists (copy_atom (offsets_of h) A). by apply copied_atom. }
  destruct (atom_ids_total hc _ Tp HTpc Hpc) as (ids & Hids & Hlen).
  rewrite bind_unfold, read_unfold, Hids.
  destruct ids as [|x ids].
  { destruct (Topology.atoms Tp); [done|discriminate]. }
  rewrite bind_unfold. cbn [py_max]. rewrite ret_unfold.
  set (mx := foldl Z.max x ids).
  assert (Eren : ∃ h3, renumber_atoms (Monomer.topology (copy_of monomer h))
                         (mx + 1) hc = (Ok tt, h3)).
  { unfold renumber_atoms. rewrite bind_unfold, read_unfold.
    rewrite (proj2 (load_topology_Ok _ _ _) HTc).
    by apply renumber_from_total. }
  destruct Eren as [h3 Eren]. rewrite (bind_run _ _ _ _ _ Eren).
  eapply renumber_atoms_retouched in Eren as R1; [|exact HTc].
  assert (HTp3 : topology_objs h3 !! Polymer.topology self = Some Tp).
  { destruct R1 as (_ & -> & _). done. }
  assert (HT3 : topology_objs h3 !! Monomer.topology (copy_of monomer h) =
                Some (copy_topology (offsets_of h) T)).
  { destruct R1 as (_ & -> & _). done. }
  destruct (max_atom_index_total h3 _ Tp HTp3) as [d Hd].
  { by eapply atoms_exist_retouched. }
  rewrite bind_unfold, read_unfold, Hd.
  destruct (index_loop_total (index_gap e)
              (Monomer.topology (copy_of monomer h))
              (copy_topology (offsets_of h) T) (d.*1) d h3 HT3)
    as [h4 Efor].
  { by eapply atoms_exist_retouched. }
  { intros k Hk. by apply dict_get_keys. }
  rewrite (bind_run _ _ _ _ _ Efor).
  eapply index_loop_retouched in Efor as R2; [|exact HT3].
  pose proof (retouched_trans _ _ _ _ R1 R2) as R3.
  assert (HJ4 : junctions_objs h4 !! Monomer.junctions (copy_of monomer h) =
                Some (copy_junctions (offsets_of h) J)).
  { destruct R3 as (_ & _ & _ & -> & _). done. }
  rewrite bind_unfold, read_unfold, (proj2 (load_junctions_Ok _ _ _) HJ4).
  pose proof (named_copied monomer T J h to_name J tn0 (reflexivity _) Htn0)
    as Hc4.
  rewrite <- (retouched_named _ _ _ _ _ R3) in Hc4.
  rewrite bind_unfold, read_unfold, Hc4, ret_unfold.
  exists c, h4. done.
Qed.

Lemma any_named_true js name h :
  any_named js name h = Ok true →
  ∃ J j found, junctions_objs h !! js = Some J ∧
               named name J h = Ok (j :: found).
Proof.
  unfold any_named. rewrite rbind_unfold.
  destruct (load_junctions js h) as [J|] eqn:EJ; [|done].
  apply load_junctions_Ok in EJ. rewrite rbind_unfold.
  destruct (named name J h) as [found|] eqn:Ef; [|intros [=]].
  rewrite rret_unfold. intros [= Hf]. apply bool_decide_eq_true in Hf.
  destruct found as [|j found]; [done|]. by exists J, j, found.
Qed.

Lemma size_list_to_set_le (l : list loc) :
  (size (list_to_set l : gset loc) ≤ length l)%nat.
Proof.
  induction l as [|a l IH]; cbn [length].
  - by rewrite list_to_set_nil, size_empty.
  - rewrite list_to_set_cons, size_union_alt, size_singleton.
    assert (size (list_to_set l ∖ {[a]} : gset loc) ≤
            size (list_to_set l : gset loc))%nat
      by (apply subseteq_size; set_solver).
    lia.
Qed.

(** The searches of the second phase get through when the recursion limit
    covers the atoms of the monomer. *)
Lemma select_Ok e self monomer T J tj0 from_name pjs fn h h1 :
  topology_objs h !! Monomer.topology monomer = Some T →
  junctions_objs h !! Monomer.junctions monomer = Some J →
  links_ok h T →
  junctions_ok h (Monomer.junctions monomer) (Monomer.topology monomer) →
  tj0 ∈ J →
  retouched (copy_atoms h T) (copied monomer T J h) h1 →
  (length (Topology.atoms T) ≤ recursion_limit e)%nat →
  junctions_objs h !! Polymer.junctions self = Some pjs →
  named from_name pjs h = Ok fn →
  ∃ Dm h2,
    select e self (copy_of monomer h)
           (moved (off_junction (offsets_of h)) tj0) from_name h1 =
      (Ok (Dm, fn), h2) ∧
    extends h h2.
Proof.
  intros HT HJ Lm Hjm Hin R1 Hfit Hpjs Hfn. unfold select.
  set (tj := moved (off_junction (offsets_of h)) tj0).
  assert (HJ1 : junctions_objs h1 !! Monomer.junctions (copy_of monomer h) =
                Some (copy_junctions (offsets_of h) J)).
  { destruct R1 as (_ & _ & _ & -> & _). by apply copied_junctions. }
  assert (Htj : tj ∈ copy_junctions (offsets_of h) J).
  { apply list_elem_of_fmap. eauto. }
  assert (Erem : junctions_remove (Monomer.junctions (copy_of monomer h)) tj h1 =
                 (Ok tt, with_junctions
                           (insert (Monomer.junctions (copy_of monomer h))
                              (filter (fun j' => j' ≠ tj)
                                      (copy_junctions (offsets_of h) J))) h1)).
  { unfold junctions_remove.
    rewrite bind_unfold, read_unfold, (proj2 (load_junctions_Ok _ _ _) HJ1).
    by rewrite decide_True. }
  rewrite (bind_run _ _ _ _ _ Erem).
  set (h2 := with_junctions _ h1).
  assert (Hsel : selected monomer T J tj h h1 h2) by done.
  pose proof (selected_extends _ _ _ _ _ _ _ Hsel) as Hext.
  (* the bond that the junction of the copy marks *)
  pose proof Hjm as Hpl. unfold junctions_ok in Hpl. rewrite HJ, HT in Hpl.
  rewrite Forall_forall in Hpl. specialize (Hpl tj0 Hin).
  unfold junction_placed in Hpl.
  destruct (junction_objs h !! tj0) as [Jn0|] eqn:EJn0; [|done].
  destruct (Junction.location Jn0) as [b0|] eqn:Eloc; [|done].
  destruct (links_ok_bond h T b0 Lm Hpl) as (B0 & HB0 & Ha & Hb & Hne).
  assert (Etb : junction_location tj h2 = Ok (copy_bond (offsets_of h) B0)).
  { unfold junction_location. rewrite rbind_unfold. unfold load_junction.
    rewrite (selected_junction _ _ _ _ _ _ _ Hsel). unfold tj.
    rewrite (copied_junction monomer T J h tj0 Jn0 Hin EJn0).
    cbn [copy_junction Junction.location]. rewrite Eloc.
    cbn [fmap option_fmap option_map]. unfold load_bond.
    rewrite (selected_bonds _ _ _ _ _ _ _ Hsel).
    by rewrite (copied_bond monomer T J h b0 B0 Hpl HB0). }
  rewrite bind_unfold, read_unfold, Etb.
  cbn [copy_bond Bond.atom_a Bond.atom_b].
  (* the search on the copy *)
  set (mv := moved (off_atom (offsets_of h))).
  set (U := (list_to_set (Topology.atoms T) : gset loc)).
  assert (HU : closed h U) by by apply closed_of_links, links_ok_within.
  destruct (DFS_spec h U (recursion_limit e) (Bond.atom_a B0) ∅
              (Some (Bond.atom_b B0)) HU) as (Dm0 & EDm0 & _).
  { by apply elem_of_list_to_set. }
  { apply not_elem_of_empty. }
  { congruence. }
  { etrans; [|exact Hfit]. etrans; [|apply size_list_to_set_le].
    apply subseteq_size. set_solver. }
  assert (Hren : Polymer.DFS (recursion_limit e) (mv (Bond.atom_a B0))
                   (set_map mv (∅ : gset loc))
                   (mv <$> Some (Bond.atom_b B0)) h2 =
                 match Polymer.DFS (recursion_limit e) (Bond.atom_a B0) ∅
                                   (Some (Bond.atom_b B0)) h with
                 | Ok found => Ok (set_map mv found)
                 | Raise ex => Raise ex
                 end).
  { apply (DFS_renamed mv h h2 U); [done| |by apply elem_of_list_to_set].
    intros l ns Hl%elem_of_list_to_set Hns.
    rewrite (bond_neighbours_same h1 h2).
    - rewrite (retouched_bond_neighbours _ _ _ _ R1).
      by apply bond_neighbours_copied.
    - by eapply selected_atoms.
    - rewrite (selected_bonds _ _ _ _ _ _ _ Hsel). symmetry. apply R1. }
  rewrite set_map_empty, EDm0 in Hren. cbn [fmap option_fmap option_map] in Hren.
  rewrite bind_unfold, read_unfold, Hren.
  (* the junctions of the polymer *)
  assert (Hpjs2 : junctions_objs h2 !! Polymer.junctions self = Some pjs).
  { destruct Hext as (_ & _ & _ & _ & HE). by eapply lookup_weaken. }
  rewrite bind_unfold, read_unfold, (proj2 (load_junctions_Ok _ _ _) Hpjs2).
  rewrite bind_unfold, read_unfold, (extends_named _ _ _ _ _ Hext Hfn).
  rewrite ret_unfold. by exists (set_map mv Dm0), h2.
Qed.

End progress.

(** ** The exceptions of extend *)

Section error_paths.
Context `{PyFloat}.

(** The recursion limit covers the atoms of the topology. *)
Definition fits (e : env) (h : heap) (t : loc) : Prop :=
  match topology_objs h !! t with
  | Some T => (length (Topology.atoms T) ≤ recursion_limit e)%nat
  | None => False
  end.

#[export] Instance fits_dec e h t : Decision (fits e h t).
Proof. unfold fits. destruct (topology_objs h !! t); apply _. Defined.

(** X4: on a polymer with an atom and a well-formed monomer that has no
    junction named [to_name], extend raises the ValueError of its own test,
    with the name in the message, and every object that was in the store
    holds what it held. *)
Theorem extend_monomer_lacks_junction e self monomer from_name to_name keep h :
  topology_ok h (Polymer.topology self) → populated h (Polymer.topology self) →
  monomer_ok h monomer →
  any_named (Monomer.junctions monomer) to_name h = Ok false →
  ∃ h', Polymer.extend e self monomer from_name to_name keep h =
          (Raise (ValueError ("No junction named " +:+ to_name +:+
                              " found in the monomer")), h') ∧
        extends h h'.
Proof.
  intros Htp Hpop [Htm Hjm] Hnone.
  unfold topology_ok in Htp, Htm. unfold populated in Hpop.
  destruct (topology_objs h !! Polymer.topology self) as [Tp|] eqn:ETp; [|done].
  destruct (topology_objs h !! Monomer.topology monomer) as [T|] eqn:ET; [|done].
  destruct Htp as [_ Lp]. destruct Htm as [_ Lm].
  apply any_named_false in Hnone as (J & HJ & Hnamed).
  destruct (prepare_Ok e self monomer to_name keep h Tp T J []
              ETp (links_ok_exist _ _ Lp) Hpop ET (links_ok_exist _ _ Lm)
              HJ Hnamed) as (c & h1 & Hprep & R1).
  exists h1. split; [|by eapply retouched_copied_extends].
  rewrite extend_phases. unfold extend_in_phases.
  by rewrite (bind_run _ _ _ _ _ Hprep).
Qed.

(** X5: on a polymer with an atom but no junction named [from_name], with
    a well-formed monomer that has a junction named [to_name] and no more
    atoms than the recursion limit, extend raises the IndexError of
    [random.choice] on an empty list, not the ValueError that its own test
    for a missing junction would raise, and every object that was in the
    store holds what it held. *)
Theorem extend_polymer_lacks_junction e self monomer from_name to_name keep h :
  topology_ok h (Polymer.topology self) → populated h (Polymer.topology self) →
  monomer_ok h monomer → fits e h (Monomer.topology monomer) →
  any_named (Monomer.junctions monomer) to_name h = Ok true →
  Polymer.has_junction self from_name h = Ok false →
  ∃ h', Polymer.extend e self monomer from_name to_name keep h =
          (Raise (IndexError "Cannot choose from an empty sequence"), h') ∧
        extends h h'.
Proof.
  intros Htp Hpop [Htm Hjm] Hfit Hto Hfrom.
  unfold topology_ok in Htp, Htm. unfold populated in Hpop. unfold fits in Hfit.
  destruct (topology_objs h !! Polymer.topology self) as [Tp|] eqn:ETp; [|done].
  destruct (topology_objs h !! Monomer.topology monomer) as [T|] eqn:ET; [|done].
  destruct Htp as [_ Lp]. destruct Htm as [_ Lm].
  apply any_named_true in Hto as (J & tj0 & tn0 & HJ & Hnamed).
  apply any_named_false in Hfrom as (pjs & Hpjs & Hnone).
  destruct (prepare_Ok e self monomer to_name keep h Tp T J (tj0 :: tn0)
              ETp (links_ok_exist _ _ Lp) Hpop ET (links_ok_exist _ _ Lm)
              HJ Hnamed) as (c & h1 & Hprep & R1).
  destruct (select_Ok e self monomer T J tj0 from_name pjs [] h h1
              ET HJ Lm Hjm) as (Dm & h2 & Hsel & Hext); try done.
  { eapply named_elem; [exact Hnamed|by left]. }
  exists h2. split; [|done].
  rewrite extend_phases. unfold extend_in_phases.
  rewrite (bind_run _ _ _ _ _ Hprep). cbn [copy_junctions fmap list_fmap head].
  by rewrite (bind_run _ _ _ _ _ Hsel).
Qed.


(** X7: has_junction is a sound guard for extend: when extend returns, on a
    well-formed polymer and monomer, has_junction answered True for
    [from_name] before the call, and the monomer had a junction named
    [to_name]. *)
Theorem extend_returns_guarded e self monomer from_name to_name keep h h' :
  topology_ok h (Polymer.topology self) →
  junctions_ok h (Polymer.junctions self) (Polymer.topology self) →
  monomer_ok h monomer →
  Polymer.extend e self monomer from_name to_name keep h = (Ok tt, h') →
  Polymer.has_junction self from_name h = Ok true ∧
  any_named (Monomer.junctions monomer) to_name h = Ok true.
Proof.
  intros Htp Hjp Hm E.
  destruct (extend_Ok _ _ _ _ _ _ _ _ Htp Hjp Hm E)
    as (Tp & Tm & T' & tj & tb & fj & fb & Dm & Dp & nb & pjs & news & HE).
  cbn zeta in HE.
  destruct HE as (_ & ((J & tn & HJ & Htn & Hhead & _) &
                       (pjs' & fn & Hpjs & Hfn & Hfj & _)) & _).
  unfold Polymer.has_junction, any_named. split.
  - rewrite rbind_unfold, (proj2 (load_junctions_Ok _ _ _) Hpjs).
    rewrite rbind_unfold, Hfn, rret_unfold. f_equal.
    apply bool_decide_eq_true. intros ->. by rewrite lookup_nil in Hfj.
  - rewrite rbind_unfold, (proj2 (load_junctions_Ok _ _ _) HJ).
    rewrite rbind_unfold, Htn, rret_unfold. f_equal.
    apply bool_decide_eq_true. by intros ->.
Qed.

End error_paths.

(** ** What the polymer keeps *)

Section kept.
Context `{PyFloat}.

(** X8: the polymer that the constructor makes of a well-formed monomer
    has a junction of a name exactly when the monomer has one: has_junction
    on the new polymer answers as the same test over the monomer's
    junctions does. *)
Theorem init_has_junction monomer name h p h1 :
  monomer_ok h monomer →
  Polymer.__init__ monomer h = (Ok p, h1) →
  Polymer.has_junction p name h1 =
  any_named (Monomer.junctions monomer) name h.
Proof.
  intros [Htm Hjm] (T & J & HT & HJ & -> & ->)%init_run.
  destruct (named_total h _ _ J name Hjm HJ) as [found Hfound].
  pose proof (named_copied monomer T J h name J found (reflexivity _) Hfound)
    as Hc.
  unfold Polymer.has_junction, any_named. cbn [Polymer.junctions].
  rewrite !rbind_unfold.
  rewrite (proj2 (load_junctions_Ok _ _ _) (copied_junctions monomer T J h HJ)).
  rewrite (proj2 (load_junctions_Ok _ _ _) HJ).
  rewrite !rbind_unfold, Hc, Hfound, !rret_unfold. f_equal.
  by destruct found.
Qed.

(** X9: a call of extend that returns has renumbered no atom that was
    there before the call: every such atom is still in the store, with the
    atom_id, the atom_index and the atom_type it had. *)
Theorem extend_keeps_numbers e self monomer from_name to_name keep h h' :
  Polymer.extend e self monomer from_name to_name keep h = (Ok tt, h') →
  ∀ a A, atom_objs h !! a = Some A →
         ∃ A', atom_objs h' !! a = Some A' ∧ same_numbers A A'.
Proof.
  intros E a A HA.
  apply extend_run in E
    as [[[ex [=]] _]|(T & J & tn & tj & tb & Dm & pjs & fn & fj & h1 & h2 & c &
                      HT & HJ & Hsel & Htn & Hhead & Htb & HDm & Hpjs & Hfn &
                      Hfj & Efin)].
  destruct (finish_Ok _ _ _ _ _ _ _ tb _ _ Htb Efin)
    as (pjs' & fb & Dp & Tp & Tc & news & T' & _ & _ & _ & _ & _ & _ & _ & _ &
        _ & _ & _ & _ & _ & Hnum).
  assert (HA2 : atom_objs h2 !! a = Some A).
  { destruct (selected_extends _ _ _ _ _ _ _ Hsel) as (HE & _).
    by eapply lookup_weaken. }
  by eapply numbers_kept_lookup_fwd.
Qed.

(** X10: a failure of extend can leave the polymer changed.  When the
    junction that the draw picks on the polymer has no location, extend
    raises AttributeError, and by then it has taken that junction out of the
    polymer's junctions. *)
Theorem extend_unplaced_junction e self monomer from_name to_name keep h
    pjs fn fj Jn :
  topology_ok h (Polymer.topology self) → populated h (Polymer.topology self) →
  monomer_ok h monomer → fits e h (Monomer.topology monomer) →
  any_named (Monomer.junctions monomer) to_name h = Ok true →
  junctions_objs h !! Polymer.junctions self = Some pjs →
  named from_name pjs h = Ok fn →
  fn !! (rnd e `mod` length fn)%nat = Some fj →
  junction_objs h !! fj = Some Jn → Junction.location Jn = None →
  ∃ msg h', Polymer.extend e self monomer from_name to_name keep h =
              (Raise (AttributeError msg), h') ∧
            fj ∈ pjs ∧
            junctions_objs h' !! Polymer.junctions self =
              Some (filter (fun j => j ≠ fj) pjs).
Proof.
  intros Htp Hpop [Htm Hjm] Hfit Hto Hpjs Hfn Hfj HJn Hloc.
  unfold topology_ok in Htp, Htm. unfold populated in Hpop. unfold fits in Hfit.
  destruct (topology_objs h !! Polymer.topology self) as [Tp|] eqn:ETp; [|done].
  destruct (topology_objs h !! Monomer.topology monomer) as [T|] eqn:ET; [|done].
  destruct Htp as [_ Lp]. destruct Htm as [_ Lm].
  apply any_named_true in Hto as (J & tj0 & tn0 & HJ & Hnamed).
  destruct (prepare_Ok e self monomer to_name keep h Tp T J (tj0 :: tn0)
              ETp (links_ok_exist _ _ Lp) Hpop ET (links_ok_exist _ _ Lm)
              HJ Hnamed) as (c & h1 & Hprep & R1).
  destruct (select_Ok e self monomer T J tj0 from_name pjs fn h h1
              ET HJ Lm Hjm) as (Dm & h2 & Hsel & Hext); try done.
  { eapply named_elem; [exact Hnamed|by left]. }
  assert (Hin : fj ∈ pjs).
  { eapply named_elem; [exact Hfn|]. by eapply list_elem_of_lookup_2. }
  assert (Hpjs2 : junctions_objs h2 !! Polymer.junctions self = Some pjs).
  { destruct Hext as (_ & _ & _ & _ & HE). by eapply lookup_weaken. }
  assert (HJn2 : junction_objs h2 !! fj = Some Jn).
  { destruct Hext as (_ & _ & _ & HE & _). by eapply lookup_weaken. }
  eexists _, _. split; [|split; [exact Hin|]].
  - rewrite extend_phases. unfold extend_in_phases.
    rewrite (bind_run _ _ _ _ _ Hprep). cbn [copy_junctions fmap list_fmap head].
    rewrite (bind_run _ _ _ _ _ Hsel).
    rewrite bind_unfold. unfold Polymer.random_choice at 1. rewrite Hfj, ret_unfold.
    unfold finish. rewrite bind_unfold. unfold junctions_remove at 1.
    rewrite bind_unfold, read_unfold, (proj2 (load_junctions_Ok _ _ _) Hpjs2).
    rewrite decide_True by done. cbn [store_junctions update].
    rewrite bind_unfold, read_unfold. unfold junction_location at 1.
    rewrite rbind_unfold. unfold load_junction at 1.
    cbn [junction_objs with_junctions]. rewrite HJn2, Hloc. reflexivity.
  - cbn. apply lookup_insert_eq.
Qed.

End kept.

(** ** The identifiers of the copy *)

Section new_ids.
Context `{PyFloat}.

Ltac step_read E x Ex :=
  rewrite bind_unfold, read_unfold in E;
  match type of E with
  | context [match ?m with Ok _ => _ | Raise _ => _ end] =>
      destruct m as [x|?] eqn:Ex
  end.

Ltac step_run E x h1 Ex :=
  rewrite bind_unfold in E;
  match type of E with
  | context [match ?m with _ => _ end] =>
      destruct m as [[x|?] h1] eqn:Ex; cbv beta iota in E
  end.

(** [ids_kept h h']: the stores have the same atoms, with the same
    identifiers. *)
Definition ids_kept (h h' : heap) : Prop :=
  ∀ l, option_Forall2 (fun A A' => Atom.atom_id A' = Atom.atom_id A)
                      (atom_objs h !! l) (atom_objs h' !! l).

Lemma ids_kept_refl h : ids_kept h h.
Proof. intros l. destruct (atom_objs h !! l); by constructor. Qed.

Lemma ids_kept_trans h1 h2 h3 : ids_kept h1 h2 → ids_kept h2 h3 → ids_kept h1 h3.
Proof.
  intros F1 F2 l. specialize (F1 l). specialize (F2 l).
  destruct F1 as [A B ?|]; inversion F2 as [B' C ?|]; subst; constructor.
  congruence.
Qed.

Lemma ids_kept_lookup h h' l A :
  ids_kept h h' → atom_objs h !! l = Some A →
  ∃ A', atom_objs h' !! l = Some A' ∧ Atom.atom_id A' = Atom.atom_id A.
Proof.
  intros F HA. specialize (F l). rewrite HA in F. inversion F. eauto.
Qed.

Lemma renumber_indexes_from_ids gap d atoms h r h' :
  renumber_indexes_from gap d atoms h = (r, h') → ids_kept h h'.
Proof.
  revert d h. induction atoms as [|a atoms IH]; intros d h.
  { intros [= <- <-]. apply ids_kept_refl. }
  cbn [renumber_indexes_from]. rewrite bind_unfold, read_unfold.
  destruct (load_atom a h) as [A|] eqn:EA.
  2:{ intros [= <- <-]. apply ids_kept_refl. }
  apply load_atom_Ok in EA.
  destruct (dict_get (Atom.atom_type A) d) as [v|]; [|apply IH].
  rewrite bind_unfold. cbn [store_atom update]. intros E%IH.
  eapply ids_kept_trans; [|exact E]. intros l. cbn.
  destruct (decide (a = l)) as [<-|Hne].
  - rewrite lookup_insert_eq, EA. by constructor.
  - rewrite lookup_insert_ne by done. destruct (atom_objs h !! l); by constructor.
Qed.

Lemma index_loop_ids gap t (keys : list string) (d : dict) h r h' :
  for_ keys (fun atom_type =>
    v ← dict_item d atom_type;
    renumber_atom_indexes gap t [(atom_type, v + 1)]) h = (r, h') →
  ids_kept h h'.
Proof.
  revert h. induction keys as [|k keys IH]; intros h.
  { intros [= <- <-]. apply ids_kept_refl. }
  cbn [for_]. rewrite bind_unfold.
  assert (Hbody : ∀ rb hb,
            (v ← dict_item d k; renumber_atom_indexes gap t [(k, v + 1)]) h =
            (rb, hb) → ids_kept h hb).
  { intros rb hb. rewrite bind_unfold.
    destruct (dict_item d k h) as [[v|?] hx] eqn:Ev;
      apply dict_item_run in Ev as ->.
    2:{ intros [= <- <-]. apply ids_kept_refl. }
    unfold renumber_atom_indexes. rewrite bind_unfold, read_unfold.
    destruct (load_topology t h); [|intros [= <- <-]; apply ids_kept_refl].
    apply renumber_indexes_from_ids. }
  destruct ((v ← dict_item d k; renumber_atom_indexes gap t [(k, v + 1)]) h)
    as [[[]|ex] h1] eqn:E1.
  - intros E%IH. eapply ids_kept_trans; [|exact E]. by eapply Hbody.
  - intros [= <- <-]. by eapply Hbody.
Qed.

(** The first phase gives the atoms of the copy the identifiers from one
    above the largest identifier of the polymer, in the order of the atoms. *)
Lemma prepare_ids e self monomer to_name keep h c nm tn h1 Tp T :
  prepare e self monomer to_name keep h = (Ok (c, nm, tn), h1) →
  topology_objs h !! Polymer.topology self = Some Tp →
  atoms_exist h (Topology.atoms Tp) →
  topology_objs h !! Monomer.topology monomer = Some T →
  NoDup (Topology.atoms T) →
  ∃ mx,
    (∀ p P, p ∈ Topology.atoms Tp → atom_objs h !! p = Some P →
            Atom.atom_id P ≤ mx) ∧
    (∃ p P, p ∈ Topology.atoms Tp ∧ atom_objs h !! p = Some P ∧
            Atom.atom_id P = mx) ∧
    ∀ i a, Topology.atoms T !! i = Some a →
           ∃ A', atom_objs h1 !! moved (off_atom (offsets_of h)) a = Some A' ∧
                 Atom.atom_id A' = mx + 1 + Z.of_nat i.
Proof.
  intros E HTp Hp HT ND. unfold prepare in E.
  step_run E c0 hc Ec; apply read_charges_run in Ec as ->; [|done].
  step_run E nm0 h2 Ecopy;
    apply monomer_copy_run in Ecopy
      as [(T0 & J & HT0 & HJ & [= ->] & ->)|(e' & [=] & _)]; [|done].
  rewrite HT in HT0. injection HT0 as <-.
  set (hc := copied monomer T J h) in *.
  pose proof (copied_extends monomer T J h) as Hext. fold hc in Hext.
  assert (HTpc : topology_objs hc !! Polymer.topology self = Some Tp).
  { destruct Hext as (_ & _ & HC & _). by eapply lookup_weaken. }
  assert (HTc : topology_objs hc !! Monomer.topology (copy_of monomer h) =
                Some (copy_topology (offsets_of h) T)) by by apply copied_topology.
  step_read E ids Eids; [|done].
  step_run E mx h3 Emx; [|done].
  pose proof (py_max_run _ _ _ _ Emx) as ->.
  apply py_max_Ok in Emx as [Hle Hmx].
  step_run E u h3 Eren; [|done]. destruct u.
  step_read E d Ed; [|done].
  step_run E u h4 Efor; [|done]. destruct u.
  step_read E mjs Emjs; [|done].
  step_read E tn0 Etn; [|done].
  injection E as <- <- <- <-.
  apply index_loop_ids in Efor.
  (* the identifiers read on the polymer *)
  unfold atom_ids in Eids. rewrite rbind_unfold in Eids.
  rewrite (proj2 (load_topology_Ok _ _ _) HTpc) in Eids.
  apply rmap_Ok in Eids.
  assert (Hsame : ∀ p P, atom_objs h !! p = Some P → atom_objs hc !! p = Some P).
  { intros p P HP. destruct Hext as (HA & _). by eapply lookup_weaken. }
  exists mx. split; [|split].
  - intros p P [i Hi]%list_elem_of_lookup HP.
    destruct (Forall2_lookup_l _ _ _ _ _ Eids Hi) as (x & Hx & Hrel).
    rewrite rbind_unfold in Hrel.
    rewrite (proj2 (load_atom_Ok _ _ _) (Hsame _ _ HP)) in Hrel.
    injection Hrel as <-. apply Hle. by eapply list_elem_of_lookup_2.
  - apply list_elem_of_lookup in Hmx as [i Hi].
    destruct (Forall2_lookup_r _ _ _ _ _ Eids Hi) as (p & Hpi & Hrel).
    assert (Hin : p ∈ Topology.atoms Tp) by by eapply list_elem_of_lookup_2.
    destruct (Hp p Hin) as [P HP]. exists p, P. split; [done|]. split; [done|].
    rewrite rbind_unfold in Hrel.
    rewrite (proj2 (load_atom_Ok _ _ _) (Hsame _ _ HP)) in Hrel.
    by injection Hrel.
  - intros i a Hi. unfold renumber_atoms in Eren.
    rewrite bind_unfold, read_unfold in Eren.
    rewrite (proj2 (load_topology_Ok _ _ _) HTc) in Eren.
    apply renumber_from_Ok in Eren as [Hids _].
    2:{ cbn. apply NoDup_fmap_2; [apply moved_inj|done]. }
    destruct (Hids i (moved (off_atom (offsets_of h)) a)) as (A0 & _ & HA3).
    { cbn. by rewrite list_lookup_fmap, Hi. }
    destruct (ids_kept_lookup _ _ _ _ Efor HA3) as (A' & HA' & Hid).
    exists A'. split; [done|]. rewrite Hid. cbn. lia.
Qed.

(** A call that returns has gone through the three phases; the atoms and
    their numbers are those of the end of the first. *)
Lemma extend_prepared e self monomer from_name to_name keep h h' :
  Polymer.extend e self monomer from_name to_name keep h = (Ok tt, h') →
  ∃ c nm tn h1,
    prepare e self monomer to_name keep h = (Ok (c, nm, tn), h1) ∧
    numbers_kept h1 h'.
Proof.
  rewrite extend_phases. unfold extend_in_phases. rewrite bind_unfold.
  destruct (prepare e self monomer to_name keep h)
    as [[[[c nm] tn]|ex] h1] eqn:Eprep; [|done].
  destruct (head tn) as [tj|] eqn:Ehead; [|done].
  rewrite bind_unfold.
  destruct (select e self nm tj from_name h1) as [[[Dm fn]|ex] h2] eqn:Esel;
    [|done].
  apply select_run in Esel as [_ Hsel].
  destruct (Hsel Dm fn eq_refl)
    as ((L & HL & HtjL & ->) & tb & pjs & Htb & HDm & Hpjs & Hfn).
  rewrite bind_unfold.
  destruct (Polymer.random_choice (rnd e) fn _) as [[fj|ex] h3] eqn:Ech;
    apply random_choice_run in Ech as [-> Hfj]; [|done].
  intros Efin. exists c, nm, tn, h1. split; [done|].
  destruct (finish_Ok _ _ _ _ _ _ _ tb _ _ Htb Efin)
    as (pjs' & fb & Dp & Tp & Tc & news & T' & _ & _ & _ & _ & _ & _ & _ & _ &
        _ & _ & _ & _ & _ & Hnum).
  eapply numbers_kept_trans; [|exact Hnum]. by apply numbers_kept_same.
Qed.

(** The atoms of the topology have identifiers that differ. *)
Definition unique_ids (h : heap) (t : loc) : Prop :=
  match topology_objs h !! t with
  | Some T => ids_unique h (Topology.atoms T)
  | None => False
  end.

#[export] Instance unique_ids_dec h t : Decision (unique_ids h t).
Proof. unfold unique_ids. destruct (topology_objs h !! t); apply _. Defined.

(** X11: in a call of extend that returns, the atoms of the monomer's copy
    have been given the identifiers from one above the largest identifier
    of the polymer, one up from the other in the order of the monomer's
    atoms, and they hold them at the end. *)
Theorem extend_new_ids e self monomer from_name to_name keep h h' :
  topology_ok h (Polymer.topology self) →
  topology_ok h (Monomer.topology monomer) →
  Polymer.extend e self monomer from_name to_name keep h = (Ok tt, h') →
  ∃ Tp Tm mx,
    topology_objs h !! Polymer.topology self = Some Tp ∧
    topology_objs h !! Monomer.topology monomer = Some Tm ∧
    (∀ p P, p ∈ Topology.atoms Tp → atom_objs h !! p = Some P →
            Atom.atom_id P ≤ mx) ∧
    (∃ p P, p ∈ Topology.atoms Tp ∧ atom_objs h !! p = Some P ∧
            Atom.atom_id P = mx) ∧
    ∀ i a, Topology.atoms Tm !! i = Some a →
           ∃ A', atom_objs h' !! moved (off_atom (offsets_of h)) a = Some A' ∧
                 Atom.atom_id A' = mx + 1 + Z.of_nat i.
Proof.
  intros Htp Htm E. unfold topology_ok in Htp, Htm.
  destruct (topology_objs h !! Polymer.topology self) as [Tp|] eqn:ETp; [|done].
  destruct (topology_objs h !! Monomer.topology monomer) as [T|] eqn:ET; [|done].
  destruct Htp as [_ Lp]. destruct Htm as [ND _].
  apply extend_prepared in E as (c & nm & tn & h1 & Eprep & Hnum).
  destruct (prepare_ids _ _ _ _ _ _ _ _ _ _ Tp T Eprep ETp
              (links_ok_exist _ _ Lp) ET ND) as (mx & Hle & Hmax & Hids).
  exists Tp, T, mx. do 4 (split; [done|]).
  intros i a Hi. destruct (Hids i a Hi) as (A1 & HA1 & Hid).
  destruct (numbers_kept_lookup_fwd _ _ _ _ Hnum HA1) as (A' & HA' & Hn & _).
  exists A'. split; [done|]. by rewrite Hn.
Qed.

(** X12: when the identifiers of the polymer's atoms differ from each
    other before a call of extend that returns, so do those of the atoms of
    the merged topology after it. *)
Theorem extend_ids_unique e self monomer from_name to_name keep h h' :
  topology_ok h (Polymer.topology self) →
  junctions_ok h (Polymer.junctions self) (Polymer.topology self) →
  monomer_ok h monomer →
  unique_ids h (Polymer.topology self) →
  Polymer.extend e self monomer from_name to_name keep h = (Ok tt, h') →
  unique_ids h' (Polymer.topology self).
Proof.
  intros Htp Hjp Hm Huniq E.
  destruct (extend_Ok _ _ _ _ _ _ _ _ Htp Hjp Hm E)
    as (Tp & Tm & T' & tj & tb & fj & fb & Dm & Dp & nb & pjs & news & HE).
  cbn zeta in HE. destruct HE as ((HTp & HTm & _) & _ & _ & (HT' & Hatoms) & _).
  unfold unique_ids in *. rewrite HTp in Huniq. rewrite HT'.
  unfold ids_unique in *. rewrite Hatoms.
  unfold topology_ok in Htp. rewrite HTp in Htp. destruct Htp as [_ Lp].
  destruct Hm as [Htm _]. unfold topology_ok in Htm. rewrite HTm in Htm.
  destruct Htm as [ND _].
  apply extend_prepared in E as (c & nm & tn & h1 & Eprep & Hnum).
  destruct (prepare_ids _ _ _ _ _ _ _ _ _ _ Tp Tm Eprep HTp
              (links_ok_exist _ _ Lp) HTm ND) as (mx & Hle & _ & Hids1).
  assert (Hids : ∀ i a, Topology.atoms Tm !! i = Some a →
            ∃ A', atom_objs h' !! moved (off_atom (offsets_of h)) a = Some A' ∧
                  Atom.atom_id A' = mx + 1 + Z.of_nat i).
  { intros i a Hi. destruct (Hids1 i a Hi) as (A1 & HA1 & Hid).
    destruct (numbers_kept_lookup_fwd _ _ _ _ Hnum HA1) as (A' & HA' & Hn & _).
    exists A'. split; [done|]. by rewrite Hn. }
  assert (Hkeep : ∀ p P, atom_objs h !! p = Some P →
            ∃ P', atom_objs h' !! p = Some P' ∧ same_numbers P P').
  { intros p P HP. eapply numbers_kept_lookup_fwd; [exact Hnum|].
    apply prepare_run in Eprep as [[_ [? [=]]]|(T0 & J & _ & _ & R1 & _)].
    destruct (retouched_copied_extends _ _ _ _ _ R1) as (HA & _).
    by eapply lookup_weaken. }
  set (mv := moved (off_atom (offsets_of h))) in *.
  eapply sublist_NoDup; [|apply fmap_sublist, sublist_filter].
  rewrite fmap_app. apply NoDup_app. split; [|split].
  - (* the atoms of the polymer have the identifiers they had *)
    assert (id_of h' <$> Topology.atoms Tp = id_of h <$> Topology.atoms Tp)
      as ->; [|done].
    apply list_fmap_ext. intros _ p Hp%list_elem_of_lookup_2.
    destruct (links_ok_atom h Tp p Lp Hp) as [P HP].
    destruct (Hkeep p P HP) as (P' & HP' & Hid & _).
    unfold id_of. rewrite HP, HP'. cbn. by rewrite Hid.
  - (* those of the copy are larger *)
    intros x (p & -> & Hp)%list_elem_of_fmap (a' & Heq & Ha')%list_elem_of_fmap.
    apply list_elem_of_fmap in Ha' as (a & -> & Ha).
    apply list_elem_of_lookup in Ha as [i Hi].
    destruct (Hids i a Hi) as (A' & HA' & HidA).
    destruct (links_ok_atom h Tp p Lp Hp) as [P HP].
    destruct (Hkeep p P HP) as (P' & HP' & Hid & _).
    specialize (Hle p P Hp HP).
    unfold id_of in Heq. rewrite HP', HA' in Heq. cbn in Heq.
    injection Heq as Heq. lia.
  - (* and differ from each other *)
    rewrite <- list_fmap_compose. apply NoDup_alt.
    intros i j x Hi Hj. rewrite list_lookup_fmap in Hi, Hj.
    destruct (Topology.atoms Tm !! i) as [a|] eqn:Ea; [|done].
    destruct (Topology.atoms Tm !! j) as [b|] eqn:Eb; [|done].
    destruct (Hids i a Ea) as (A' & HA' & HidA).
    destruct (Hids j b Eb) as (B' & HB' & HidB).
    cbn in Hi, Hj. unfold id_of in Hi, Hj. fold mv in HA', HB'.
    rewrite HA' in Hi. rewrite HB' in Hj. cbn in Hi, Hj.
    assert (Atom.atom_id A' = Atom.atom_id B') by congruence. lia.
Qed.

End new_ids.

(** ** The junctions the polymer inherits *)

Section inherit.
Context `{PyFloat}.

Ltac step_read E x Ex :=
  rewrite bind_unfold, read_unfold in E;
  match type of E with
  | context [match ?m with Ok _ => _ | Raise _ => _ end] =>
      destruct m as [x|?] eqn:Ex
  end.

Ltac step_run E x h1 Ex :=
  rewrite bind_unfold in E;
  match type of E with
  | context [match ?m with _ => _ end] =>
      destruct m as [[x|?] h1] eqn:Ex; cbv beta iota in E
  end.

(** The junction [n] is new, and has the name of the junction [j]. *)
Definition named_after (h h' : heap) (j n : loc) : Prop :=
  junction_objs h !! n = None ∧
  ∃ Jn Jn', junction_objs h' !! j = Some Jn ∧ junction_objs h' !! n = Some Jn' ∧
            Junction.name Jn' = Junction.name Jn.

(** The loop of extend over the junctions left on the monomer's copy makes
    one junction for each, with its name, and adds them in order. *)
Lemma register_loop_names (tp jp : loc) (njs : list loc) h h' L :
  for_ njs (fun junction =>
    j ← read (load_junction junction);
    jb ← read (junction_location junction);
    a ← read (load_atom (Bond.atom_a jb));
    b ← read (load_atom (Bond.atom_b jb));
    bond ← read (get_bond tp (Atom.atom_id a) (Atom.atom_id b));
    new_junction ← new_Junction (Junction.name j) bond;
    junctions_add jp new_junction) h = (Ok tt, h') →
  junctions_objs h !! jp = Some L →
  junction_objs h ⊆ junction_objs h' ∧
  ∃ news, junctions_objs h' !! jp = Some (L ++ news) ∧
          Forall2 (named_after h h') njs news.
Proof.
  revert h L. induction njs as [|n njs IH]; intros h L.
  - intros [= <-] HL. split; [done|]. exists []. rewrite app_nil_r.
    split; [done|constructor].
  - cbn [for_]. intros E HL. step_run E u h1 E1; [|done]. destruct u.
    step_read E1 j Ej; [|done]. step_read E1 jb Ejb; [|done].
    step_read E1 a Ea; [|done]. step_read E1 b Eb; [|done].
    step_read E1 bond Ebond; [|done].
    rewrite bind_unfold in E1. cbn [new_Junction alloc_junction] in E1.
    cbv beta iota zeta in E1. unfold junctions_add in E1.
    step_read E1 L1 EL1; [|done]. apply load_junctions_Ok in EL1. cbn in EL1.
    rewrite HL in EL1. injection EL1 as <-. injection E1 as <-.
    apply load_junction_Ok in Ej.
    set (nj := fresh (dom (junction_objs h))) in *.
    assert (junction_objs h !! nj = None) as Hnj.
    { apply not_elem_of_dom, is_fresh. }
    edestruct IH as (HJ & news & Hnews & Hall);
      [exact E|cbn; apply lookup_insert_eq|].
    cbn in HJ.
    assert (Hsub : junction_objs h ⊆ junction_objs h').
    { etrans; [|exact HJ]. by apply insert_subseteq. }
    split; [done|]. exists (nj :: news). split.
    + rewrite Hnews. f_equal. by rewrite <- app_assoc.
    + constructor.
      * split; [done|]. exists j, (Junction.mk (Junction.name j) bond).
        split; [by eapply lookup_weaken|]. split; [|done].
        eapply lookup_weaken; [|exact HJ]. apply lookup_insert_eq.
      * eapply Forall2_impl; [exact Hall|].
        intros j' n' (Hn' & Jn & Jn' & ? & ? & ?). split; [|eauto].
        cbn in Hn'. destruct (decide (nj = n')) as [<-|Hne].
        -- by rewrite lookup_insert_eq in Hn'.
        -- by rewrite lookup_insert_ne in Hn'.
Qed.

(** The last phase leaves the junction objects it found, takes the chosen
    junction out of the polymer's collection, and adds to it one new
    junction for each junction of the monomer's copy, with its name. *)
Lemma finish_names e self nm tj fj Dm charges h h' njs :
  finish e self nm tj fj Dm charges h = (Ok tt, h') →
  junctions_objs h !! Monomer.junctions nm = Some njs →
  Monomer.junctions nm ≠ Polymer.junctions self →
  ∃ pjs news,
    junctions_objs h !! Polymer.junctions self = Some pjs ∧
    junctions_objs h' !! Polymer.junctions self =
      Some (filter (fun j => j ≠ fj) pjs ++ news) ∧
    junction_objs h ⊆ junction_objs h' ∧
    Forall2 (named_after h h') njs news.
Proof.
  intros E Hnjs Hne. unfold finish in E.
  step_run E u h1 E1; [|done]. destruct u.
  apply junctions_remove_run in E1
    as [(pjs & Hpjs & Hfj & _ & ->)|(? & [=] & _)].
  set (h1 := with_junctions _ h) in *.
  step_read E fb Efb; [|done].
  step_read E Dp EDp; [|done].
  step_run E u h2 E2; [|done]. destruct u.
  apply topology_add_Ok in E2 as (Tp & Tc & HTp & HTc & ->).
  set (h2 := with_topologies _ h1) in *.
  step_read E njs0 Enjs; [|done].
  apply load_junctions_Ok in Enjs. cbn in Enjs.
  rewrite lookup_insert_ne in Enjs by done.
  rewrite Hnjs in Enjs. injection Enjs as <-.
  step_run E u h3 E3; [|done]. destruct u.
  eapply register_loop_names in E3 as (HJ3 & news & Hnews & Hall);
    [|cbn; apply lookup_insert_eq].
  cbn [junction_objs h2 h1 with_topologies with_junctions] in HJ3.
  step_read E fb' Efb'; [|done].
  step_read E tb' Etb'; [|done].
  step_run E nb h4 E4; [|done].
  apply new_Bond_Ok in E4 as (Hnb & A1 & A2 & HA1 & HA2 & ->).
  step_run E u h5 E5; [|done]. destruct u.
  apply bonds_append_Ok in E5 as (T5 & HT5 & ->).
  step_run E u h6 E6; [|done]. destruct u.
  eapply discard_Ok in E6
    as (T6 & HT6 & _ & _ & _ & _ & P6); [|cbn; apply lookup_insert_eq].
  step_run E u h7 E7; [|done]. destruct u.
  eapply discard_Ok in E7 as (T7 & HT7 & _ & _ & _ & _ & P7); [|exact HT6].
  pose proof (pruned_trans _ _ _ P6 P7) as (_ & HJo & HJs & _).
  cbn in HJo, HJs.
  assert (Hlast : junction_objs h' = junction_objs h7 ∧
                  junctions_objs h' = junctions_objs h7).
  { destruct charges as [[mc pc]|].
    - eapply set_charge_retouched in E as (_ & _ & ? & ? & _); eauto.
    - by injection E as <-. }
  destruct Hlast as [HJo' HJs'].
  exists pjs, news. split; [done|]. split; [by rewrite HJs', HJs|].
  rewrite HJo', HJo. split; [done|].
  eapply Forall2_impl; [exact Hall|].
  intros j n (Hn & Jn & Jn' & Hj & Hn' & Hname). split; [done|].
  exists Jn, Jn'. by rewrite HJo', HJo.
Qed.

Lemma filter_moved off (x : loc) (l : list loc) :
  filter (fun j => j ≠ moved off x) (moved off <$> l) =
  moved off <$> filter (fun j => j ≠ x) l.
Proof.
  induction l as [|y l IH]; [done|].
  cbn [fmap list_fmap]. rewrite !filter_cons, IH.
  destruct (decide (y = x)) as [->|Hne].
  - rewrite decide_False by (by intros ?). by rewrite decide_False by (by intros ?).
  - rewrite decide_True by (intros ?%(inj _); done).
    by rewrite decide_True by done.
Qed.

(** The junction [n] is new in [h'], and has the name that [j] has in [h]. *)
Definition inherited (h h' : heap) (j n : loc) : Prop :=
  junction_objs h !! n = None ∧
  ∃ Jn Jn', junction_objs h !! j = Some Jn ∧ junction_objs h' !! n = Some Jn' ∧
            Junction.name Jn' = Junction.name Jn.

(** A call of extend that returns, on a well-formed polymer and monomer,
    leaves the polymer with the junctions it had except the one chosen, in
    their order, followed by one new junction for each junction of the
    monomer except the one chosen there, in their order and with their
    names; the junction objects that existed are as they were. *)
Lemma extend_junctions_Ok e self monomer from_name to_name keep h h' :
  topology_ok h (Polymer.topology self) →
  junctions_ok h (Polymer.junctions self) (Polymer.topology self) →
  monomer_ok h monomer →
  Polymer.extend e self monomer from_name to_name keep h = (Ok tt, h') →
  ∃ pjs J tj tb fj fb news,
    junctions_objs h !! Polymer.junctions self = Some pjs ∧
    junctions_objs h !! Monomer.junctions monomer = Some J ∧
    to_junction_of monomer to_name h tj tb ∧
    from_junction_of e self from_name h fj fb ∧
    junctions_objs h' !! Polymer.junctions self =
      Some (filter (fun j => j ≠ fj) pjs ++ news) ∧
    Forall2 (inherited h h') (filter (fun j => j ≠ tj) J) news ∧
    junction_objs h ⊆ junction_objs h'.
Proof.
  intros Htp Hjp [Htm Hjm] E.
  apply extend_run in E
    as [[[ex [=]] _]|(T & J & tn & tj & tb & Dm & pjs & fn & fj & h1 & h2 & c &
                      HT & HJ & Hsel & Htn & Hhead & Htb & HDm & Hpjs & Hfn &
                      Hfj & Efin)].
  pose proof (selected_extends _ _ _ _ _ _ _ Hsel) as Hext.
  destruct (chosen_to _ _ _ _ _ _ _ _ _ _ _ _ Htm Hjm HT HJ Hsel Htn Hhead Htb HDm)
    as (tn0 & tj0 & tb0 & Dm0 & Htn0 & Hhead0 & Htb0 & _ & -> & _).
  (* the polymer's side, before the call *)
  pose proof Htp as Lp. unfold topology_ok in Lp.
  destruct (topology_objs h !! Polymer.topology self) as [Tp|] eqn:ETp; [|done].
  destruct Lp as [_ Lp].
  assert (Epjs : junctions_objs h !! Polymer.junctions self = Some pjs).
  { pose proof Hjp as Hjp'. unfold junctions_ok in Hjp'.
    destruct (junctions_objs h !! Polymer.junctions self) as [pjs0|] eqn:Epjs;
      [|done].
    destruct Hext as (_ & _ & _ & _ & HE).
    eapply lookup_weaken in Epjs; [|exact HE]. congruence. }
  destruct (named_total h _ _ pjs from_name Hjp Epjs) as [fn0 Hfn0].
  pose proof (extends_named _ _ _ _ _ Hext Hfn0) as Hfn2.
  rewrite Hfn in Hfn2. injection Hfn2 as <-.
  assert (Hin : fj ∈ pjs).
  { eapply named_elem; [exact Hfn0|]. by eapply list_elem_of_lookup_2. }
  destruct (placed_location h _ _ pjs Tp fj Hjp Lp Epjs ETp Hin)
    as (fb & Hfb & _).
  (* the junctions of the copy, at the last phase *)
  assert (Hnjs : junctions_objs h2 !! Monomer.junctions (copy_of monomer h) =
                 Some (filter (fun j => j ≠ moved (off_junction (offsets_of h)) tj0)
                              (copy_junctions (offsets_of h) J))).
  { destruct Hsel as [_ ->]. cbn. apply lookup_insert_eq. }
  assert (Hnejs : Monomer.junctions (copy_of monomer h) ≠ Polymer.junctions self).
  { intros Heq. rewrite <- Heq in Epjs. cbn in Epjs.
    pose proof (moved_fresh (junctions_objs h) (Monomer.junctions monomer)).
    congruence. }
  destruct (finish_names _ _ _ _ _ _ _ _ _ _ Efin Hnjs Hnejs)
    as (pjs' & news & Hpjs' & Hafter & Hsub & Hall).
  rewrite Hpjs in Hpjs'. injection Hpjs' as <-.
  exists pjs, J, tj0, tb0, fj, fb, news.
  split; [done|]. split; [done|]. split; [by exists J, tn0|].
  split; [by exists pjs, fn|]. split; [done|]. split.
  2:{ etrans; [|exact Hsub]. apply Hext. }
  unfold copy_junctions in Hall. rewrite filter_moved in Hall.
  rewrite Forall2_fmap_l in Hall.
  apply Forall2_same_length_lookup. split; [by eapply Forall2_length|].
  intros i j n Hj Hn.
  destruct (Forall2_lookup_lr _ _ _ _ _ _ Hall Hj Hn)
    as (Hfresh & Jn & Jn' & HJn & HJn' & Hname).
  assert (HjJ : j ∈ J).
  { apply list_elem_of_lookup_2 in Hj. by apply list_elem_of_filter in Hj as [_ ?]. }
  pose proof Hjm as Hpl. unfold junctions_ok in Hpl. rewrite HJ, HT in Hpl.
  rewrite Forall_forall in Hpl. specialize (Hpl j HjJ).
  unfold junction_placed in Hpl.
  destruct (junction_objs h !! j) as [Jn0|] eqn:EJn0; [|done].
  split.
  { destruct (junction_objs h !! n) as [X|] eqn:EX; [|done].
    destruct Hext as (_ & _ & _ & HEj & _).
    eapply lookup_weaken in EX; [|exact HEj]. congruence. }
  exists Jn0, Jn'. split; [done|]. split; [done|].
  assert (Hcopy : junction_objs h2 !! moved (off_junction (offsets_of h)) j =
                  Some (copy_junction (offsets_of h) Jn0)).
  { rewrite (selected_junction _ _ _ _ _ _ _ Hsel). by apply copied_junction. }
  eapply lookup_weaken in Hcopy; [|exact Hsub].
  cbn [compose] in HJn. rewrite Hcopy in HJn. injection HJn as <-.
  by rewrite Hname.
Qed.

(** The names of the junctions of a list, in order. *)
Definition names (h : heap) (js : list loc) : list (option string) :=
  (fun j => Junction.name <$> junction_objs h !! j) <$> js.

Lemma named_filter name L h :
  (∀ j, j ∈ L → is_Some (junction_objs h !! j)) →
  named name L h =
  Ok (filter (fun j => Junction.name <$> junction_objs h !! j = Some name) L).
Proof.
  unfold named. induction L as [|j L IH]; intros Hex; [done|].
  cbn [rfilter]. rewrite rbind_unfold.
  destruct (Hex j) as [Jn HJn]; [by left|].
  rewrite rbind_unfold, (proj2 (load_junction_Ok _ _ _) HJn), rret_unfold.
  rewrite rbind_unfold, IH by (intros; apply Hex; by right).
  rewrite rret_unfold, filter_cons, HJn. cbn [fmap option_fmap option_map].
  destruct (decide (Junction.name Jn = name)) as [->|Hne].
  - by rewrite bool_decide_eq_true_2, decide_True.
  - rewrite bool_decide_eq_false_2 by done.
    rewrite decide_False; [done|]. by intros [= ?].
Qed.

(** What has_junction answers, on a collection whose junctions are all
    there. *)
Lemma any_named_names js L name h :
  junctions_objs h !! js = Some L →
  (∀ j, j ∈ L → is_Some (junction_objs h !! j)) →
  any_named js name h = Ok (bool_decide (Some name ∈ names h L)).
Proof.
  intros HL Hex. unfold any_named.
  rewrite rbind_unfold, (proj2 (load_junctions_Ok _ _ _) HL).
  rewrite rbind_unfold, (named_filter name L h Hex), rret_unfold. f_equal.
  apply bool_decide_ext. unfold names. rewrite list_elem_of_fmap. split.
  - intros Hne.
    destruct (filter _ L) as [|j found] eqn:Ef; [done|].
    assert (Hj : j ∈ filter (fun j => Junction.name <$> junction_objs h !! j =
                                      Some name) L) by (rewrite Ef; by left).
    apply list_elem_of_filter in Hj as [Hj ?]. eauto.
  - intros (j & Hj & Hin) Hnil.
    assert (Hjf : j ∈ filter (fun j => Junction.name <$> junction_objs h !! j =
                                       Some name) L).
    { apply list_elem_of_filter. split; [done|done]. }
    rewrite Hnil in Hjf. by apply elem_of_nil in Hjf.
Qed.

(** X13: a call of extend that returns, on a well-formed polymer and
    monomer, leaves the polymer with junctions named as the junctions it had
    except the one chosen, in their order, followed by the names of the
    junctions of the monomer except the one chosen there, in their order;
    and has_junction on the polymer then answers True for exactly these
    names. *)
Theorem extend_inherits_junctions e self monomer from_name to_name keep h h' :
  topology_ok h (Polymer.topology self) →
  junctions_ok h (Polymer.junctions self) (Polymer.topology self) →
  monomer_ok h monomer →
  Polymer.extend e self monomer from_name to_name keep h = (Ok tt, h') →
  ∃ pjs J tj tb fj fb pjs',
    junctions_objs h !! Polymer.junctions self = Some pjs ∧
    junctions_objs h !! Monomer.junctions monomer = Some J ∧
    to_junction_of monomer to_name h tj tb ∧
    from_junction_of e self from_name h fj fb ∧
    junctions_objs h' !! Polymer.junctions self = Some pjs' ∧
    names h' pjs' =
      names h (filter (fun j => j ≠ fj) pjs) ++
      names h (filter (fun j => j ≠ tj) J) ∧
    ∀ name, Polymer.has_junction self name h' =
            Ok (bool_decide (Some name ∈ names h' pjs')).
Proof.
  intros Htp Hjp Hm E.
  destruct (extend_junctions_Ok _ _ _ _ _ _ _ _ Htp Hjp Hm E)
    as (pjs & J & tj & tb & fj & fb & news & Hpjs & HJ & Hto & Hfrom & Hafter &
        Hall & Hsub).
  exists pjs, J, tj, tb, fj, fb, (filter (fun j => j ≠ fj) pjs ++ news).
  do 5 (split; [done|]).
  assert (Hold : ∀ j, j ∈ pjs → is_Some (junction_objs h !! j)).
  { intros j Hj. unfold junctions_ok in Hjp. rewrite Hpjs in Hjp.
    destruct (topology_objs h !! Polymer.topology self); [|done].
    rewrite Forall_forall in Hjp. specialize (Hjp j Hj).
    unfold junction_placed in Hjp. by destruct (junction_objs h !! j). }
  split.
  - unfold names. rewrite fmap_app. f_equal.
    + apply list_fmap_ext. intros _ j Hj%list_elem_of_lookup_2.
      apply list_elem_of_filter in Hj as [_ Hj].
      destruct (Hold j Hj) as [Jn HJn].
      by rewrite HJn, (lookup_weaken _ _ _ _ HJn Hsub).
    + clear -Hall. induction Hall as [|j n js ns Hjn _ IH]; [done|].
      cbn [fmap list_fmap]. rewrite IH. f_equal.
      destruct Hjn as (_ & Jn & Jn' & -> & -> & Hname). cbn. by rewrite Hname.
  - intros name. unfold Polymer.has_junction.
    apply any_named_names; [done|].
    intros j [Hj|Hj]%elem_of_app.
    + apply list_elem_of_filter in Hj as [_ Hj].
      destruct (Hold j Hj) as [Jn HJn]. exists Jn. by eapply lookup_weaken.
    + apply list_elem_of_lookup in Hj as [i Hi].
      destruct (Forall2_lookup_r _ _ _ _ _ Hall Hi)
        as (j0 & _ & _ & Jn & Jn' & _ & HJn' & _). eauto.
Qed.

End inherit.

(** ** Without keep_charge, atoms change in their links only *)

Section untouched.
Context `{PyFloat}.

(** An atom that differs from another in its back-references at most. *)
Definition relinked (A A' : Atom.t) : Prop :=
  A' = Atom.set_bonds (Atom.bonds A') A.

(** [only_links h h']: the stores have the same atoms, which differ in
    their back-references at most. *)
Definition only_links (h h' : heap) : Prop :=
  ∀ l, option_Forall2 relinked (atom_objs h !! l) (atom_objs h' !! l).

Lemma relinked_refl A : relinked A A.
Proof. by destruct A. Qed.

Lemma relinked_trans A B C : relinked A B → relinked B C → relinked A C.
Proof. unfold relinked. intros HB HC. rewrite HC, HB. by destruct A. Qed.

Lemma only_links_same h h' : atom_objs h' = atom_objs h → only_links h h'.
Proof.
  intros Heq l. rewrite Heq.
  destruct (atom_objs h !! l); constructor. apply relinked_refl.
Qed.

Lemma only_links_trans h1 h2 h3 :
  only_links h1 h2 → only_links h2 h3 → only_links h1 h3.
Proof.
  intros F1 F2 l. specialize (F1 l). specialize (F2 l).
  destruct F1 as [A B HAB|]; inversion F2 as [B' C HBC|]; subst; constructor.
  by eapply relinked_trans.
Qed.

Lemma pruned_only_links h h' : pruned h h' → only_links h h'.
Proof.
  intros (_ & _ & _ & F) l. specialize (F l).
  destruct F as [A A' [HA _]|]; by constructor.
Qed.

Lemma new_Bond_only_links a b ty len fc h nb h' :
  new_Bond a b ty len fc h = (Ok nb, h') → only_links h h'.
Proof.
  intros (_ & A1 & A2 & HA1 & HA2 & ->)%new_Bond_Ok l. cbn [atom_objs].
  destruct (decide (b = l)) as [<-|Hb].
  - rewrite lookup_insert_eq.
    destruct (decide (a = b)) as [<-|Hab].
    + rewrite lookup_insert_eq in HA2. injection HA2 as <-.
      rewrite HA1. constructor. by destruct A1.
    + rewrite lookup_insert_ne in HA2 by done.
      rewrite HA2. constructor. by destruct A2.
  - rewrite lookup_insert_ne by done.
    destruct (decide (a = l)) as [<-|Ha].
    + rewrite lookup_insert_eq, HA1. constructor. by destruct A1.
    + rewrite lookup_insert_ne by done.
      destruct (atom_objs h !! l); constructor. apply relinked_refl.
Qed.

(** The last phase, entered without charges to restore, changes atoms in
    their back-references only. *)
Lemma finish_only_links e self nm tj fj Dm h h' :
  finish e self nm tj fj Dm None h = (Ok tt, h') → only_links h h'.
Proof.
  intros E. unfold finish in E.
  apply bind_Ok in E as ([] & h1 & E1 & E).
  apply junctions_remove_run in E1
    as [(pjs & Hpjs & _ & _ & ->)|(? & [=] & _)].
  apply bind_Ok in E as (fb & ? & [_ ->]%read_Ok & E).
  apply bind_Ok in E as (Dp & ? & [_ ->]%read_Ok & E).
  apply bind_Ok in E as ([] & h2 & E2 & E).
  apply topology_add_Ok in E2 as (Tp & Tc & _ & _ & ->).
  apply bind_Ok in E as (njs & ? & [_ ->]%read_Ok & E).
  apply bind_Ok in E as ([] & h3 & E3 & E).
  eapply register_loop_Ok in E3 as (HA3 & _ & HT3 & _);
    [|cbn; apply lookup_insert_eq].
  apply bind_Ok in E as (fb' & ? & [_ ->]%read_Ok & E).
  apply bind_Ok in E as (tb' & ? & [_ ->]%read_Ok & E).
  apply bind_Ok in E as (nb & h4 & E4 & E).
  pose proof (new_Bond_only_links _ _ _ _ _ _ _ _ E4) as L4.
  apply new_Bond_Ok in E4 as (_ & A1 & A2 & _ & _ & Hh4).
  apply bind_Ok in E as ([] & h5 & E5 & E).
  apply bonds_append_Ok in E5 as (T5 & HT5 & ->).
  apply bind_Ok in E as ([] & h6 & E6 & E).
  eapply discard_Ok in E6 as (T6 & HT6 & _ & _ & _ & _ & P6);
    [|cbn; apply lookup_insert_eq].
  apply bind_Ok in E as ([] & h7 & E7 & E).
  eapply discard_Ok in E7 as (T7 & _ & _ & _ & _ & _ & P7); [|exact HT6].
  rewrite ret_unfold in E. injection E as <-.
  eapply only_links_trans; [|apply pruned_only_links, P7].
  eapply only_links_trans; [|apply pruned_only_links, P6].
  eapply only_links_trans; [|apply only_links_same; reflexivity].
  eapply only_links_trans; [|exact L4].
  apply only_links_same. by rewrite HA3.
Qed.

Lemma prepare_no_charges e self monomer to_name h c nm tn h1 :
  prepare e self monomer to_name false h = (Ok (c, nm, tn), h1) → c = None.
Proof.
  intros E. unfold prepare in E. rewrite bind_ret in E.
  repeat (apply bind_Ok in E as (? & ? & _ & E)).
  rewrite ret_unfold in E. by injection E as <- _ _ _.
Qed.

(** X14: a call of extend without keep_charge that returns leaves every
    atom that was there before the call as it was in all but its list of
    bonds: the partial charge, the mass, the names and the numbers of the
    atom are those it had. *)
Theorem extend_keeps_charges e self monomer from_name to_name h h' :
  Polymer.extend e self monomer from_name to_name false h = (Ok tt, h') →
  ∀ a A, atom_objs h !! a = Some A →
    ∃ A', atom_objs h' !! a = Some A' ∧
          A' = Atom.set_bonds (Atom.bonds A') A.
Proof.
  rewrite extend_phases. unfold extend_in_phases. rewrite bind_unfold.
  destruct (prepare e self monomer to_name false h)
    as [[[[c nm] tn]|ex] h1] eqn:Eprep; [|done].
  apply prepare_no_charges in Eprep as Hc. subst c.
  apply prepare_run in Eprep as [(_ & ? & [=])|(T & J & _ & _ & R1 & _)].
  apply retouched_copied_extends in R1 as (HA1 & _).
  destruct (head tn) as [tj|]; [|done].
  rewrite bind_unfold.
  destruct (select e self nm tj from_name h1) as [[[Dm fn]|ex] h2] eqn:Esel;
    [|done].
  apply select_run in Esel as [Hh2 _].
  assert (HA2 : atom_objs h2 = atom_objs h1).
  { by destruct Hh2 as [->|(L & _ & _ & ->)]. }
  rewrite bind_unfold.
  destruct (Polymer.random_choice (rnd e) fn _) as [[fj|ex] h3] eqn:Ech;
    apply random_choice_run in Ech as [-> _]; [|done].
  intros Efin%finish_only_links a A HA.
  specialize (Efin a). rewrite HA2, (lookup_weaken _ _ _ _ HA HA1) in Efin.
  inversion Efin as [A0 A' HAA'|]; subst. eauto.
Qed.

End untouched.

(** ** The structured form *)

Section structured_form_facts.
Context `{PyFloat}.
Variable Topology_from_dict : doc → M loc.
Variable Junctions_from_dict : doc → list loc → M loc.

(** The call [cls(topology=..., junctions=...)] that ends from_dict names
    parameters that [__init__(self, monomer)] does not have. *)
Lemma new_from_dict_call t js h :
  Polymer.new [] [("topology", Polymer.ArgObject t);
                  ("junctions", Polymer.ArgObject js)] h =
  (Raise (TypeError
     "Polymer.__init__() got an unexpected keyword argument 'topology'"), h).
Proof. reflexivity. Qed.

(** C7 (the code at any input): whatever document it is given, and whatever
    the conversions of Topology and Junctions do, from_dict returns no
    Polymer: it raises; and when both conversions return, what it raises is
    the TypeError of the constructor call. *)
Theorem from_dict_raises data h :
  ∃ ex h',
    Polymer.from_dict Topology_from_dict Junctions_from_dict data h =
      (Raise ex, h') ∧
    ∀ td jd t h1 T js h2,
      Polymer.doc_item data "topology" h = (Ok td, h) →
      Topology_from_dict td h = (Ok t, h1) →
      Polymer.doc_item data "junctions" h1 = (Ok jd, h1) →
      topology_objs h1 !! t = Some T →
      Junctions_from_dict jd (Topology.atoms T) h1 = (Ok js, h2) →
      ex = TypeError
             "Polymer.__init__() got an unexpected keyword argument 'topology'" ∧
      h' = h2.
Proof.
  assert (Hitem : ∀ key h0 r h1, Polymer.doc_item data key h0 = (r, h1) → h1 = h0).
  { intros key h0 r h1. unfold Polymer.doc_item. destruct data; try by intros [= <- <-].
    destruct (list_find _ _) as [[? [? ?]]|]; by intros [= <- <-]. }
  unfold Polymer.from_dict. rewrite bind_unfold.
  destruct (Polymer.doc_item data "topology" h) as [[td|e] h0] eqn:E0;
    pose proof (Hitem _ _ _ _ E0) as ->.
  2:{ exists e, h. split; [done|]. intros td jd t h1 T js h2 Hd. discriminate Hd. }
  rewrite bind_unfold.
  destruct (Topology_from_dict td h) as [[t|e] h1] eqn:E1.
  2:{ exists e, h1. split; [done|]. intros td' jd t h1' T js h2 Hd Ht.
      injection Hd as <-. rewrite E1 in Ht. discriminate Ht. }
  rewrite bind_unfold.
  destruct (Polymer.doc_item data "junctions" h1) as [[jd|e] h1'] eqn:E2;
    pose proof (Hitem _ _ _ _ E2) as ->.
  2:{ exists e, h1. split; [done|]. intros td' jd t' h1' T js h2 Hd Ht Hj.
      injection Hd as <-. rewrite E1 in Ht. injection Ht as <- <-.
      rewrite E2 in Hj. discriminate Hj. }
  rewrite bind_unfold, read_unfold.
  destruct (load_topology t h1) as [T|e] eqn:E3.
  2:{ exists e, h1. split; [done|]. intros td' jd' t' h1' T js h2 Hd Ht Hj HT.
      injection Hd as <-. rewrite E1 in Ht. injection Ht as <- <-.
      apply load_topology_Ok in HT. rewrite E3 in HT. discriminate HT. }
  apply load_topology_Ok in E3. rewrite bind_unfold.
  destruct (Junctions_from_dict jd (Topology.atoms T) h1) as [[js|e] h2] eqn:E4.
  2:{ exists e, h2. split; [done|]. intros td' jd' t' h1' T' js h2' Hd Ht Hj HT HJ.
      injection Hd as <-. rewrite E1 in Ht. injection Ht as <- <-.
      rewrite E2 in Hj. injection Hj as <-.
      rewrite E3 in HT. injection HT as <-. rewrite E4 in HJ. discriminate HJ. }
  rewrite new_from_dict_call. eexists _, h2. split; [done|].
  intros td' jd' t' h1' T' js' h2' Hd Ht Hj HT HJ.
  injection Hd as <-. rewrite E1 in Ht. injection Ht as <- <-.
  rewrite E2 in Hj. injection Hj as <-.
  rewrite E3 in HT. injection HT as <-. rewrite E4 in HJ. injection HJ as <- <-.
  done.
Qed.

End structured_form_facts.

(** * Examples *)

Section examples.
#[local] Existing Instance QFloat.

Definition example_atom (id : Z) (ty : string) (idx : Z) (q : Q)
    (bs : list loc) : Atom.t :=
  Atom.mk id ty idx 1 "RES" ty 1 q 1%Q bs.

Definition example_bond (a b : loc) : Bond.t :=
  Bond.mk a b (PyStr "1") (PyFlt (147 # 1000)%Q) (PyFlt 265265%Q) PyNone.

(** A chain H-C-C-O with a junction "A" on the H-C bond and a junction "B" on
    the C-O bond. *)
Definition chain : heap :=
  Heap (list_to_map
          [(1%positive, example_atom 1 "H" 1 (1 # 10) [1%positive]);
           (2%positive, example_atom 2 "C" 1 (-1 # 10) [1%positive; 2%positive]);
           (3%positive, example_atom 3 "C" 2 (2 # 10) [2%positive; 3%positive]);
           (4%positive, example_atom 4 "O" 1 (-2 # 10) [3%positive])])
       (list_to_map
          [(1%positive, example_bond 1%positive 2%positive);
           (2%positive, example_bond 2%positive 3%positive);
           (3%positive, example_bond 3%positive 4%positive)])
       (list_to_map
          [(1%positive,
            Topology.mk [1%positive; 2%positive; 3%positive; 4%positive]
                        [1%positive; 2%positive; 3%positive])])
       (list_to_map
          [(1%positive, Junction.mk "A" (Some 1%positive));
           (2%positive, Junction.mk "B" (Some 3%positive))])
       (list_to_map [(1%positive, [1%positive; 2%positive])]).

Definition chain_monomer : Monomer.t := Monomer.mk 1%positive 1%positive.

(** The store after [Polymer(chain_monomer)], and the polymer made. *)
Definition chain_polymer_run : result Polymer.t * heap :=
  Polymer.__init__ chain_monomer chain.

Definition chain_polymer : Polymer.t := Polymer.mk 2%positive 2%positive.

Definition chain_store : heap := snd chain_polymer_run.

Definition chain_env : env := Env 0 100 true 0.

(** C10: on a finite set of atoms that the bonds do not lead out of, a
    search allowed as many nested calls as there are unvisited atoms ends,
    and what it returns is the visited set it was given together with
    exactly the atoms that a path from the start reaches without entering a
    visited atom or the barrier. *)
Theorem DFS_terminates h (U : gset loc) depth atom visited exclude :
  closed h U → atom ∈ U → atom ∉ visited → Some atom ≠ exclude →
  (size (U ∖ visited) ≤ depth)%nat →
  ∃ found, Polymer.DFS depth atom visited exclude h = Ok found ∧
           ∀ x, x ∈ found ↔ x ∈ visited ∨ reach h (blocked visited exclude) atom x.
Proof. apply DFS_spec. Qed.

Lemma DFS_terminates_witness :
  closed chain {[1%positive; 2%positive; 3%positive; 4%positive]} ∧
  ∃ found, Polymer.DFS 4 3%positive ∅ (Some 4%positive) chain = Ok found ∧
           ∀ x, x ∈ found ↔
                x ∈ (∅ : gset loc) ∨
                reach chain (blocked ∅ (Some 4%positive)) 3%positive x.
Proof.
  split.
  - apply (bool_decide_unpack _). vm_compute. reflexivity.
  - apply (DFS_terminates chain {[1%positive; 2%positive; 3%positive; 4%positive]}).
    + apply (bool_decide_unpack _). vm_compute. reflexivity.
    + apply (bool_decide_unpack _). vm_compute. reflexivity.
    + apply not_elem_of_empty.
    + discriminate.
    + vm_compute. lia.
Defined.

Lemma extend_keeps_monomer_witness :
  (topology_ok chain_store (Polymer.topology chain_polymer) ∧
   junctions_ok chain_store (Polymer.junctions chain_polymer)
                (Polymer.topology chain_polymer) ∧
   monomer_ok chain_store chain_monomer ∧
   apart chain_store chain_polymer chain_monomer) ∧
  keeps (footprint chain_store chain_monomer) chain_store
        (snd (Polymer.extend chain_env chain_polymer chain_monomer "B" "A" true
                             chain_store)).
Proof.
  assert (H1 : topology_ok chain_store (Polymer.topology chain_polymer)).
  { apply (bool_decide_unpack _). vm_compute. reflexivity. }
  assert (H2 : junctions_ok chain_store (Polymer.junctions chain_polymer)
                            (Polymer.topology chain_polymer)).
  { apply (bool_decide_unpack _). vm_compute. reflexivity. }
  assert (H3 : monomer_ok chain_store chain_monomer).
  { apply (bool_decide_unpack _). vm_compute. reflexivity. }
  assert (H4 : apart chain_store chain_polymer chain_monomer).
  { apply (bool_decide_unpack _). vm_compute. reflexivity. }
  split; [done|].
  apply (extend_keeps_monomer chain_env chain_polymer chain_monomer "B" "A" true
           chain_store _ _ H1 H2 H3 H4 (surjective_pairing _)).
Defined.

Lemma init_deep_copy_witness :
  (monomer_ok chain chain_monomer ∧
   Polymer.__init__ chain_monomer chain = (Ok chain_polymer, chain_store)) ∧
  made_new chain chain_store chain_polymer ∧
  extends chain chain_store ∧
  ∀ r h2, topology_ok chain_store (Monomer.topology chain_monomer) →
          Polymer.extend chain_env chain_polymer chain_monomer "B" "A" true
                         chain_store = (r, h2) →
          extends chain h2.
Proof.
  assert (H1 : monomer_ok chain chain_monomer).
  { apply (bool_decide_unpack _). vm_compute. reflexivity. }
  assert (H2 : Polymer.__init__ chain_monomer chain =
               (Ok chain_polymer, chain_store)).
  { vm_compute. reflexivity. }
  split; [done|].
  apply (init_deep_copy chain_env chain_monomer chain_monomer "B" "A" true
           chain chain_polymer chain_store H1 H2).
Defined.

(** The store after [chain_polymer.extend(chain_monomer, "B", "A",
    keep_charge=True)]. *)
Definition chain_extended : heap :=
  snd (Polymer.extend chain_env chain_polymer chain_monomer "B" "A" true
                      chain_store).

Lemma extend_merges_witness :
  (topology_ok chain_store (Polymer.topology chain_polymer) ∧
   junctions_ok chain_store (Polymer.junctions chain_polymer)
                (Polymer.topology chain_polymer) ∧
   monomer_ok chain_store chain_monomer ∧
   Polymer.extend chain_env chain_polymer chain_monomer "B" "A" true
                  chain_store = (Ok tt, chain_extended)) ∧
  merged chain_env chain_polymer chain_monomer "B" "A" chain_store
         chain_extended.
Proof.
  assert (H1 : topology_ok chain_store (Polymer.topology chain_polymer)).
  { apply (bool_decide_unpack _). vm_compute. reflexivity. }
  assert (H2 : junctions_ok chain_store (Polymer.junctions chain_polymer)
                            (Polymer.topology chain_polymer)).
  { apply (bool_decide_unpack _). vm_compute. reflexivity. }
  assert (H3 : monomer_ok chain_store chain_monomer).
  { apply (bool_decide_unpack _). vm_compute. reflexivity. }
  assert (H4 : Polymer.extend chain_env chain_polymer chain_monomer "B" "A"
                 true chain_store = (Ok tt, chain_extended)).
  { vm_compute. reflexivity. }
  split; [exact (conj H1 (conj H2 (conj H3 H4)))|].
  apply (extend_merges chain_env chain_polymer chain_monomer "B" "A" true
           chain_store chain_extended H1 H2 H3 H4).
Defined.


(** In the chain both junction bonds are bridges: H-C on the monomer, with
    H alone on one side, and C-O on the polymer, with O alone on one side. *)
Lemma chain_bridges :
  bridge chain_store 1%positive 2%positive ∧
  bridge chain_store 7%positive 8%positive.
Proof.
  split.
  - apply (bridge_by_sides chain_store _ _ {[1%positive]}
             {[2%positive; 3%positive; 4%positive]}).
    + apply (bool_decide_unpack _). vm_compute. reflexivity.
    + apply (bool_decide_unpack _). vm_compute. reflexivity.
    + set_solver.
    + set_solver.
    + set_solver.
  - apply (bridge_by_sides chain_store _ _
             {[5%positive; 6%positive; 7%positive]} {[8%positive]}).
    + apply (bool_decide_unpack _). vm_compute. reflexivity.
    + apply (bool_decide_unpack _). vm_compute. reflexivity.
    + set_solver.
    + set_solver.
    + set_solver.
Qed.

Lemma extend_discards_witness :
  (topology_ok chain_store (Polymer.topology chain_polymer) ∧
   junctions_ok chain_store (Polymer.junctions chain_polymer)
                (Polymer.topology chain_polymer) ∧
   monomer_ok chain_store chain_monomer ∧
   Polymer.extend chain_env chain_polymer chain_monomer "B" "A" true
                  chain_store = (Ok tt, chain_extended)) ∧
  discarded chain_env chain_polymer chain_monomer "B" "A" chain_store
            chain_extended.
Proof.
  assert (H1 : topology_ok chain_store (Polymer.topology chain_polymer)).
  { apply (bool_decide_unpack _). vm_compute. reflexivity. }
  assert (H2 : junctions_ok chain_store (Polymer.junctions chain_polymer)
                            (Polymer.topology chain_polymer)).
  { apply (bool_decide_unpack _). vm_compute. reflexivity. }
  assert (H3 : monomer_ok chain_store chain_monomer).
  { apply (bool_decide_unpack _). vm_compute. reflexivity. }
  assert (H4 : Polymer.extend chain_env chain_polymer chain_monomer "B" "A"
                 true chain_store = (Ok tt, chain_extended)).
  { vm_compute. reflexivity. }
  split; [exact (conj H1 (conj H2 (conj H3 H4)))|].
  apply (extend_discards chain_env chain_polymer chain_monomer "B" "A" true
           chain_store chain_extended H1 H2 H3 H4).
Defined.

Lemma DFS_grows_witness :
  Polymer.DFS 4 3%positive {[4%positive]} None chain =
    Ok {[1%positive; 2%positive; 3%positive; 4%positive]} ∧
  ({[4%positive]} : gset loc) ⊆
    {[1%positive; 2%positive; 3%positive; 4%positive]} ∧
  3%positive ∈ ({[1%positive; 2%positive; 3%positive; 4%positive]} : gset loc).
Proof.
  assert (H1 : Polymer.DFS 4 3%positive {[4%positive]} None chain =
               Ok {[1%positive; 2%positive; 3%positive; 4%positive]}).
  { vm_compute. reflexivity. }
  split; [exact H1|].
  exact (DFS_grows 4 3%positive {[4%positive]} None chain _ H1).
Defined.

Lemma DFS_barrier_witness :
  (Polymer.DFS 4 4%positive ∅ (Some 4%positive) chain =
     Ok {[1%positive; 2%positive; 3%positive; 4%positive]} ∧
   4%positive ∈ ({[1%positive; 2%positive; 3%positive; 4%positive]}
                 : gset loc)) ∧
  (4%positive ∈ (∅ : gset loc) ∨ 4%positive = 4%positive).
Proof.
  assert (H1 : Polymer.DFS 4 4%positive ∅ (Some 4%positive) chain =
               Ok {[1%positive; 2%positive; 3%positive; 4%positive]}).
  { vm_compute. reflexivity. }
  assert (H2 : 4%positive ∈ ({[1%positive; 2%positive; 3%positive;
                               4%positive]} : gset loc)).
  { apply (bool_decide_unpack _). vm_compute. reflexivity. }
  split; [exact (conj H1 H2)|].
  exact (DFS_barrier 4 4%positive ∅ 4%positive chain _ H1 H2).
Defined.

Lemma DFS_fails_by_depth_witness :
  (closed chain {[1%positive; 2%positive; 3%positive; 4%positive]} ∧
   3%positive ∈ ({[1%positive; 2%positive; 3%positive; 4%positive]}
                 : gset loc) ∧
   (3%positive ∉ (∅ : gset loc)) ∧ Some 3%positive ≠ Some 4%positive ∧
   Polymer.DFS 1 3%positive ∅ (Some 4%positive) chain =
     Raise RecursionError) ∧
  RecursionError = RecursionError ∧
  (1 < size (({[1%positive; 2%positive; 3%positive; 4%positive]}
              : gset loc) ∖ ∅))%nat.
Proof.
  assert (H1 : closed chain {[1%positive; 2%positive; 3%positive; 4%positive]}).
  { apply (bool_decide_unpack _). vm_compute. reflexivity. }
  assert (H2 : 3%positive ∈ ({[1%positive; 2%positive; 3%positive;
                               4%positive]} : gset loc)).
  { apply (bool_decide_unpack _). vm_compute. reflexivity. }
  assert (H3 : 3%positive ∉ (∅ : gset loc)) by apply not_elem_of_empty.
  assert (H4 : Some 3%positive ≠ Some 4%positive) by discriminate.
  assert (H5 : Polymer.DFS 1 3%positive ∅ (Some 4%positive) chain =
               Raise RecursionError).
  { vm_compute. reflexivity. }
  split; [exact (conj H1 (conj H2 (conj H3 (conj H4 H5))))|].
  exact (DFS_fails_by_depth chain _ 1 3%positive ∅ (Some 4%positive) _
           H1 H2 H3 H4 H5).
Defined.

Lemma extend_monomer_lacks_junction_witness :
  (topology_ok chain_store (Polymer.topology chain_polymer) ∧
   populated chain_store (Polymer.topology chain_polymer) ∧
   monomer_ok chain_store chain_monomer ∧
   any_named (Monomer.junctions chain_monomer) "Z" chain_store = Ok false) ∧
  ∃ h', Polymer.extend chain_env chain_polymer chain_monomer "B" "Z" true
                       chain_store =
          (Raise (ValueError ("No junction named " +:+ "Z" +:+
                              " found in the monomer")), h') ∧
        extends chain_store h'.
Proof.
  assert (H1 : topology_ok chain_store (Polymer.topology chain_polymer)).
  { apply (bool_decide_unpack _). vm_compute. reflexivity. }
  assert (H2 : populated chain_store (Polymer.topology chain_polymer)).
  { apply (bool_decide_unpack _). vm_compute. reflexivity. }
  assert (H3 : monomer_ok chain_store chain_monomer).
  { apply (bool_decide_unpack _). vm_compute. reflexivity. }
  assert (H4 : any_named (Monomer.junctions chain_monomer) "Z" chain_store =
               Ok false).
  { vm_compute. reflexivity. }
  split; [exact (conj H1 (conj H2 (conj H3 H4)))|].
  exact (extend_monomer_lacks_junction chain_env chain_polymer chain_monomer
           "B" "Z" true chain_store H1 H2 H3 H4).
Defined.

Lemma extend_polymer_lacks_junction_witness :
  (topology_ok chain_store (Polymer.topology chain_polymer) ∧
   populated chain_store (Polymer.topology chain_polymer) ∧
   monomer_ok chain_store chain_monomer ∧
   fits chain_env chain_store (Monomer.topology chain_monomer) ∧
   any_named (Monomer.junctions chain_monomer) "A" chain_store = Ok true ∧
   Polymer.has_junction chain_polymer "Z" chain_store = Ok false) ∧
  ∃ h', Polymer.extend chain_env chain_polymer chain_monomer "Z" "A" true
                       chain_store =
          (Raise (IndexError "Cannot choose from an empty sequence"), h') ∧
        extends chain_store h'.
Proof.
  assert (H1 : topology_ok chain_store (Polymer.topology chain_polymer)).
  { apply (bool_decide_unpack _). vm_compute. reflexivity. }
  assert (H2 : populated chain_store (Polymer.topology chain_polymer)).
  { apply (bool_decide_unpack _). vm_compute. reflexivity. }
  assert (H3 : monomer_ok chain_store chain_monomer).
  { apply (bool_decide_unpack _). vm_compute. reflexivity. }
  assert (H4 : fits chain_env chain_store (Monomer.topology chain_monomer)).
  { apply (bool_decide_unpack _). vm_compute. reflexivity. }
  assert (H5 : any_named (Monomer.junctions chain_monomer) "A" chain_store =
               Ok true).
  { vm_compute. reflexivity. }
  assert (H6 : Polymer.has_junction chain_polymer "Z" chain_store = Ok false).
  { vm_compute. reflexivity. }
  split; [exact (conj H1 (conj H2 (conj H3 (conj H4 (conj H5 H6)))))|].
  exact (extend_polymer_lacks_junction chain_env chain_polymer chain_monomer
           "Z" "A" true chain_store H1 H2 H3 H4 H5 H6).
Defined.




Lemma extend_returns_guarded_witness :
  (topology_ok chain_store (Polymer.topology chain_polymer) ∧
   junctions_ok chain_store (Polymer.junctions chain_polymer)
                (Polymer.topology chain_polymer) ∧
   monomer_ok chain_store chain_monomer ∧
   Polymer.extend chain_env chain_polymer chain_monomer "B" "A" true
                  chain_store = (Ok tt, chain_extended)) ∧
  Polymer.has_junction chain_polymer "B" chain_store = Ok true ∧
  any_named (Monomer.junctions chain_monomer) "A" chain_store = Ok true.
Proof.
  assert (H1 : topology_ok chain_store (Polymer.topology chain_polymer)).
  { apply (bool_decide_unpack _). vm_compute. reflexivity. }
  assert (H2 : junctions_ok chain_store (Polymer.junctions chain_polymer)
                            (Polymer.topology chain_polymer)).
  { apply (bool_decide_unpack _). vm_compute. reflexivity. }
  assert (H3 : monomer_ok chain_store chain_monomer).
  { apply (bool_decide_unpack _). vm_compute. reflexivity. }
  assert (H4 : Polymer.extend chain_env chain_polymer chain_monomer "B" "A"
                 true chain_store = (Ok tt, chain_extended)).
  { vm_compute. reflexivity. }
  split; [exact (conj H1 (conj H2 (conj H3 H4)))|].
  exact (extend_returns_guarded chain_env chain_polymer chain_monomer "B" "A"
           true chain_store chain_extended H1 H2 H3 H4).
Defined.

Lemma init_has_junction_witness :
  (monomer_ok chain chain_monomer ∧
   Polymer.__init__ chain_monomer chain = (Ok chain_polymer, chain_store)) ∧
  Polymer.has_junction chain_polymer "A" chain_store =
  any_named (Monomer.junctions chain_monomer) "A" chain.
Proof.
  assert (H1 : monomer_ok chain chain_monomer).
  { apply (bool_decide_unpack _). vm_compute. reflexivity. }
  assert (H2 : Polymer.__init__ chain_monomer chain =
               (Ok chain_polymer, chain_store)).
  { vm_compute. reflexivity. }
  split; [exact (conj H1 H2)|].
  exact (init_has_junction chain_monomer "A" chain chain_polymer chain_store
           H1 H2).
Defined.

Lemma extend_keeps_numbers_witness :
  Polymer.extend chain_env chain_polymer chain_monomer "B" "A" true
                 chain_store = (Ok tt, chain_extended) ∧
  ∀ a A, atom_objs chain_store !! a = Some A →
         ∃ A', atom_objs chain_extended !! a = Some A' ∧ same_numbers A A'.
Proof.
  assert (H1 : Polymer.extend chain_env chain_polymer chain_monomer "B" "A"
                 true chain_store = (Ok tt, chain_extended)).
  { vm_compute. reflexivity. }
  split; [exact H1|].
  exact (extend_keeps_numbers chain_env chain_polymer chain_monomer "B" "A"
           true chain_store chain_extended H1).
Defined.

(** The store of the chain polymer with one more junction on the polymer,
    named "C", that marks no bond. *)
Definition loose : heap :=
  with_junction (insert 5%positive (Junction.mk "C" None))
    (with_junctions (insert 2%positive [3%positive; 4%positive; 5%positive])
                    chain_store).

Lemma extend_unplaced_junction_witness :
  (topology_ok loose (Polymer.topology chain_polymer) ∧
   populated loose (Polymer.topology chain_polymer) ∧
   monomer_ok loose chain_monomer ∧
   fits chain_env loose (Monomer.topology chain_monomer) ∧
   any_named (Monomer.junctions chain_monomer) "A" loose = Ok true ∧
   junctions_objs loose !! Polymer.junctions chain_polymer =
     Some [3%positive; 4%positive; 5%positive] ∧
   named "C" [3%positive; 4%positive; 5%positive] loose = Ok [5%positive] ∧
   [5%positive] !! (rnd chain_env `mod` length [5%positive])%nat =
     Some 5%positive ∧
   junction_objs loose !! 5%positive = Some (Junction.mk "C" None) ∧
   Junction.location (Junction.mk "C" None) = None) ∧
  ∃ msg h', Polymer.extend chain_env chain_polymer chain_monomer "C" "A" true
                           loose = (Raise (AttributeError msg), h') ∧
            5%positive ∈ [3%positive; 4%positive; 5%positive] ∧
            junctions_objs h' !! Polymer.junctions chain_polymer =
              Some (filter (fun j => j ≠ 5%positive)
                           [3%positive; 4%positive; 5%positive]).
Proof.
  assert (H1 : topology_ok loose (Polymer.topology chain_polymer)).
  { apply (bool_decide_unpack _). vm_compute. reflexivity. }
  assert (H2 : populated loose (Polymer.topology chain_polymer)).
  { apply (bool_decide_unpack _). vm_compute. reflexivity. }
  assert (H3 : monomer_ok loose chain_monomer).
  { apply (bool_decide_unpack _). vm_compute. reflexivity. }
  assert (H4 : fits chain_env loose (Monomer.topology chain_monomer)).
  { apply (bool_decide_unpack _). vm_compute. reflexivity. }
  assert (H5 : any_named (Monomer.junctions chain_monomer) "A" loose = Ok true).
  { vm_compute. reflexivity. }
  assert (H6 : junctions_objs loose !! Polymer.junctions chain_polymer =
               Some [3%positive; 4%positive; 5%positive]).
  { vm_compute. reflexivity. }
  assert (H7 : named "C" [3%positive; 4%positive; 5%positive] loose =
               Ok [5%positive]).
  { vm_compute. reflexivity. }
  assert (H8 : [5%positive] !! (rnd chain_env `mod` length [5%positive])%nat =
               Some 5%positive) by reflexivity.
  assert (H9 : junction_objs loose !! 5%positive = Some (Junction.mk "C" None)).
  { vm_compute. reflexivity. }
  assert (H10 : Junction.location (Junction.mk "C" None) = None) by reflexivity.
  split.
  { exact (conj H1 (conj H2 (conj H3 (conj H4 (conj H5 (conj H6 (conj H7
             (conj H8 (conj H9 H10))))))))). }
  exact (extend_unplaced_junction chain_env chain_polymer chain_monomer
           "C" "A" true loose _ _ _ _ H1 H2 H3 H4 H5 H6 H7 H8 H9 H10).
Defined.

Lemma extend_new_ids_witness :
  (topology_ok chain_store (Polymer.topology chain_polymer) ∧
   topology_ok chain_store (Monomer.topology chain_monomer) ∧
   Polymer.extend chain_env chain_polymer chain_monomer "B" "A" true
                  chain_store = (Ok tt, chain_extended)) ∧
  ∃ Tp Tm mx,
    topology_objs chain_store !! Polymer.topology chain_polymer = Some Tp ∧
    topology_objs chain_store !! Monomer.topology chain_monomer = Some Tm ∧
    (∀ p P, p ∈ Topology.atoms Tp → atom_objs chain_store !! p = Some P →
            Atom.atom_id P ≤ mx) ∧
    (∃ p P, p ∈ Topology.atoms Tp ∧ atom_objs chain_store !! p = Some P ∧
            Atom.atom_id P = mx) ∧
    ∀ i a, Topology.atoms Tm !! i = Some a →
           ∃ A', atom_objs chain_extended
                   !! moved (off_atom (offsets_of chain_store)) a = Some A' ∧
                 Atom.atom_id A' = mx + 1 + Z.of_nat i.
Proof.
  assert (H1 : topology_ok chain_store (Polymer.topology chain_polymer)).
  { apply (bool_decide_unpack _). vm_compute. reflexivity. }
  assert (H2 : topology_ok chain_store (Monomer.topology chain_monomer)).
  { apply (bool_decide_unpack _). vm_compute. reflexivity. }
  assert (H3 : Polymer.extend chain_env chain_polymer chain_monomer "B" "A"
                 true chain_store = (Ok tt, chain_extended)).
  { vm_compute. reflexivity. }
  split; [exact (conj H1 (conj H2 H3))|].
  exact (extend_new_ids chain_env chain_polymer chain_monomer "B" "A" true
           chain_store chain_extended H1 H2 H3).
Defined.

Lemma extend_ids_unique_witness :
  (topology_ok chain_store (Polymer.topology chain_polymer) ∧
   junctions_ok chain_store (Polymer.junctions chain_polymer)
                (Polymer.topology chain_polymer) ∧
   monomer_ok chain_store chain_monomer ∧
   unique_ids chain_store (Polymer.topology chain_polymer) ∧
   Polymer.extend chain_env chain_polymer chain_monomer "B" "A" true
                  chain_store = (Ok tt, chain_extended)) ∧
  unique_ids chain_extended (Polymer.topology chain_polymer).
Proof.
  assert (H1 : topology_ok chain_store (Polymer.topology chain_polymer)).
  { apply (bool_decide_unpack _). vm_compute. reflexivity. }
  assert (H2 : junctions_ok chain_store (Polymer.junctions chain_polymer)
                            (Polymer.topology chain_polymer)).
  { apply (bool_decide_unpack _). vm_compute. reflexivity. }
  assert (H3 : monomer_ok chain_store chain_monomer).
  { apply (bool_decide_unpack _). vm_compute. reflexivity. }
  assert (H4 : unique_ids chain_store (Polymer.topology chain_polymer)).
  { apply (bool_decide_unpack _). vm_compute. reflexivity. }
  assert (H5 : Polymer.extend chain_env chain_polymer chain_monomer "B" "A"
                 true chain_store = (Ok tt, chain_extended)).
  { vm_compute. reflexivity. }
  split; [exact (conj H1 (conj H2 (conj H3 (conj H4 H5))))|].
  exact (extend_ids_unique chain_env chain_polymer chain_monomer "B" "A" true
           chain_store chain_extended H1 H2 H3 H4 H5).
Defined.

Lemma extend_inherits_junctions_witness :
  (topology_ok chain_store (Polymer.topology chain_polymer) ∧
   junctions_ok chain_store (Polymer.junctions chain_polymer)
                (Polymer.topology chain_polymer) ∧
   monomer_ok chain_store chain_monomer ∧
   Polymer.extend chain_env chain_polymer chain_monomer "B" "A" true
                  chain_store = (Ok tt, chain_extended)) ∧
  ∃ pjs J tj tb fj fb pjs',
    junctions_objs chain_store !! Polymer.junctions chain_polymer = Some pjs ∧
    junctions_objs chain_store !! Monomer.junctions chain_monomer = Some J ∧
    to_junction_of chain_monomer "A" chain_store tj tb ∧
    from_junction_of chain_env chain_polymer "B" chain_store fj fb ∧
    junctions_objs chain_extended !! Polymer.junctions chain_polymer =
      Some pjs' ∧
    names chain_extended pjs' =
      names chain_store (filter (fun j => j ≠ fj) pjs) ++
      names chain_store (filter (fun j => j ≠ tj) J) ∧
    ∀ name, Polymer.has_junction chain_polymer name chain_extended =
            Ok (bool_decide (Some name ∈ names chain_extended pjs')).
Proof.
  assert (H1 : topology_ok chain_store (Polymer.topology chain_polymer)).
  { apply (bool_decide_unpack _). vm_compute. reflexivity. }
  assert (H2 : junctions_ok chain_store (Polymer.junctions chain_polymer)
                            (Polymer.topology chain_polymer)).
  { apply (bool_decide_unpack _). vm_compute. reflexivity. }
  assert (H3 : monomer_ok chain_store chain_monomer).
  { apply (bool_decide_unpack _). vm_compute. reflexivity. }
  assert (H4 : Polymer.extend chain_env chain_polymer chain_monomer "B" "A"
                 true chain_store = (Ok tt, chain_extended)).
  { vm_compute. reflexivity. }
  split; [exact (conj H1 (conj H2 (conj H3 H4)))|].
  exact (extend_inherits_junctions chain_env chain_polymer chain_monomer "B"
           "A" true chain_store chain_extended H1 H2 H3 H4).
Defined.

(** The store after the same call without keep_charge. *)
Definition chain_joined : heap :=
  snd (Polymer.extend chain_env chain_polymer chain_monomer "B" "A" false
                      chain_store).

Lemma extend_keeps_charges_witness :
  Polymer.extend chain_env chain_polymer chain_monomer "B" "A" false
                 chain_store = (Ok tt, chain_joined) ∧
  ∀ a A, atom_objs chain_store !! a = Some A →
    ∃ A', atom_objs chain_joined !! a = Some A' ∧
          A' = Atom.set_bonds (Atom.bonds A') A.
Proof.
  assert (H1 : Polymer.extend chain_env chain_polymer chain_monomer "B" "A"
                 false chain_store = (Ok tt, chain_joined)).
  { vm_compute. reflexivity. }
  split; [exact H1|].
  exact (extend_keeps_charges chain_env chain_polymer chain_monomer "B" "A"
           chain_store chain_joined H1).
Defined.


End examples.
